(** * Indicator engine and horizon matcher of the stocks backend

    A shallow embedding of [backend-python/app.py]: the two functions
    [read_latest_from_csv] (period-over-period change of one symbol) and
    [compute_indicators_from_csv] (RSI, EMAs, MACD and the crossover
    signal), together with the pieces of the Python runtime they call.

    Conventions of the embedding.
    - Python exceptions are explicit: a computation is a [result], either
      [Ret v] or [Raise e]; [try/except] is [catch_all] / [catch_value_error].
    - Floating-point numbers are idealised as exact rationals ([Q]); a
      missing value (NaN, [pd.NA]) of a pandas Series is [None] of
      [option Q].  Rounding, infinities and overflow are not modelled;
      [change_pct_binary64] evaluates the change formula on binary64.
    - Strings are ASCII strings; [len] and [isdigit] are taken on ASCII.
    - The builtin [float(str)] is a parameter [float_of_str] of the model
      ([None] stands for [ValueError]); [float_of_decimal] is the instance
      used on concrete inputs. *)

From Stdlib Require Import ZArith QArith Bool List Sorted String Ascii Lia Lqa.
From Stdlib Require Import Floats.
Import ListNotations.
Local Open Scope Z_scope.

(** ** Exceptions *)

Inductive exn : Type :=
| ValueError
| IndexError
| OverflowError
| AttributeError
| TypeError.

Inductive result (A : Type) : Type :=
| Ret (a : A)
| Raise (e : exn).
Arguments Ret {A} a.
Arguments Raise {A} e.

Definition bind {A B : Type} (c : result A) (k : A -> result B) : result B :=
  match c with
  | Ret a => k a
  | Raise e => Raise e
  end.

Notation "x <- c ;; k" := (bind c (fun x => k))
  (at level 61, c at next level, right associativity).

(** [try: c  except Exception: h] *)
Definition catch_all {A : Type} (c : result A) (h : result A) : result A :=
  match c with
  | Ret a => Ret a
  | Raise _ => h
  end.

(** [try: c  except ValueError: h] *)
Definition catch_value_error {A : Type} (c : result A) (h : result A) : result A :=
  match c with
  | Ret a => Ret a
  | Raise ValueError => h
  | Raise e => Raise e
  end.

Definition raises {A : Type} (c : result A) : Prop :=
  exists e, c = Raise e.

(** ** Strings and sequences *)

Definition is_digit (c : ascii) : bool :=
  let n := nat_of_ascii c in (48 <=? n)%nat && (n <=? 57)%nat.

Definition digit_val (c : ascii) : Z := Z.of_nat (nat_of_ascii c) - 48.

Definition in_range (lo hi : Z) (c : ascii) : bool :=
  is_digit c && (lo <=? digit_val c) && (digit_val c <=? hi).

(** [seq[i]] for a non-negative index: [IndexError] out of range. *)
Definition getitem {A : Type} (l : list A) (i : nat) : result A :=
  match nth_error l i with
  | Some a => Ret a
  | None => Raise IndexError
  end.

(** ** Dates: [datetime.strptime(s, "%Y-%m-%d")] and day arithmetic *)

Record date : Type := mkdate { year : Z; month : Z; day : Z }.

Definition is_leap (y : Z) : bool :=
  (y mod 4 =? 0) && (negb (y mod 100 =? 0) || (y mod 400 =? 0)).

Definition days_in_month (y m : Z) : Z :=
  if m =? 2 then (if is_leap y then 29 else 28)
  else if (m =? 4) || (m =? 6) || (m =? 9) || (m =? 11) then 30
  else 31.

Definition days_before_year (y : Z) : Z :=
  let p := y - 1 in p * 365 + p / 4 - p / 100 + p / 400.

Fixpoint days_before_month_aux (y : Z) (n : nat) : Z :=
  match n with
  | O => 0
  | S k => days_before_month_aux y k + days_in_month y (Z.of_nat (S k))
  end.

Definition days_before_month (y m : Z) : Z :=
  days_before_month_aux y (Z.to_nat (m - 1)).

(** [date.toordinal()]: 0001-01-01 is day 1. *)
Definition toordinal (d : date) : Z :=
  days_before_year (year d) + days_before_month (year d) (month d) + day d.

Definition valid_date (d : date) : bool :=
  (1 <=? year d) && (year d <=? 9999) &&
  (1 <=? month d) && (month d <=? 12) &&
  (1 <=? day d) && (day d <=? days_in_month (year d) (month d)).

(** The directive [%m] is the regular expression [1[0-2]|0[1-9]|[1-9]]. *)
Definition parse_month (s : list ascii) : option (Z * list ascii) :=
  match s with
  | a :: b :: r =>
      if in_range 1 1 a && in_range 0 2 b then Some (10 + digit_val b, r)
      else if in_range 0 0 a && in_range 1 9 b then Some (digit_val b, r)
      else if in_range 1 9 a then Some (digit_val a, b :: r)
      else None
  | a :: r => if in_range 1 9 a then Some (digit_val a, r) else None
  | [] => None
  end.

(** The directive [%d] is [3[0-1]|[1-2]\d|0[1-9]|[1-9]| [1-9]]. *)
Definition parse_day (s : list ascii) : option (Z * list ascii) :=
  match s with
  | a :: b :: r =>
      if in_range 3 3 a && in_range 0 1 b then Some (30 + digit_val b, r)
      else if in_range 1 2 a && is_digit b then Some (10 * digit_val a + digit_val b, r)
      else if in_range 0 0 a && in_range 1 9 b then Some (digit_val b, r)
      else if in_range 1 9 a then Some (digit_val a, b :: r)
      else if Ascii.eqb a " " && in_range 1 9 b then Some (digit_val b, r)
      else None
  | a :: r => if in_range 1 9 a then Some (digit_val a, r) else None
  | [] => None
  end.

Definition expect_dash (s : list ascii) : option (list ascii) :=
  match s with
  | c :: r => if Ascii.eqb c "-" then Some r else None
  | [] => None
  end.

(** The fields of a string in the format [%Y-%m-%d]: four digits, a
    dash, a month, a dash, a day, and nothing after it. *)
Definition parse_ymd (s : list ascii) : option date :=
  match s with
  | y1 :: y2 :: y3 :: y4 :: r =>
      if is_digit y1 && is_digit y2 && is_digit y3 && is_digit y4 then
        match expect_dash r with
        | Some r1 =>
            match parse_month r1 with
            | Some (m, r2) =>
                match expect_dash r2 with
                | Some r3 =>
                    match parse_day r3 with
                    | Some (d, []) =>
                        Some (mkdate (1000 * digit_val y1 + 100 * digit_val y2
                                      + 10 * digit_val y3 + digit_val y4) m d)
                    | _ => None
                    end
                | None => None
                end
            | None => None
            end
        | None => None
        end
      else None
  | _ => None
  end.

(** [datetime.strptime(s, "%Y-%m-%d")]: [ValueError] when the string does
    not match the format or names no day of the calendar (years 1..9999). *)
Definition strptime (s : string) : result date :=
  match parse_ymd (list_ascii_of_string s) with
  | Some d => if valid_date d then Ret d else Raise ValueError
  | None => Raise ValueError
  end.

(** [d - timedelta(days=n)], as an ordinal: [OverflowError] before year 1. *)
Definition minus_days (d : date) (n : Z) : result Z :=
  let o := toordinal d - n in
  if 1 <=? o then Ret o else Raise OverflowError.

(** ** [float(str)] on plain decimal literals *)

(** Reads a run of digits: the value read (continuing [acc]), the rest
    of the text and the number of digits consumed. *)
Fixpoint digits_val (acc : Z) (s : list ascii) : Z * list ascii * nat :=
  match s with
  | c :: r =>
      if is_digit c then
        let '(v, r', n) := digits_val (10 * acc + digit_val c) r in (v, r', S n)
      else (acc, s, O)
  | [] => (acc, [], O)
  end.

Definition unsigned_decimal (s : list ascii) : option Q :=
  let '(ip, r, n) := digits_val 0 s in
  match r with
  | [] => if (0 <? n)%nat then Some (inject_Z ip) else None
  | c :: r' =>
      if Ascii.eqb c "." then
        match digits_val ip r' with
        | (v, [], k) =>
            if (0 <? n + k)%nat
            then Some (Qmake v (Pos.of_nat (Nat.pow 10 k)))
            else None
        | _ => None
        end
      else None
  end.

(** An optional sign, digits, an optional fraction: the plain decimal
    fragment of what [float] accepts.  Text outside it is rejected. *)
Definition float_of_decimal (s : string) : option Q :=
  match list_ascii_of_string s with
  | c :: r =>
      if Ascii.eqb c "-" then option_map Qopp (unsigned_decimal r)
      else if Ascii.eqb c "+" then unsigned_decimal r
      else unsigned_decimal (c :: r)
  | [] => None
  end.

(** * The horizon matcher: [read_latest_from_csv] *)

(** A row of [csv.reader]: the fields of one line. *)
Definition row : Type := list string.

Record ChangeSummary : Type := mkChangeSummary {
  cs_date : string;
  cs_close : Q;
  cs_prev_close : option Q;
  cs_change_pct : option Q
}.

(** [{"1d": 1, "1w": 7, "1m": 30, "3m": 90, "6m": 180, "1y": 365}.get(duration, 1)] *)
Definition duration_days (duration : string) : Z :=
  if String.eqb duration "1d" then 1
  else if String.eqb duration "1w" then 7
  else if String.eqb duration "1m" then 30
  else if String.eqb duration "3m" then 90
  else if String.eqb duration "6m" then 180
  else if String.eqb duration "1y" then 365
  else 1.

(** [[r for r in reader if r]] *)
Definition nonempty_row (r : row) : bool :=
  match r with
  | [] => false
  | _ :: _ => true
  end.

(** [r[0] and (len(r[0]) >= 4 and r[0][0].isdigit())] *)
Definition is_data_row (r : row) : bool :=
  match r with
  | f :: _ =>
      match f with
      | String c _ => (4 <=? String.length f)%nat && is_digit c
      | EmptyString => false
      end
  | [] => false
  end.

Definition data_rows_of (rows : list row) : list row :=
  filter is_data_row (filter nonempty_row rows).

(** [data_rows[-1]], on a list known to the caller to be non-empty. *)
Definition last_row (rows : list row) : option row :=
  match rows with
  | [] => None
  | r :: rest => Some (last rest r)
  end.

(** The state of the scan: [(prev, prev_diff)]. *)
Definition scan_state : Type := (option row * option Z)%type.

(** One iteration of [for row in data_rows], the body under
    [try ... except ValueError: continue]. *)
Definition scan_step (target : Z) (st : scan_state) (r : row) : result scan_state :=
  catch_value_error
    (f <- getitem r 0 ;;
     d <- strptime f ;;
     let diff := Z.abs (toordinal d - target) in
     match snd st with
     | None => Ret (Some r, Some diff)
     | Some prev_diff =>
         if diff <? prev_diff then Ret (Some r, Some diff) else Ret st
     end)
    (Ret st).

Fixpoint scan (target : Z) (rows : list row) (st : scan_state) : result scan_state :=
  match rows with
  | [] => Ret st
  | r :: rest => st' <- scan_step target st r ;; scan target rest st'
  end.

(** The target date of a file and horizon, as an ordinal:
    [last_date - timedelta(days=duration_days)]. *)
Definition target_of (last : row) (duration : string) : result Z :=
  f <- getitem last 0 ;;
  last_date <- strptime f ;;
  minus_days last_date (duration_days duration).

(** The row the scan settles on ([prev] after the loop). *)
Definition matched_row (rows : list row) (duration : string) : result (option row) :=
  let data_rows := data_rows_of rows in
  match last_row data_rows with
  | None => Ret None
  | Some last =>
      target <- target_of last duration ;;
      st <- scan target data_rows (None, None) ;;
      Ret (fst st)
  end.

Section Matcher.

(** The builtin [float] on strings; [None] is [ValueError].  The values
    are the finite ones, taken as exact rationals: a text that [float] maps
    to an infinity or to NaN ([inf], [nan], [1e999]) has no value here, and
    a file with such a field is outside what this function describes. *)
Variable float_of_str : string -> option Q.

Definition float_str (s : string) : result Q :=
  match float_of_str s with
  | Some q => Ret q
  | None => Raise ValueError
  end.

(** [float(r[2]) if len(r) > 2 and r[2] != "" else float(r[1])] *)
Definition close_field (r : row) : result Q :=
  let third_filled :=
    match nth_error r 2 with
    | Some x => negb (String.eqb x "")
    | None => false
    end in
  if (2 <? List.length r)%nat && third_filled
  then x <- getitem r 2 ;; float_str x
  else x <- getitem r 1 ;; float_str x.

(** The close of the latest row: the nested [try] of the source; the
    inner [except] leaves the function with [None]. *)
Definition latest_close (last : row) : result (option Q) :=
  catch_all
    (c <- close_field last ;; Ret (Some c))
    (catch_all
       (x <- getitem last 1 ;; c <- float_str x ;; Ret (Some c))
       (Ret None)).

(** [prev_close]: [None] when [prev] is [None] or its close does not parse. *)
Definition prev_close_of (prev : option row) : result (option Q) :=
  match prev with
  | None => Ret None
  | Some p =>
      catch_all (c <- close_field p ;; Ret (Some c)) (Ret None)
  end.

(** [(close - prev_close) / prev_close * 100.0], guarded as in the source. *)
Definition change_pct_of (close : Q) (prev_close : option Q) : option Q :=
  match prev_close with
  | Some pc =>
      if negb (Qeq_bool pc 0) then Some ((close - pc) / pc * 100)%Q else None
  | None => None
  end.

(** The same expression on IEEE binary64 numbers, the floats of the
    source, to evaluate it on given values. *)
Definition change_pct_binary64 (close prev_close : float) : float :=
  ((close - prev_close) / prev_close * 100)%float.

(** [read_latest_from_csv(csv_path, duration)].  [file] is [None] when
    the path does not exist, else the rows [csv.reader] yields: the
    function is taken from the point where the file has been opened, decoded
    and split into rows.  That step stands outside any [try] (a file that is
    not UTF-8, or a line [csv.reader] refuses, raises there) and is not part
    of this definition.  The fields are ASCII text: [len] and [isdigit] are
    taken on the characters of a [string], which are bytes. *)
Definition read_latest_from_csv (file : option (list row)) (duration : string)
  : result (option ChangeSummary) :=
  match file with
  | None => Ret None
  | Some rows =>
      let data_rows := data_rows_of rows in
      match last_row data_rows with
      | None => Ret None
      | Some last =>
          target <- target_of last duration ;;
          st <- scan target data_rows (None, None) ;;
          let prev := fst st in
          oclose <- latest_close last ;;
          match oclose with
          | None => Ret None
          | Some close =>
              prev_close <- prev_close_of prev ;;
              date0 <- getitem last 0 ;;
              Ret (Some (mkChangeSummary date0 close prev_close
                           (change_pct_of close prev_close)))
          end
      end
  end.

End Matcher.

(** * The indicator engine: [compute_indicators_from_csv] *)

(** ** pandas Series of floats

    An element is [Some q] or [None] (NaN / [pd.NA]).  Arithmetic
    propagates the missing value; comparisons with it are false. *)

Definition fval : Type := option Q.
Definition series : Type := list fval.

Definition lift2 (f : Q -> Q -> Q) (a b : fval) : fval :=
  match a, b with
  | Some x, Some y => Some (f x y)
  | _, _ => None
  end.

Definition fsub : fval -> fval -> fval := lift2 Qminus.
Definition fadd : fval -> fval -> fval := lift2 Qplus.
Definition fdiv : fval -> fval -> fval := lift2 Qdiv.
Definition fneg (a : fval) : fval := option_map Qopp a.

Definition fleb (a b : fval) : bool :=
  match a, b with
  | Some x, Some y => Qle_bool x y
  | _, _ => false
  end.

Definition fltb (a b : fval) : bool :=
  match a, b with
  | Some x, Some y => Qle_bool x y && negb (Qeq_bool x y)
  | _, _ => false
  end.

Definition fzero : fval := Some 0%Q.

(** [s.diff()] *)
Fixpoint diff_from (before : fval) (l : series) : series :=
  match l with
  | [] => []
  | x :: r => fsub x before :: diff_from x r
  end.

Definition diff (l : series) : series :=
  match l with
  | [] => []
  | x :: r => None :: diff_from x r
  end.

(** [s.clip(lower=0)] and [s.clip(upper=0)] *)
Definition clip_lower0 (l : series) : series :=
  map (option_map (fun x => if Qle_bool 0 x then x else 0%Q)) l.

Definition clip_upper0 (l : series) : series :=
  map (option_map (fun x => if Qle_bool x 0 then x else 0%Q)) l.

Definition neg (l : series) : series := map fneg l.

(** [a - b] and [a / b] on Series of the same index. *)
Fixpoint zip_with (f : fval -> fval -> fval) (a b : series) : series :=
  match a, b with
  | x :: a', y :: b' => f x y :: zip_with f a' b'
  | _, _ => []
  end.

(** [s.replace(0, pd.NA)] *)
Definition replace_zero_na (l : series) : series :=
  map (fun a => match a with
                | Some x => if Qeq_bool x 0 then None else Some x
                | None => None
                end) l.

(** [s.ewm(alpha=alpha, adjust=False).mean()], with the defaults
    [ignore_na=False] and [min_periods=0]: the mean starts at the first
    observation, [y_t = (1 - alpha) y_(t-1) + alpha x_t] from then on; over
    a gap of missing values the old mean keeps its place with weight
    [(1 - alpha)^k] and the two weights are normalised. *)
Fixpoint ewm_from (alpha : Q) (weighted : fval) (old_wt : Q) (l : series) : series :=
  match l with
  | [] => []
  | cur :: rest =>
      match weighted with
      | Some w =>
          let old_wt' := (old_wt * (1 - alpha))%Q in
          match cur with
          | Some c =>
              let w' := ((old_wt' * w + alpha * c) / (old_wt' + alpha))%Q in
              Some w' :: ewm_from alpha (Some w') 1%Q rest
          | None => Some w :: ewm_from alpha (Some w) old_wt' rest
          end
      | None => cur :: ewm_from alpha cur 1%Q rest
      end
  end.

Definition ewm (alpha : Q) (l : series) : series :=
  match l with
  | [] => []
  | x :: r => x :: ewm_from alpha x 1%Q r
  end.

(** [s.ewm(span=span, adjust=False).mean()]: [alpha = 2 / (span + 1)]. *)
Definition ewm_span (span : Z) (l : series) : series :=
  ewm (2 # Z.to_pos (span + 1)) l.

(** [s.iloc[-k]] for [k >= 1]. *)
Definition iloc_back (l : series) (k : nat) : result fval :=
  getitem (rev l) (k - 1).

(** ** The indicators of a close Series *)

(** [gain], [loss] and their Wilder averages, [alpha = 1/14]. *)
Definition gain_series (close : series) : series :=
  clip_lower0 (diff close).

Definition loss_series (close : series) : series :=
  neg (clip_upper0 (diff close)).

Definition avg_gain_series (close : series) : series :=
  ewm (1 # 14) (gain_series close).

Definition avg_loss_series (close : series) : series :=
  ewm (1 # 14) (loss_series close).

(** [rs = avg_gain / avg_loss.replace(0, pd.NA)],
    [rsi = 100 - (100 / (1 + rs))] *)
Definition rsi_series (close : series) : series :=
  let rs := zip_with fdiv (avg_gain_series close)
              (replace_zero_na (avg_loss_series close)) in
  map (fun x => fsub (Some 100%Q) (fdiv (Some 100%Q) (fadd (Some 1%Q) x))) rs.

Definition macd_series (close : series) : series :=
  zip_with fsub (ewm_span 12 close) (ewm_span 26 close).

Definition signal_series (close : series) : series :=
  ewm_span 9 (macd_series close).

Definition macd_hist_series (close : series) : series :=
  zip_with fsub (macd_series close) (signal_series close).

Inductive crossover : Type := bullish | bearish | neutral.

(** The classification from the last two values of the histogram. *)
Definition macd_crossover (macd_hist : series) : result crossover :=
  if (2 <=? List.length macd_hist)%nat then
    prev <- iloc_back macd_hist 2 ;;
    curr <- iloc_back macd_hist 1 ;;
    if fleb prev fzero && fltb fzero curr then Ret bullish
    else if fleb fzero prev && fltb curr fzero then Ret bearish
    else Ret neutral
  else Ret neutral.

(** [pct_dist(series)]: [None] is Python's [None], [Some None] is NaN. *)
Definition pct_dist (latest_close : fval) (s : series) : result (option fval) :=
  v <- iloc_back s 1 ;;
  match v with
  | None => Ret None
  | Some q =>
      if Qeq_bool q 0 then Ret None
      else Ret (Some (lift2 Qmult (fdiv (fsub latest_close v) v) (Some 100%Q)))
  end.

(** [latest_close > float(e.iloc[-1]) if not pd.isna(e.iloc[-1]) else None] *)
Definition above (latest_close : fval) (s : series) : result (option bool) :=
  v <- iloc_back s 1 ;;
  match v with
  | None => Ret None
  | Some _ => Ret (Some (fltb v latest_close))
  end.

(** [None if pd.isna(s.iloc[-1]) else float(s.iloc[-1])] *)
Definition last_or_none (s : series) : result (option Q) :=
  iloc_back s 1.

(** ** The frame [pd.read_csv] yields *)

(** A value of a data column: a number, a missing value, or the text of
    a column that did not parse as numbers (dtype [object]). *)
Inductive cell : Type :=
| CNum (q : Q)
| CNaN
| CStr (s : string).

(** A value of the first column under [parse_dates=[0]]: a time stamp, a
    missing one, or the text of a column that did not parse as dates. *)
Inductive label : Type :=
| Timestamp (d : date)
| NaT
| Label (s : string).

(** [df_columns] are the names of the header, the first column included;
    a row is its value in the first column and its other cells in order. *)
Record DataFrame : Type := mkDataFrame {
  df_columns : list string;
  df_rows : list (label * list cell)
}.

(** What opening the file gives: no file, no frame from either
    [pd.read_csv] attempt, or the frame. *)
Inductive source : Type :=
| Missing
| Unreadable
| Parsed (df : DataFrame).

Fixpoint index_of (name : string) (columns : list string) : option nat :=
  match columns with
  | [] => None
  | c :: r => if String.eqb c name then Some O else option_map S (index_of name r)
  end.

(** [name in df.columns] *)
Definition has_column (columns : list string) (name : string) : bool :=
  existsb (String.eqb name) columns.

(** [row.get(name)]: the cell under a column name, [None] without it. *)
Definition row_get (columns : list string) (cells : list cell) (name : string)
  : option cell :=
  match index_of name columns with
  | Some i => Some (nth i cells CNaN)
  | None => None
  end.

(** [df[name]] for a name among the columns. *)
Definition column (columns : list string) (rows : list (label * list cell))
  (name : string) : list cell :=
  map (fun r => match row_get columns (snd r) name with
                | Some c => c
                | None => CNaN
                end) rows.

Definition close_candidates : list string :=
  ["Close"; "close"; "Adj Close"; "AdjClose"; "Adj_Close"]%string.

(** The canonical close column: the first candidate among the columns,
    else [df.columns[0]], the first column after the index. *)
Definition resolve_close_col (columns : list string) : result string :=
  match find (has_column columns) close_candidates with
  | Some c => Ret c
  | None => getitem columns 0
  end.

Definition digit_char (z : Z) : ascii := ascii_of_nat (Z.to_nat (48 + z mod 10)).

Definition two_digits (z : Z) : string :=
  String (digit_char (z / 10)) (String (digit_char z) EmptyString).

(** [idx.strftime('%Y-%m-%d')] of a time stamp whose year has four
    digits (1000..9999; at nanosecond resolution pandas keeps years in
    1677..2262).  Below 1000 what [%Y] gives depends on the C library, which
    may leave the year unpadded ([999-01-01]): the properties that name the
    text of a date are stated for years of four digits. *)
Definition strftime (d : date) : string :=
  (two_digits (year d / 100) ++ two_digits (year d) ++ "-"
   ++ two_digits (month d) ++ "-" ++ two_digits (day d))%string.

Record ohlcv_row : Type := mkOhlcv {
  o_date : string;
  o_open : option fval;
  o_high : option fval;
  o_low : option fval;
  o_close : fval;
  o_volume : option Z
}.

Record Snapshot : Type := mkSnapshot {
  snap_latest_close : fval;
  snap_rsi : option Q;
  snap_macd : option Q;
  snap_macd_signal : option Q;
  snap_macd_hist : option Q;
  snap_macd_crossover : crossover;
  snap_above_21 : option bool;
  snap_above_44 : option bool;
  snap_above_200 : option bool;
  snap_dist_21 : option fval;
  snap_dist_44 : option fval;
  snap_dist_200 : option fval;
  snap_ohlcv : list ohlcv_row
}.

Fixpoint mapM {A B : Type} (f : A -> result B) (l : list A) : result (list B) :=
  match l with
  | [] => Ret []
  | a :: r => b <- f a ;; bs <- mapM f r ;; Ret (b :: bs)
  end.

Section Indicators.

(** The builtins [float] and [int] on strings; [None] is [ValueError]. *)
Variable float_of_str : string -> option Q.
Variable int_of_str : string -> option Z.

(** [float(v)] of a cell *)
Definition float_cell (c : cell) : result fval :=
  match c with
  | CNum q => Ret (Some q)
  | CNaN => Ret None
  | CStr s => q <- float_str float_of_str s ;; Ret (Some q)
  end.

(** [int(v)] of a cell: truncation of a number, [ValueError] on NaN. *)
Definition int_cell (c : cell) : result Z :=
  match c with
  | CNum q => Ret (Z.quot (Qnum q) (Zpos (Qden q)))
  | CNaN => Raise ValueError
  | CStr s =>
      match int_of_str s with
      | Some z => Ret z
      | None => Raise ValueError
      end
  end.

(** [col.astype(float)] *)
Definition astype_float (col : list cell) : result series :=
  mapM float_cell col.

(** [float(row.get(A, row.get(a, None))) if A in row.index or a in
    row.index else None] *)
Definition float_either (columns : list string) (cells : list cell)
  (upper lower : string) : result (option fval) :=
  match row_get columns cells upper with
  | Some c => v <- float_cell c ;; Ret (Some v)
  | None =>
      match row_get columns cells lower with
      | Some c => v <- float_cell c ;; Ret (Some v)
      | None => Ret None
      end
  end.

Definition int_either (columns : list string) (cells : list cell)
  (upper lower : string) : result (option Z) :=
  match row_get columns cells upper with
  | Some c => v <- int_cell c ;; Ret (Some v)
  | None =>
      match row_get columns cells lower with
      | Some c => v <- int_cell c ;; Ret (Some v)
      | None => Ret None
      end
  end.

Definition strftime_label (l : label) : result string :=
  match l with
  | Timestamp d => Ret (strftime d)
  | NaT => Raise ValueError
  | Label _ => Raise AttributeError
  end.

(** The dictionary of one row of the recent window. *)
Definition ohlcv_of_row (columns : list string) (close_col : string)
  (r : label * list cell) : result ohlcv_row :=
  let cells := snd r in
  d <- strftime_label (fst r) ;;
  o <- float_either columns cells "Open" "open" ;;
  h <- float_either columns cells "High" "high" ;;
  l <- float_either columns cells "Low" "low" ;;
  c <- match row_get columns cells close_col with
       | Some c => float_cell c
       | None => Raise TypeError
       end ;;
  v <- int_either columns cells "Volume" "volume" ;;
  Ret (mkOhlcv d o h l c v).

(** [for idx, row in take.iterrows(): try: ohlcv.append(...) except
    Exception: continue] *)
Fixpoint ohlcv_rows (columns : list string) (close_col : string)
  (rows : list (label * list cell)) : list ohlcv_row :=
  match rows with
  | [] => []
  | r :: rest =>
      match ohlcv_of_row columns close_col r with
      | Ret o => o :: ohlcv_rows columns close_col rest
      | Raise _ => ohlcv_rows columns close_col rest
      end
  end.

(** [df.tail(n)] *)
Definition tail_rows {A : Type} (n : nat) (l : list A) : list A :=
  skipn (List.length l - n) l.

(** [compute_indicators_from_csv(csv_path)], from the first test on the
    frame onwards; the columns are those left by [set_index('Date')].  The
    first column is the only one that bears the name Date after the
    renaming: a frame with a later column of that name is refused by
    [set_index] and is not described here. *)
Definition compute_indicators (df : DataFrame) : result (option Snapshot) :=
  if (List.length (df_rows df) <? 10)%nat then Ret None
  else
    _ <- getitem (df_columns df) 0 ;;
    let columns := tl (df_columns df) in
    close_col <- resolve_close_col columns ;;
    close <- astype_float (column columns (df_rows df) close_col) ;;
    let rsi := rsi_series close in
    let ema21 := ewm_span 21 close in
    let ema44 := ewm_span 44 close in
    let ema200 := ewm_span 200 close in
    let macd := macd_series close in
    let signal := signal_series close in
    let macd_hist := macd_hist_series close in
    cross <- macd_crossover macd_hist ;;
    latest_close <- iloc_back close 1 ;;
    above_21 <- above latest_close ema21 ;;
    above_44 <- above latest_close ema44 ;;
    above_200 <- above latest_close ema200 ;;
    dist_21 <- pct_dist latest_close ema21 ;;
    dist_44 <- pct_dist latest_close ema44 ;;
    dist_200 <- pct_dist latest_close ema200 ;;
    let ohlcv := ohlcv_rows columns close_col (tail_rows 200 (df_rows df)) in
    rsi_last <- last_or_none rsi ;;
    macd_last <- last_or_none macd ;;
    signal_last <- last_or_none signal ;;
    hist_last <- last_or_none macd_hist ;;
    Ret (Some (mkSnapshot latest_close rsi_last macd_last signal_last
                 hist_last cross above_21 above_44 above_200
                 dist_21 dist_44 dist_200 ohlcv)).

Definition compute_indicators_from_csv (src : source) : result (option Snapshot) :=
  match src with
  | Missing => Ret None
  | Unreadable => Ret None
  | Parsed df => compute_indicators df
  end.

End Indicators.

(** [int(str)] on plain integer literals. *)
Definition int_of_decimal (s : string) : option Z :=
  let digits l :=
    match digits_val 0 l with
    | (v, [], S _) => Some v
    | _ => None
    end in
  match list_ascii_of_string s with
  | c :: r =>
      if Ascii.eqb c "-" then option_map Z.opp (digits r)
      else if Ascii.eqb c "+" then digits r
      else digits (c :: r)
  | [] => None
  end.

(** * Vocabulary of the properties *)

(** The day number of a row's date field, when it is a date. *)
Definition row_ordinal (r : row) : option Z :=
  match r with
  | f :: _ =>
      match strptime f with
      | Ret d => Some (toordinal d)
      | Raise _ => None
      end
  | [] => None
  end.

(** The update of [(prev, prev_diff)] by a row at distance [diff]. *)
Definition better (st : scan_state) (r : row) (diff : Z) : scan_state :=
  match snd st with
  | None => (Some r, Some diff)
  | Some prev_diff => if diff <? prev_diff then (Some r, Some diff) else st
  end.

(** What the scan has settled on after [rows]: nothing when no row has a
    date, else the first row at the least distance from [target]. *)
Definition selected (target : Z) (rows : list row) (st : scan_state) : Prop :=
  (st = (None, None) /\ forall r, In r rows -> row_ordinal r = None)
  \/ (exists pre m post o,
         rows = pre ++ m :: post
         /\ row_ordinal m = Some o
         /\ st = (Some m, Some (Z.abs (o - target)))
         /\ (forall r o', In r pre -> row_ordinal r = Some o' ->
                          Z.abs (o - target) < Z.abs (o' - target))
         /\ (forall r o', In r post -> row_ordinal r = Some o' ->
                          Z.abs (o - target) <= Z.abs (o' - target))).

(** The day numbers of the rows that carry a date, in file order. *)
Fixpoint ordinals (rows : list row) : list Z :=
  match rows with
  | [] => []
  | r :: rest =>
      match row_ordinal r with
      | Some o => o :: ordinals rest
      | None => ordinals rest
      end
  end.

(** A series ordered ascending by date. *)
Definition ascending (rows : list row) : Prop :=
  StronglySorted Z.le (ordinals rows).

(** The close of a row as [prev_close] sees it. *)
Definition close_or_none (float_of_str : string -> option Q) (r : row)
  : option Q :=
  match close_field float_of_str r with
  | Ret c => Some c
  | Raise _ => None
  end.

(** The close of a row under the name policy of the engine, were it
    applied to a file: the field under the column that [resolve_close_col]
    names among the columns of the header line after the date. *)
Definition close_by_name (float_of_str : string -> option Q) (header r : row)
  : option Q :=
  match resolve_close_col (tl header) with
  | Ret name =>
      match index_of name header with
      | Some i =>
          match nth_error r i with
          | Some x => float_of_str x
          | None => None
          end
      | None => None
      end
  | Raise _ => None
  end.

(** Order on Series values: a comparison with a missing value fails. *)
Definition fle (a b : fval) : Prop :=
  match a, b with
  | Some x, Some y => (x <= y)%Q
  | _, _ => False
  end.

Definition flt (a b : fval) : Prop :=
  match a, b with
  | Some x, Some y => (x < y)%Q
  | _, _ => False
  end.

(** The close Series of a frame: the resolved column, coerced. *)
Definition close_series (float_of_str : string -> option Q) (df : DataFrame)
  : result series :=
  _ <- getitem (df_columns df) 0 ;;
  close_col <- resolve_close_col (tl (df_columns df)) ;;
  astype_float float_of_str (column (tl (df_columns df)) (df_rows df) close_col).

(** The usable rows of a frame, as the specification counts them: the
    rows whose close is resolvable, a number in the close Series. *)
Definition usable_rows (float_of_str : string -> option Q) (df : DataFrame) : nat :=
  match close_series float_of_str df with
  | Ret close =>
      List.length (filter (fun v : fval => match v with
                                           | Some _ => true
                                           | None => false
                                           end) close)
  | Raise _ => 0
  end.

Definition nonneg (v : fval) : Prop :=
  match v with
  | Some x => (0 <= x)%Q
  | None => True
  end.

Definition in_0_100 (v : fval) : Prop :=
  match v with
  | Some x => (0 <= x <= 100)%Q
  | None => True
  end.

(** Every value is a number equal to [c]. *)
Definition all_eq (c : Q) (l : series) : Prop :=
  Forall (fun v => exists q, v = Some q /\ (q == c)%Q) l.

(** Every value is missing or zero. *)
Definition none_or_zero (v : fval) : Prop :=
  match v with
  | Some q => (q == 0)%Q
  | None => True
  end.

(** * Concrete inputs *)

(** The series [(2024-01-01, close=100), (2024-01-08, close=110)] under
    a header line. *)
Definition two_rows : list row :=
  [ ["Date"; "Close"]; ["2024-01-01"; "100"]; ["2024-01-08"; "110"] ]%string.

(** A file whose latest row starts with digits that are no date. *)
Definition bad_date_rows : list row :=
  [ ["Date"; "Close"]; ["2024-01-01"; "100"]; ["2024/01/08"; "110"] ]%string.

(** A file with two rows at the same distance from the target of "1d". *)
Definition tie_rows : list row :=
  [ ["Date"; "Close"]; ["2024-01-02"; "90"]; ["2024-01-04"; "95"];
    ["2024-01-04"; "110"] ]%string.

(** A file whose third field is not the close. *)
Definition volume_rows : list row :=
  [ ["Date"; "Close"; "Volume"]; ["2024-01-05"; "100"; "5000"];
    ["2024-01-08"; "110"; "7000"] ]%string.

(** A file whose matched row has text for a close. *)
Definition bad_prev_rows : list row :=
  [ ["Date"; "Close"]; ["2024-01-01"; "n.a."]; ["2024-01-08"; "110"] ]%string.

Definition one_row : list row :=
  [ ["Date"; "Close"]; ["2024-01-08"; "110"] ]%string.

(** A single data row whose third field is text. *)
Definition noted_row : list row :=
  [ ["Date"; "Close"; "Note"]; ["2024-01-08"; "110"; "abc"] ]%string.

(** A single data row whose date is written with slashes. *)
Definition slash_row : list row :=
  [ ["Date"; "Close"]; ["2024/01/08"; "110"] ]%string.

(** A frame of eleven closes under the header [Date,Close,Volume]. *)
Definition sample_frame : DataFrame :=
  mkDataFrame ["Date"; "Close"; "Volume"]%string
    (map (fun p => (Timestamp (mkdate 2024 1 (fst p)),
                    [CNum (inject_Z (snd p)); CNum 1000%Q]))
         (combine [1; 2; 3; 4; 5; 6; 7; 8; 9; 10; 11]
                  [44; 45; 43; 46; 47; 45; 48; 49; 47; 50; 51])).

(** Ten rows under [Date,Close] of which the first six have an empty
    close cell: four usable rows. *)
Definition sparse_close_frame : DataFrame :=
  mkDataFrame ["Date"; "Close"]%string
    (map (fun d => (Timestamp (mkdate 2024 1 d), [CNaN])) [1; 2; 3; 4; 5; 6]
     ++ map (fun p => (Timestamp (mkdate 2024 1 (fst p)), [CNum (inject_Z (snd p))]))
          (combine [7; 8; 9; 10] [100; 102; 101; 103])).

(** The same frame cut to its first five rows. *)
Definition five_row_frame : DataFrame :=
  mkDataFrame (df_columns sample_frame) (firstn 5 (df_rows sample_frame)).

(** Twenty days of close at 50.0 under the header [Date,Close]. *)
Definition constant_frame : DataFrame :=
  mkDataFrame ["Date"; "Close"]%string
    (map (fun d => (Timestamp (mkdate 2024 1 d), [CNum 50%Q]))
         [1; 2; 3; 4; 5; 6; 7; 8; 9; 10; 11; 12; 13; 14; 15; 16; 17; 18; 19; 20]).

(** Ten rows under [Date,Close] whose close column is text, one cell of
    it not a number. *)
Definition bad_close_frame : DataFrame :=
  mkDataFrame ["Date"; "Close"]%string
    (map (fun p => (Timestamp (mkdate 2024 1 (fst p)), [CStr (snd p)]))
         (combine [1; 2; 3; 4; 5; 6; 7; 8; 9; 10]
                  ["100"; "101"; "102"; "abc"; "104"; "105"; "106"; "107";
                   "108"; "109"]%string)).

(** * The endpoints of [app.py] over the two functions *)

(** An entry of the universe JSON.  A field read with [entry.get] is
    [None] when the key is absent or null; the fields are taken to be
    strings otherwise. *)
Record universe_entry : Type := mkEntry {
  e_symbol : option string;
  e_name : option string;
  e_sector : option string
}.

(** [read_universe(universe_path)] of [app.py]: the empty list without
    the file, else what [json.load] gives. *)
Definition read_universe (file : option (list universe_entry)) : list universe_entry :=
  match file with
  | None => []
  | Some entries => entries
  end.

(** The text [f"{sym}"] of a symbol. *)
Definition str_of (sym : option string) : string :=
  match sym with
  | Some s => s
  | None => "None"
  end.

(** Truth of a value read with [entry.get]: neither [None] nor empty. *)
Definition truthy (o : option string) : bool :=
  match o with
  | Some s => negb (String.eqb s "")
  | None => false
  end.

(** A Python [dict] with text keys, in insertion order. *)
Definition dict (V : Type) : Type := list (string * V).

Fixpoint dict_get {V : Type} (k : string) (d : dict V) : option V :=
  match d with
  | [] => None
  | (k', v) :: rest => if String.eqb k' k then Some v else dict_get k rest
  end.

(** [d[k] = v]: the value of an old key changes in place, a new key
    goes last. *)
Fixpoint dict_set {V : Type} (k : string) (v : V) (d : dict V) : dict V :=
  match d with
  | [] => [(k, v)]
  | (k', v') :: rest =>
      if String.eqb k' k then (k', v) :: rest else (k', v') :: dict_set k v rest
  end.

Definition dict_keys {V : Type} (d : dict V) : list string := map fst d.

(** ** [sector_heatmap] *)

Record sym_obj : Type := mkSymObj {
  so_symbol : option string;
  so_name : option string;
  so_date : string;
  so_close : Q;
  so_change_pct : option Q
}.

Record sector_group : Type := mkGroup {
  g_symbols : list sym_obj;
  g_avg_change_pct : option Q
}.

Inductive heatmap_response : Type :=
| HeatmapOk (duration : string) (sectors : dict sector_group)
| HeatmapError (status : Z) (message : string).

Definition valid_durations : list string :=
  ["1d"; "1w"; "1m"; "3m"; "6m"; "1y"]%string.

(** [entry.get("sector") or "Unknown"] *)
Definition sector_of (entry : universe_entry) : string :=
  if truthy (e_sector entry) then str_of (e_sector entry) else "Unknown"%string.

(** [sect = sectors.setdefault(sector, {"symbols": [], "avg_change_pct":
    None}); sect["symbols"].append(sym_obj)] *)
Fixpoint add_symbol (sector : string) (o : sym_obj) (sectors : dict sector_group)
  : dict sector_group :=
  match sectors with
  | [] => [(sector, mkGroup [o] None)]
  | (k, g) :: rest =>
      if String.eqb k sector
      then (k, mkGroup (g_symbols g ++ [o]) (g_avg_change_pct g)) :: rest
      else (k, g) :: add_symbol sector o rest
  end.

(** [[s["change_pct"] for s in symbols if s.get("change_pct") is not None]] *)
Fixpoint defined_changes (symbols : list sym_obj) : list Q :=
  match symbols with
  | [] => []
  | s :: rest =>
      match so_change_pct s with
      | Some c => c :: defined_changes rest
      | None => defined_changes rest
      end
  end.

(** [sum(changes)] *)
Definition qsum (changes : list Q) : Q := fold_left Qplus changes 0%Q.

(** [sum(changes) / len(changes) if changes else None] *)
Definition average (changes : list Q) : option Q :=
  match changes with
  | [] => None
  | _ :: _ => Some (qsum changes / inject_Z (Z.of_nat (List.length changes)))%Q
  end.

(** The second loop: the average of every sector. *)
Definition with_averages (sectors : dict sector_group) : dict sector_group :=
  map (fun kv => (fst kv,
                  mkGroup (g_symbols (snd kv))
                    (average (defined_changes (g_symbols (snd kv)))))) sectors.

Section Endpoints.

Variable float_of_str : string -> option Q.
Variable int_of_str : string -> option Z.

(** The files [data/ohlcv/<stem>.csv] by stem: the rows [csv.reader]
    yields, [None] without the file. *)
Variable csv_files : string -> option (list row).

(** The same files as [pd.read_csv] sees them. *)
Variable csv_frames : string -> source.

(** The first loop of [sector_heatmap], from a given [sectors]. *)
Fixpoint collect_sectors (duration : string) (universe : list universe_entry)
  (sectors : dict sector_group) : result (dict sector_group) :=
  match universe with
  | [] => Ret sectors
  | entry :: rest =>
      let sym := e_symbol entry in
      match csv_files (str_of sym) with
      | None => collect_sectors duration rest sectors
      | Some rows =>
          latest <- read_latest_from_csv float_of_str (Some rows) duration ;;
          match latest with
          | None => collect_sectors duration rest sectors
          | Some s =>
              collect_sectors duration rest
                (add_symbol (sector_of entry)
                   (mkSymObj sym (e_name entry) (cs_date s) (cs_close s)
                      (cs_change_pct s))
                   sectors)
          end
      end
  end.

(** [sector_heatmap()]: [duration_arg] is the query parameter, [None]
    without it; [universe_file] is [None] when the universe file does not
    exist. *)
Definition sector_heatmap (duration_arg : option string)
  (universe_file : option (list universe_entry)) : result heatmap_response :=
  let duration := match duration_arg with
                  | Some d => d
                  | None => "1d"%string
                  end in
  if negb (existsb (String.eqb duration) valid_durations)
  then Ret (HeatmapError 400 "Invalid duration")
  else
    match universe_file with
    | None => Ret (HeatmapError 500 "Universe file not found")
    | Some _ =>
        let universe := read_universe universe_file in
        sectors <- collect_sectors duration universe [] ;;
        let sectors := with_averages sectors in
        match sectors with
        | [] => Ret (HeatmapError 404 "No data available. Run ingest first.")
        | _ :: _ => Ret (HeatmapOk duration sectors)
        end
    end.

(** ** [analysis] *)

Record analysis_response : Type := mkAnalysis {
  a_symbols : dict Snapshot;
  a_selected_symbol : option string;
  a_selected_data : option Snapshot
}.

(** [[e.get('symbol') for e in universe if e.get('symbol')]] *)
Definition universe_symbols (universe : list universe_entry) : list string :=
  map (fun e => str_of (e_symbol e)) (filter (fun e => truthy (e_symbol e)) universe).

(** The loop over the symbols, from a given [results]. *)
Fixpoint collect_indicators (symbols : list string) (results : dict Snapshot)
  : result (dict Snapshot) :=
  match symbols with
  | [] => Ret results
  | sym :: rest =>
      info <- compute_indicators_from_csv float_of_str int_of_str (csv_frames sym) ;;
      match info with
      | None => collect_indicators rest results
      | Some snap => collect_indicators rest (dict_set sym snap results)
      end
  end.

(** [analysis()]: [symbol_arg] is the query parameter [symbol]. *)
Definition analysis (symbol_arg : option string)
  (universe_file : option (list universe_entry)) : result analysis_response :=
  let universe := read_universe universe_file in
  let symbols := universe_symbols universe in
  results <- collect_indicators symbols [] ;;
  selected_data <-
    (if truthy symbol_arg
     then compute_indicators_from_csv float_of_str int_of_str
            (csv_frames (str_of symbol_arg))
     else Ret None) ;;
  Ret (mkAnalysis results symbol_arg selected_data).

End Endpoints.

(** * [cache.py]: the in-memory cache with a time to live *)

Module Cache.

(** [a < b] on the clock values. *)
Definition Qltb (a b : Q) : bool := negb (Qle_bool b a).

Section Store.

(** The type of the cached results. *)
Variable A : Type.

(** The global [cache]: key to [(result, timestamp)]. *)
Definition store : Type := dict (A * Q).

(** The body of [wrapper] at clock value [now], under the key
    [cache_key] built from the name and the arguments of the call; [func] is
    what the wrapped function gives if it is called.  The outcome of the
    call and the cache after it. *)
Definition wrapper (ttl_seconds : Q) (cache_key : string) (now : Q)
  (func : result A) (cache : store) : result A * store :=
  let miss :=
    match func with
    | Ret r => (Ret r, dict_set cache_key (r, now) cache)
    | Raise e => (Raise e, cache)
    end in
  match dict_get cache_key cache with
  | Some (r, timestamp) =>
      if Qltb (now - timestamp) ttl_seconds then (Ret r, cache) else miss
  | None => miss
  end.

(** [clean_cache(max_age_seconds)] at clock value [now]. *)
Definition clean_cache (max_age_seconds : Q) (now : Q) (cache : store) : store :=
  filter (fun kv => negb (Qltb max_age_seconds (now - snd (snd kv)))) cache.

End Store.

End Cache.

(** * [scripts/ingest.py] *)

Module Ingest.

(** [read_universe(path)] of the script: the symbols that are true. *)
Definition read_universe (data : list universe_entry) : list string :=
  map (fun item => str_of (e_symbol item))
      (filter (fun item => truthy (e_symbol item)) data).

(** [l[:n]] for an integer [n] of either sign. *)
Definition slice_to {A : Type} (l : list A) (n : Z) : list A :=
  if 0 <=? n then firstn (Z.to_nat n) l
  else firstn (List.length l - Z.to_nat (- n)) l.

(** [if args.limit: symbols = symbols[: args.limit]] *)
Definition apply_limit (limit : option Z) (symbols : list string) : list string :=
  match limit with
  | Some n => if n =? 0 then symbols else slice_to symbols n
  | None => symbols
  end.

Record progress : Type := mkProgress {
  p_total : nat;
  p_done : nat;
  p_current : option string;
  p_status : string
}.

(** The download loop from index [i]: the objects handed to
    [write_progress], and how the loop ends.  [download_ok i sym] tells
    whether [download_symbol] returns for the symbol at index [i]; what
    [save_df] raises is caught and changes nothing here.  [sleep] is what
    [time.sleep(args.sleep)] gives, the same at every turn: it returns for a
    pause of zero or more ([0.25] without the option) and raises for one
    below zero, outside every [try]. *)
Fixpoint download_loop (total : nat) (download_ok : nat -> string -> bool)
  (sleep : result unit) (i : nat) (symbols : list string)
  : list progress * result unit :=
  match symbols with
  | [] => ([], Ret tt)
  | sym :: rest =>
      if download_ok i sym
      then
        let update := mkProgress total (S i) (Some sym) "running" in
        match sleep with
        | Ret _ =>
            let later := download_loop total download_ok sleep (S i) rest in
            (update :: fst later, snd later)
        | Raise e => ([update], Raise e)
        end
      else download_loop total download_ok sleep (S i) rest
  end.

(** [main] from the list of symbols on: the objects handed to
    [write_progress], in order, and the exit code or the exception. *)
Definition run_downloads (limit : option Z) (download_ok : nat -> string -> bool)
  (sleep : result unit) (symbols : list string) : list progress * result Z :=
  let symbols := apply_limit limit symbols in
  let total := List.length symbols in
  let first := mkProgress total 0 None "running" in
  let loop := download_loop total download_ok sleep 0 symbols in
  match snd loop with
  | Ret _ => (first :: fst loop ++ [mkProgress total total None "finished"], Ret 0)
  | Raise e => (first :: fst loop, Raise e)
  end.

(** A JSON value as [json.load] gives it. *)
#[warnings="-register-all"]
Inductive json : Type :=
| JNull
| JBool (b : bool)
| JNum (q : Q)
| JStr (s : string)
| JList (l : list json)
| JObj (l : list (string * json)).

(** [bool(data)] *)
Definition json_truth (data : json) : bool :=
  match data with
  | JNull => false
  | JBool b => b
  | JNum q => negb (Qeq_bool q 0)
  | JStr s => negb (String.eqb s "")
  | JList l => match l with [] => false | _ :: _ => true end
  | JObj l => match l with [] => false | _ :: _ => true end
  end.

Inductive scan_error : Type :=
| KeyError
| NotSubscriptable.

(** [data[0]] of a value that is true: the first element of a list, the
    first character of a text; an object has no key [0], a number or a
    boolean has no items. *)
Definition json_first (data : json) : sum scan_error json :=
  match data with
  | JList (x :: _) => inr x
  | JStr (String c _) => inr (JStr (String c EmptyString))
  | JObj _ => inl KeyError
  | _ => inl NotSubscriptable
  end.

(** The heuristic of the directory scan on one parsed file: whether it
    looks like the universe, or the exception of [data[0]]. *)
Definition looks_like_universe (data : json) : sum scan_error bool :=
  let is_list := match data with JList _ => true | _ => false end in
  let has_entries := json_truth data in
  if has_entries then
    match json_first data with
    | inl e => inl e
    | inr first =>
        let first_is_dict := match first with JObj _ => true | _ => false end in
        let has_symbol :=
          match first with
          | JObj l => existsb (fun kv => String.eqb (fst kv) "symbol") l
          | _ => false
          end in
        inr (is_list && has_entries && first_is_dict && has_symbol)
    end
  else inr false.

(** The scan of the sorted [*.json] files of the directory: each with
    its parsed content, [None] when opening or parsing it raises.  The first
    file that looks like the universe, if any. *)
Fixpoint scan_candidates (cands : list (string * option json))
  : sum scan_error (option string) :=
  match cands with
  | [] => inr None
  | (cand, None) :: rest => scan_candidates rest
  | (cand, Some data) :: rest =>
      match looks_like_universe data with
      | inl e => inl e
      | inr true => inr (Some cand)
      | inr false => scan_candidates rest
      end
  end.

(** The symbols file [main] settles on: the given path when it exists,
    else the sibling [univers_sample.json] when that exists, else what the
    scan of the directory finds ([None]: exit code 2). *)
Definition resolve_symbols_file (symbols_file : string) (file_exists : bool)
  (alt : string) (alt_exists : bool) (parent_exists : bool)
  (cands : list (string * option json)) : sum scan_error (option string) :=
  if file_exists then inr (Some symbols_file)
  else if alt_exists then inr (Some alt)
  else if parent_exists then scan_candidates cands
  else inr None.

End Ingest.

(** * Vocabulary of the further properties *)

(** A text of ASCII characters. *)
Definition ascii_text (s : string) : bool :=
  forallb (fun c => (nat_of_ascii c <? 128)%nat) (list_ascii_of_string s).

(** The rows of a file that was read: every field is ASCII text. *)
Definition ascii_rows (rows : list row) : Prop :=
  Forall (Forall (fun f => ascii_text f = true)) rows.

(** A value between two bounds; a missing value is not bound. *)
Definition within (lo hi : Q) (v : fval) : Prop :=
  match v with
  | Some x => (lo <= x <= hi)%Q
  | None => True
  end.

(** A number above zero. *)
Definition positive (v : fval) : Prop :=
  exists q, v = Some q /\ (0 < q)%Q.

(** The label of a row is a time stamp. *)
Definition has_timestamp (r : label * list cell) : Prop :=
  exists d, fst r = Timestamp d.

(** The closes of [sample_frame]. *)
Definition sample_closes : series :=
  map (fun z => Some (inject_Z z)) [44; 45; 43; 46; 47; 45; 48; 49; 47; 50; 51].

(** Twelve rows under [Date,Close,Volume]; the row of the 3rd has no
    volume and the row of the 5th has text for a date. *)
Definition gappy_frame : DataFrame :=
  mkDataFrame ["Date"; "Close"; "Volume"]%string
    [ (Timestamp (mkdate 2024 1 1), [CNum 10%Q; CNum 100%Q]);
      (Timestamp (mkdate 2024 1 2), [CNum 11%Q; CNum 100%Q]);
      (Timestamp (mkdate 2024 1 3), [CNum 12%Q; CNaN]);
      (Timestamp (mkdate 2024 1 4), [CNum 13%Q; CNum 100%Q]);
      (Label "n/a", [CNum 14%Q; CNum 100%Q]);
      (Timestamp (mkdate 2024 1 6), [CNum 15%Q; CNum 100%Q]);
      (Timestamp (mkdate 2024 1 7), [CNum 16%Q; CNum 100%Q]);
      (Timestamp (mkdate 2024 1 8), [CNum 17%Q; CNum 100%Q]);
      (Timestamp (mkdate 2024 1 9), [CNum 18%Q; CNum 100%Q]);
      (Timestamp (mkdate 2024 1 10), [CNum 19%Q; CNum 100%Q]);
      (Timestamp (mkdate 2024 1 11), [CNum 20%Q; CNum 100%Q]);
      (Timestamp (mkdate 2024 1 12), [CNum 21%Q; CNum 100%Q]) ].

(** The symbols listed under a sector name; none without the name. *)
Definition group_symbols (name : string) (sectors : dict sector_group) : list sym_obj :=
  match dict_get name sectors with
  | Some g => g_symbols g
  | None => []
  end.

(** What one entry of the universe brings to the heat map: nothing
    without its file or without a summary. *)
Definition entry_summary (float_of_str : string -> option Q)
  (csv_files : string -> option (list row)) (duration : string)
  (entry : universe_entry) : result (option sym_obj) :=
  match csv_files (str_of (e_symbol entry)) with
  | None => Ret None
  | Some rows =>
      latest <- read_latest_from_csv float_of_str (Some rows) duration ;;
      Ret (option_map
             (fun s => mkSymObj (e_symbol entry) (e_name entry) (cs_date s)
                         (cs_close s) (cs_change_pct s))
             latest)
  end.

(** The entries of a sector that bring a summary, in the order of the
    universe. *)
Fixpoint symbols_of_sector (float_of_str : string -> option Q)
  (csv_files : string -> option (list row)) (duration : string)
  (name : string) (universe : list universe_entry) : list sym_obj :=
  match universe with
  | [] => []
  | entry :: rest =>
      let others := symbols_of_sector float_of_str csv_files duration name rest in
      match entry_summary float_of_str csv_files duration entry with
      | Ret (Some o) =>
          if String.eqb (sector_of entry) name then o :: others else others
      | _ => others
      end
  end.

(** A small universe and its files. *)
Definition sample_universe : list universe_entry :=
  [ mkEntry (Some "AAA") (Some "Alpha") (Some "Tech");
    mkEntry (Some "BBB") (Some "Beta") None;
    mkEntry (Some "CCC") (Some "Gamma") (Some "Tech");
    mkEntry (Some "DDD") (Some "Delta") (Some "") ]%string.

Definition sample_files (stem : string) : option (list row) :=
  if String.eqb stem "AAA" then Some two_rows
  else if String.eqb stem "BBB" then Some bad_prev_rows
  else if String.eqb stem "CCC" then Some volume_rows
  else None.

(** The same universe with a file whose latest row has no date. *)
Definition broken_files (stem : string) : option (list row) :=
  if String.eqb stem "CCC" then Some bad_date_rows else sample_files stem.

(** The frames of a small directory: two symbols with a file, one of
    them too short. *)
Definition sample_frames (stem : string) : source :=
  if String.eqb stem "AAA" then Parsed sample_frame
  else if String.eqb stem "BBB" then Parsed five_row_frame
  else if String.eqb stem "ZZZ" then Parsed constant_frame
  else Missing.

(** A candidate file the directory scan passes over: it does not parse,
    or its content does not look like the universe. *)
Definition passed_over (cand : string * option Ingest.json) : Prop :=
  snd cand = None
  \/ exists data, snd cand = Some data /\ Ingest.looks_like_universe data = inr false.

(** The update the download loop reports for the symbol at index [i]. *)
Definition update_for (total i : nat) (sym : string) : Ingest.progress :=
  Ingest.mkProgress total (S i) (Some sym) "running".

(** * Checks of the model on given values *)

Example strptime_accepts_short_fields :
  strptime "2024-1-8" = Ret (mkdate 2024 1 8).
Proof. reflexivity. Qed.

Example strptime_rejects_no_calendar_day :
  strptime "2024-02-30" = Raise ValueError /\ strptime "20240108" = Raise ValueError.
Proof. split; reflexivity. Qed.

Example toordinal_of_first_and_last_day :
  toordinal (mkdate 1 1 1) = 1 /\ toordinal (mkdate 9999 12 31) = 3652059.
Proof. split; reflexivity. Qed.

Example minus_days_before_year_one :
  minus_days (mkdate 1 1 1) 1 = Raise OverflowError.
Proof. reflexivity. Qed.

Example unknown_duration_is_one_day :
  duration_days "2w" = 1.
Proof. reflexivity. Qed.

Example ewm_over_a_gap :
  ewm (1 # 2) [Some 1%Q; None; Some 3%Q]
  = [Some 1%Q; Some 1%Q; Some ((1 * (1 - (1 # 2)) * (1 - (1 # 2)) * 1 + (1 # 2) * 3)
                               / (1 * (1 - (1 # 2)) * (1 - (1 # 2)) + (1 # 2)))%Q]
  /\ ((1 * (1 - (1 # 2)) * (1 - (1 # 2)) * 1 + (1 # 2) * 3)
      / (1 * (1 - (1 # 2)) * (1 - (1 # 2)) + (1 # 2)) == 7 # 3)%Q.
Proof. split; reflexivity. Qed.

Example malformed_inner_row_is_skipped :
  matched_row [ ["2024-01-01"; "100"]; ["2024/01/07"; "105"]; ["2024-01-08"; "110"] ]%string
    "1d"
  = Ret (Some ["2024-01-08"; "110"]%string).
Proof. reflexivity. Qed.

(** * Properties of the horizon matcher *)

Lemma strptime_raises_value_error (s : string) (e : exn) :
  strptime s = Raise e -> e = ValueError.
Proof.
  unfold strptime.
  destruct (parse_ymd (list_ascii_of_string s)) as [d|]; [destruct (valid_date d)|];
    congruence.
Qed.

Lemma scan_step_pure (target : Z) (st : scan_state) (r : row) :
  r <> [] ->
  scan_step target st r =
  Ret (match row_ordinal r with
       | Some o => better st r (Z.abs (o - target))
       | None => st
       end).
Proof.
  destruct r as [|f r]; [congruence|]. intros _.
  unfold scan_step, row_ordinal, better. cbn [getitem nth_error bind].
  destruct (strptime f) as [d|e] eqn:E; cbn.
  - destruct (snd st) as [pd|]; [destruct (_ <? pd)|]; reflexivity.
  - apply strptime_raises_value_error in E. subst e. reflexivity.
Qed.

Lemma scan_app (target : Z) (a b : list row) (st : scan_state) :
  scan target (a ++ b) st = (st' <- scan target a st ;; scan target b st').
Proof.
  revert st. induction a as [|r a IH]; intros st; cbn; [reflexivity|].
  destruct (scan_step target st r) as [st'|e]; cbn; [apply IH | reflexivity].
Qed.

Lemma selected_snoc (target : Z) (rows : list row) (st : scan_state) (r : row) :
  selected target rows st ->
  selected target (rows ++ [r])
    (match row_ordinal r with
     | Some o => better st r (Z.abs (o - target))
     | None => st
     end).
Proof.
  intros [[-> Hnone] | (pre & m & post & o & -> & Hm & -> & Hpre & Hpost)].
  - destruct (row_ordinal r) as [o|] eqn:E.
    + right. exists rows, r, [], o. cbn. repeat split; auto.
      * intros r' o' Hin Hr'. rewrite (Hnone _ Hin) in Hr'. discriminate.
      * intros r' o' [].
    + left. split; [reflexivity|].
      intros r' Hin. apply in_app_or in Hin as [Hin | [<- | []]]; auto.
  - destruct (row_ordinal r) as [o'|] eqn:E.
    + unfold better. cbn [snd].
      destruct (Z.ltb_spec (Z.abs (o' - target)) (Z.abs (o - target))) as [Hlt|Hge].
      * right. exists (pre ++ m :: post), r, [], o'.
        repeat split; auto.
        -- intros r' o'' Hin Hr'.
           apply in_app_or in Hin as [Hin | [<- | Hin]].
           ++ specialize (Hpre _ _ Hin Hr'). lia.
           ++ rewrite Hm in Hr'. injection Hr' as <-. lia.
           ++ specialize (Hpost _ _ Hin Hr'). lia.
        -- intros r' o'' [].
      * right. exists pre, m, (post ++ [r]), o.
        rewrite <- app_assoc. cbn. repeat split; auto.
        intros r' o'' Hin Hr'.
        apply in_app_or in Hin as [Hin | [<- | []]]; [eauto|].
        rewrite E in Hr'. injection Hr' as <-. lia.
    + right. exists pre, m, (post ++ [r]), o.
      rewrite <- app_assoc. cbn. repeat split; auto.
      intros r' o'' Hin Hr'.
      apply in_app_or in Hin as [Hin | [<- | []]]; [eauto|].
      rewrite E in Hr'. discriminate.
Qed.

(** The scan never raises on rows that have a first field, and settles
    on the first row at the least distance. *)
Lemma scan_selected (target : Z) (rows : list row) :
  Forall (fun r => r <> []) rows ->
  exists st, scan target rows (None, None) = Ret st /\ selected target rows st.
Proof.
  induction rows as [|r rows IH] using rev_ind; intros Hne.
  - exists (None, None). split; [reflexivity|]. left. split; [reflexivity|].
    intros r [].
  - apply Forall_app in Hne as [Hrows Hr]. inversion Hr as [|? ? Hr' _]; subst.
    destruct (IH Hrows) as (st & Hscan & Hsel).
    rewrite scan_app, Hscan. cbn. rewrite scan_step_pure by assumption. cbn.
    eexists. split; [reflexivity|]. apply selected_snoc. assumption.
Qed.

Lemma data_rows_nonempty (rows : list row) :
  Forall (fun r => r <> []) (data_rows_of rows).
Proof.
  apply Forall_forall. intros r Hin.
  apply filter_In in Hin as [_ Hdata]. destruct r; [discriminate | congruence].
Qed.

Lemma last_cons_default (r d : row) (rows : list row) :
  last (r :: rows) d = last rows r.
Proof.
  revert r d. induction rows as [|x rows IH]; intros r d; [reflexivity|].
  change (last (r :: x :: rows) d) with (last (x :: rows) d).
  rewrite (IH x d), (IH x r). reflexivity.
Qed.

Lemma last_row_in (rows : list row) (l : row) :
  last_row rows = Some l -> exists pre, rows = pre ++ [l].
Proof.
  destruct rows as [|r rows]; [discriminate|]. cbn. intros [= <-].
  exists (removelast (r :: rows)).
  rewrite <- (last_cons_default r r rows).
  apply app_removelast_last. discriminate.
Qed.

Lemma days_before_month_aux_nonneg (y : Z) (n : nat) :
  0 <= days_before_month_aux y n.
Proof.
  induction n as [|n IH]; cbn [days_before_month_aux]; [lia|].
  assert (28 <= days_in_month y (Z.of_nat (S n))).
  { unfold days_in_month.
    destruct (_ =? 2); [destruct (is_leap y); lia|].
    destruct (_ || _); lia. }
  lia.
Qed.

Lemma toordinal_positive (d : date) :
  valid_date d = true -> 1 <= toordinal d.
Proof.
  unfold valid_date, toordinal, days_before_year, days_before_month.
  intros H. repeat (apply andb_prop in H as [H ?]).
  pose proof (days_before_month_aux_nonneg (year d) (Z.to_nat (month d - 1))).
  assert (0 <= (year d - 1) / 4 - (year d - 1) / 100) by (Z.div_mod_to_equations; lia).
  assert (0 <= (year d - 1) / 400) by (Z.div_mod_to_equations; lia).
  lia.
Qed.

Lemma strptime_valid (s : string) (d : date) :
  strptime s = Ret d -> valid_date d = true.
Proof.
  unfold strptime.
  destruct (parse_ymd (list_ascii_of_string s)) as [d'|]; [|discriminate].
  destruct (valid_date d') eqn:E; [|discriminate]. intros [= <-]. exact E.
Qed.

Lemma target_of_inv (l : row) (duration : string) (target : Z) :
  target_of l duration = Ret target ->
  exists o, row_ordinal l = Some o /\ target = o - duration_days duration.
Proof.
  unfold target_of, row_ordinal. destruct l as [|f l]; [discriminate|].
  cbn [getitem nth_error bind].
  destruct (strptime f) as [d|e]; [|discriminate]. cbn [bind].
  unfold minus_days. destruct (1 <=? _); [|discriminate].
  intros [= <-]. eauto.
Qed.

(** With a latest row whose date gives a target, the scan ends on a row. *)
Lemma matched_row_selected (rows : list row) (duration : string) (l : row) (target : Z) :
  last_row (data_rows_of rows) = Some l ->
  target_of l duration = Ret target ->
  exists pre m post o,
    scan target (data_rows_of rows) (None, None) = Ret (Some m, Some (Z.abs (o - target)))
    /\ matched_row rows duration = Ret (Some m)
    /\ data_rows_of rows = pre ++ m :: post
    /\ row_ordinal m = Some o
    /\ (forall r o', In r pre -> row_ordinal r = Some o' ->
                     Z.abs (o - target) < Z.abs (o' - target))
    /\ (forall r o', In r post -> row_ordinal r = Some o' ->
                     Z.abs (o - target) <= Z.abs (o' - target)).
Proof.
  intros Hlast Htarget.
  destruct (scan_selected target (data_rows_of rows) (data_rows_nonempty rows))
    as (st & Hscan & Hsel).
  destruct (target_of_inv _ _ _ Htarget) as (ol & Hol & _).
  destruct (last_row_in _ _ Hlast) as (pre0 & Hpre0).
  destruct Hsel as [[_ Hnone] | (pre & m & post & o & Hrows & Hm & -> & Hpre & Hpost)].
  - assert (Hin : In l (data_rows_of rows)).
    { rewrite Hpre0. apply in_or_app. right. left. reflexivity. }
    rewrite (Hnone _ Hin) in Hol. discriminate.
  - exists pre, m, post, o. repeat split; auto.
    unfold matched_row. rewrite Hlast, Htarget. cbn [bind].
    rewrite Hscan. reflexivity.
Qed.

Lemma ordinals_app (a b : list row) :
  ordinals (a ++ b) = ordinals a ++ ordinals b.
Proof.
  induction a as [|r a IH]; cbn; [reflexivity|].
  destruct (row_ordinal r); cbn; rewrite IH; reflexivity.
Qed.

Lemma ordinals_in (rows : list row) (r : row) (o : Z) :
  In r rows -> row_ordinal r = Some o -> In o (ordinals rows).
Proof.
  induction rows as [|x rows IH]; cbn; [tauto|].
  intros [-> | Hin] Hr.
  - rewrite Hr. left. reflexivity.
  - destruct (row_ordinal x); [right|]; auto.
Qed.

Lemma ascending_after (pre post : list row) (m r : row) (om o : Z) :
  ascending (pre ++ m :: post) ->
  row_ordinal m = Some om -> In r post -> row_ordinal r = Some o -> om <= o.
Proof.
  unfold ascending. rewrite ordinals_app. cbn. intros Hs Hm Hin Hr. rewrite Hm in Hs.
  assert (Hs' : StronglySorted Z.le (om :: ordinals post)).
  { clear -Hs. induction (ordinals pre) as [|x l IH]; [exact Hs|].
    inversion Hs; auto. }
  inversion Hs' as [|? ? _ Hall]; subst.
  rewrite Forall_forall in Hall. apply Hall. eapply ordinals_in; eauto.
Qed.

Section MatcherFacts.

Variable float_of_str : string -> option Q.

Lemma prev_close_of_some (m : row) :
  prev_close_of float_of_str (Some m) = Ret (close_or_none float_of_str m).
Proof.
  unfold prev_close_of, close_or_none.
  destruct (close_field float_of_str m); reflexivity.
Qed.

Lemma latest_close_returns (l : row) :
  exists oc, latest_close float_of_str l = Ret oc.
Proof.
  unfold latest_close.
  destruct (close_field float_of_str l) as [c|e]; cbn; [eauto|].
  destruct (getitem l 1) as [x|e']; cbn; [|eauto].
  destruct (float_str float_of_str x); cbn; eauto.
Qed.

Lemma latest_close_of_field (l : row) (c : Q) :
  close_field float_of_str l = Ret c ->
  latest_close float_of_str l = Ret (Some c).
Proof. unfold latest_close. intros ->. reflexivity. Qed.

(** The function past the scan, once the latest row and the matched
    row are known. *)
Lemma read_latest_unfold (rows : list row) (duration : string)
  (l m : row) (target : Z) (dm : option Z) :
  last_row (data_rows_of rows) = Some l ->
  target_of l duration = Ret target ->
  scan target (data_rows_of rows) (None, None) = Ret (Some m, dm) ->
  read_latest_from_csv float_of_str (Some rows) duration =
  match latest_close float_of_str l with
  | Ret (Some close) =>
      Ret (Some (mkChangeSummary (hd EmptyString l) close (close_or_none float_of_str m)
                   (change_pct_of close (close_or_none float_of_str m))))
  | Ret None => Ret None
  | Raise e => Raise e
  end.
Proof.
  intros Hlast Htarget Hscan.
  unfold read_latest_from_csv. rewrite Hlast, Htarget. cbn [bind].
  rewrite Hscan. cbn [bind fst].
  destruct (latest_close float_of_str l) as [[close|]|e]; cbn [bind]; try reflexivity.
  rewrite prev_close_of_some. cbn [bind].
  destruct l as [|f l]; [discriminate|]. reflexivity.
Qed.

(** A returned summary comes from a latest row with a target date. *)
Lemma read_latest_some_inv (rows : list row) (duration : string) (s : ChangeSummary) :
  read_latest_from_csv float_of_str (Some rows) duration = Ret (Some s) ->
  exists l target,
    last_row (data_rows_of rows) = Some l /\ target_of l duration = Ret target.
Proof.
  unfold read_latest_from_csv.
  destruct (last_row (data_rows_of rows)) as [l|]; [|discriminate].
  destruct (target_of l duration) as [target|e] eqn:Ht; [|discriminate].
  intros _. exists l, target. split; [reflexivity | exact Ht].
Qed.

End MatcherFacts.

Lemma row_ordinal_positive (r : row) (o : Z) :
  row_ordinal r = Some o -> 1 <= o.
Proof.
  unfold row_ordinal. destruct r as [|f r]; [discriminate|].
  destruct (strptime f) as [d|e] eqn:E; [|discriminate].
  intros [= <-]. apply toordinal_positive. eapply strptime_valid; eassumption.
Qed.

Lemma target_of_ordinal (l : row) (duration : string) (o : Z) :
  row_ordinal l = Some o ->
  1 <= o - duration_days duration ->
  target_of l duration = Ret (o - duration_days duration).
Proof.
  unfold row_ordinal, target_of. destruct l as [|f l]; [discriminate|].
  cbn [getitem nth_error bind].
  destruct (strptime f) as [d|e]; [|discriminate]. intros [= <-] Hpos.
  cbn [bind]. unfold minus_days.
  destruct (Z.leb_spec 1 (toordinal d - duration_days duration)); [reflexivity | lia].
Qed.

(** C6. When the file has a row dated exactly seven days before its
    latest row, the horizon "1w" matches a row at day-distance 0 from the
    target, and that very row when no other row carries its date; on the
    series (2024-01-01, 100), (2024-01-08, 110) the matched row is the one
    of 2024-01-01 and the change is 10 percent, as a rational and as the
    binary64 value 10.0. *)
Theorem horizon_1w_matches_exact_row :
  (forall (rows : list row) (l r : row) (ol : Z),
      last_row (data_rows_of rows) = Some l ->
      row_ordinal l = Some ol ->
      In r (data_rows_of rows) ->
      row_ordinal r = Some (ol - 7) ->
      exists m,
        matched_row rows "1w" = Ret (Some m)
        /\ row_ordinal m = Some (ol - 7)
        /\ ((forall r', In r' (data_rows_of rows) ->
                        row_ordinal r' = Some (ol - 7) -> r' = r) -> m = r))
  /\ matched_row two_rows "1w" = Ret (Some ["2024-01-01"; "100"]%string)
  /\ exists s v,
      read_latest_from_csv float_of_decimal (Some two_rows) "1w" = Ret (Some s)
      /\ cs_date s = "2024-01-08"%string
      /\ cs_prev_close s = Some 100%Q
      /\ cs_change_pct s = Some v /\ (v == 10)%Q
      /\ change_pct_binary64 110 100 = 10%float.
Proof.
  split; [|split].
  - intros rows l r ol Hlast Hl Hin Hr.
    pose proof (row_ordinal_positive _ _ Hr) as Hpos.
    assert (Htarget : target_of l "1w" = Ret (ol - 7)).
    { apply (target_of_ordinal l "1w" ol Hl). exact Hpos. }
    destruct (matched_row_selected rows "1w" l (ol - 7) Hlast Htarget)
      as (pre & m & post & o & _ & Hmatch & Hrows & Hm & Hpre & Hpost).
    assert (Hdist : Z.abs (o - (ol - 7)) <= 0).
    { rewrite Hrows in Hin. apply in_app_or in Hin as [Hin | [<- | Hin]].
      - specialize (Hpre _ _ Hin Hr). lia.
      - rewrite Hm in Hr. injection Hr as ->. lia.
      - specialize (Hpost _ _ Hin Hr). lia. }
    assert (o = ol - 7) by lia. subst o.
    exists m. repeat split; auto.
    intros Huniq. apply Huniq; [|exact Hm].
    rewrite Hrows. apply in_or_app. right. left. reflexivity.
  - reflexivity.
  - eexists. eexists. vm_compute.
    repeat split; reflexivity.
Qed.

Lemma horizon_1w_matches_exact_row_witness :
  exists m,
    matched_row two_rows "1w" = Ret (Some m)
    /\ row_ordinal m = Some (738893 - 7)
    /\ ((forall r', In r' (data_rows_of two_rows) ->
                    row_ordinal r' = Some (738893 - 7) ->
                    r' = ["2024-01-01"; "100"]%string)
        -> m = ["2024-01-01"; "100"]%string).
Proof.
  apply (proj1 horizon_1w_matches_exact_row two_rows
           ["2024-01-08"; "110"]%string ["2024-01-01"; "100"]%string 738893).
  - reflexivity.
  - reflexivity.
  - vm_compute. left. reflexivity.
  - reflexivity.
Defined.

(** C7. The matched row is at the least day-distance from the target
    among the rows that carry a date, every row before it in the file is
    strictly farther, and in a file ordered ascending by date no row at the
    same distance is dated earlier. *)
Theorem matcher_earliest_of_nearest :
  forall (rows : list row) (duration : string) (l : row) (target : Z),
    last_row (data_rows_of rows) = Some l ->
    target_of l duration = Ret target ->
    exists pre m post om,
      matched_row rows duration = Ret (Some m)
      /\ data_rows_of rows = pre ++ m :: post
      /\ row_ordinal m = Some om
      /\ (forall r o, In r (data_rows_of rows) -> row_ordinal r = Some o ->
                      Z.abs (om - target) <= Z.abs (o - target))
      /\ (forall r o, In r pre -> row_ordinal r = Some o ->
                      Z.abs (om - target) < Z.abs (o - target))
      /\ (ascending (data_rows_of rows) ->
          forall r o, In r (data_rows_of rows) -> row_ordinal r = Some o ->
                      Z.abs (o - target) = Z.abs (om - target) -> om <= o).
Proof.
  intros rows duration l target Hlast Htarget.
  destruct (matched_row_selected rows duration l target Hlast Htarget)
    as (pre & m & post & om & _ & Hmatch & Hrows & Hm & Hpre & Hpost).
  exists pre, m, post, om. repeat split; auto.
  - intros r o Hin Hr. rewrite Hrows in Hin.
    apply in_app_or in Hin as [Hin | [<- | Hin]].
    + specialize (Hpre _ _ Hin Hr). lia.
    + rewrite Hm in Hr. injection Hr as ->. lia.
    + exact (Hpost _ _ Hin Hr).
  - intros Hasc r o Hin Hr Heq. rewrite Hrows in Hin, Hasc.
    apply in_app_or in Hin as [Hin | [<- | Hin]].
    + specialize (Hpre _ _ Hin Hr). lia.
    + rewrite Hm in Hr. injection Hr as ->. lia.
    + eapply ascending_after; eauto.
Qed.

Lemma matcher_earliest_of_nearest_witness :
  exists pre m post om,
    matched_row tie_rows "1d" = Ret (Some m)
    /\ data_rows_of tie_rows = pre ++ m :: post
    /\ row_ordinal m = Some om
    /\ (forall r o, In r (data_rows_of tie_rows) -> row_ordinal r = Some o ->
                    Z.abs (om - 738888) <= Z.abs (o - 738888))
    /\ (forall r o, In r pre -> row_ordinal r = Some o ->
                    Z.abs (om - 738888) < Z.abs (o - 738888))
    /\ (ascending (data_rows_of tie_rows) ->
        forall r o, In r (data_rows_of tie_rows) -> row_ordinal r = Some o ->
                    Z.abs (o - 738888) = Z.abs (om - 738888) -> om <= o).
Proof.
  apply (matcher_earliest_of_nearest tie_rows "1d" ["2024-01-04"; "110"]%string 738888).
  - reflexivity.
  - reflexivity.
Defined.

Example tie_goes_to_the_earlier_row :
  matched_row tie_rows "1d" = Ret (Some ["2024-01-02"; "90"]%string).
Proof. reflexivity. Qed.



(** C10, as the code has it.  Take a file with exactly one data row
    whose date gives a target.  When the close of the row, read as the
    source first reads it (the third field if present and not empty, else
    the second), parses to a number that is not zero, the row is matched
    against itself: the summary is present, [prev_close] is that close and
    [change_pct] is zero, for every horizon.  When that reading fails and
    the close comes from the second field in the fallback, the summary is
    present with that close, and [prev_close] and [change_pct] are absent. *)
Theorem single_row_matches_itself :
  forall (float_of_str : string -> option Q) (rows : list row) (duration : string)
         (r : row) (target : Z),
    data_rows_of rows = [r] ->
    target_of r duration = Ret target ->
    (forall c,
        close_field float_of_str r = Ret c ->
        ~ (c == 0)%Q ->
        exists s v,
          read_latest_from_csv float_of_str (Some rows) duration = Ret (Some s)
          /\ matched_row rows duration = Ret (Some r)
          /\ cs_close s = c
          /\ cs_prev_close s = Some c
          /\ cs_change_pct s = Some v /\ (v == 0)%Q)
    /\ (forall y c,
           raises (close_field float_of_str r) ->
           nth_error r 1 = Some y ->
           float_of_str y = Some c ->
           exists s,
             read_latest_from_csv float_of_str (Some rows) duration = Ret (Some s)
             /\ matched_row rows duration = Ret (Some r)
             /\ cs_close s = c
             /\ cs_prev_close s = None
             /\ cs_change_pct s = None).
Proof.
  intros fos rows duration r target Hrows Htarget.
  assert (Hlast : last_row (data_rows_of rows) = Some r) by (rewrite Hrows; reflexivity).
  destruct (matched_row_selected rows duration r target Hlast Htarget)
    as (pre & m & post & om & Hscan & Hmatch & Hdec & _).
  assert (m = r).
  { rewrite Hrows in Hdec. destruct pre as [|x pre].
    - injection Hdec as ->. reflexivity.
    - injection Hdec as _ Hdec. destruct pre; discriminate. }
  subst m. split.
  - intros c Hclose Hnz.
    exists (mkChangeSummary (hd EmptyString r) c (Some c) (Some ((c - c) / c * 100)%Q)).
    exists ((c - c) / c * 100)%Q.
    rewrite (read_latest_unfold fos rows duration r r target _ Hlast Htarget Hscan).
    rewrite (latest_close_of_field fos r c Hclose).
    unfold close_or_none, change_pct_of. rewrite Hclose.
    destruct (Qeq_bool c 0) eqn:E; [apply Qeq_bool_iff in E; contradiction|].
    cbn. repeat split; auto.
    field. exact Hnz.
  - intros y c [e He] Hy Hfy.
    exists (mkChangeSummary (hd EmptyString r) c None None).
    rewrite (read_latest_unfold fos rows duration r r target _ Hlast Htarget Hscan).
    assert (Hl : latest_close fos r = Ret (Some c)).
    { unfold latest_close. rewrite He. cbn [bind catch_all].
      unfold getitem, float_str. rewrite Hy. cbn [bind]. rewrite Hfy. reflexivity. }
    rewrite Hl. unfold close_or_none, change_pct_of. rewrite He.
    repeat split; auto.
Qed.

Lemma single_row_matches_itself_witness :
  exists s v,
    read_latest_from_csv float_of_decimal (Some one_row) "1y" = Ret (Some s)
    /\ matched_row one_row "1y" = Ret (Some ["2024-01-08"; "110"]%string)
    /\ cs_close s = 110%Q
    /\ cs_prev_close s = Some 110%Q
    /\ cs_change_pct s = Some v /\ (v == 0)%Q.
Proof.
  apply (proj1 (single_row_matches_itself float_of_decimal one_row "1y"
                  ["2024-01-08"; "110"]%string 738528
                  ltac:(reflexivity) ltac:(reflexivity)) 110%Q).
  - reflexivity.
  - intros H. vm_compute in H. discriminate.
Defined.

(** C10, as claimed, fails.  A single data row whose close is 110 in
    the second field and whose third field is text gives a summary with the
    close 110 and no [prev_close] and no [change_pct]; a single data row
    with a date that is no YYYY-MM-DD date raises; and for a close that
    [float] reads as infinity the guard lets the division through and the
    change is NaN, not zero. *)
Lemma single_row_without_self_match :
  (data_rows_of noted_row = [ ["2024-01-08"; "110"; "abc"]%string ]
   /\ exists s,
       read_latest_from_csv float_of_decimal (Some noted_row) "1d" = Ret (Some s)
       /\ cs_close s = 110%Q
       /\ cs_prev_close s = None
       /\ cs_change_pct s = None)
  /\ (data_rows_of slash_row = [ ["2024/01/08"; "110"]%string ]
      /\ read_latest_from_csv float_of_decimal (Some slash_row) "1d"
         = Raise ValueError)
  /\ (PrimFloat.eqb infinity 0 = false
      /\ PrimFloat.is_nan (change_pct_binary64 infinity infinity) = true).
Proof.
  split; [|split].
  - split; [reflexivity|]. eexists. split; [vm_compute; reflexivity|].
    repeat split; reflexivity.
  - split; reflexivity.
  - split; reflexivity.
Qed.

(** * Properties of the indicator engine *)

(** ** Shapes of the Series *)

Lemma ewm_from_length (alpha : Q) (l : series) :
  forall weighted old_wt, List.length (ewm_from alpha weighted old_wt l) = List.length l.
Proof.
  induction l as [|cur l IH]; intros weighted old_wt; cbn; [reflexivity|].
  destruct weighted as [w|]; [destruct cur as [c|]|]; cbn; rewrite IH; reflexivity.
Qed.

Lemma ewm_length (alpha : Q) (l : series) :
  List.length (ewm alpha l) = List.length l.
Proof. destruct l; cbn; [|rewrite ewm_from_length]; reflexivity. Qed.

Lemma zip_with_length (f : fval -> fval -> fval) (a b : series) :
  List.length a = List.length b -> List.length (zip_with f a b) = List.length a.
Proof.
  revert b. induction a as [|x a IH]; intros [|y b]; cbn; try congruence.
  intros [= H]. rewrite IH; auto.
Qed.

Lemma diff_from_length (l : series) :
  forall before, List.length (diff_from before l) = List.length l.
Proof. induction l as [|x l IH]; intros before; cbn; [|rewrite IH]; reflexivity. Qed.

Lemma diff_length (l : series) : List.length (diff l) = List.length l.
Proof. destruct l; cbn; [|rewrite diff_from_length]; reflexivity. Qed.

Lemma macd_series_length (close : series) :
  List.length (macd_series close) = List.length close.
Proof.
  unfold macd_series, ewm_span.
  rewrite zip_with_length; rewrite !ewm_length; reflexivity.
Qed.

Lemma macd_hist_series_length (close : series) :
  List.length (macd_hist_series close) = List.length close.
Proof.
  unfold macd_hist_series, signal_series, ewm_span.
  rewrite zip_with_length; [apply macd_series_length|].
  rewrite ewm_length. reflexivity.
Qed.

Lemma rsi_series_length (close : series) :
  List.length (rsi_series close) = List.length close.
Proof.
  unfold rsi_series, avg_gain_series, avg_loss_series, gain_series, loss_series,
    replace_zero_na, neg, clip_lower0, clip_upper0.
  rewrite length_map, zip_with_length;
    rewrite ?length_map, !ewm_length, !length_map, ?length_map, !diff_length;
    reflexivity.
Qed.

Lemma mapM_length {A B : Type} (f : A -> result B) (l : list A) (bs : list B) :
  mapM f l = Ret bs -> List.length bs = List.length l.
Proof.
  revert bs. induction l as [|a l IH]; intros bs; cbn.
  - intros [= <-]. reflexivity.
  - destruct (f a) as [b|e]; [|discriminate]. cbn.
    destruct (mapM f l) as [bs'|e]; [|discriminate]. cbn.
    intros [= <-]. cbn. rewrite (IH bs'); reflexivity.
Qed.

(** [s.iloc[-k]] is an element of the Series, and is there when the
    Series has [k] elements. *)
Lemma iloc_back_in (l : series) (k : nat) (v : fval) :
  iloc_back l k = Ret v -> In v l.
Proof.
  unfold iloc_back, getitem.
  destruct (nth_error (rev l) (k - 1)) as [x|] eqn:E; [|discriminate].
  intros [= <-]. apply in_rev. eapply nth_error_In. eassumption.
Qed.

Lemma iloc_back_some (l : series) (k : nat) :
  (1 <= k <= List.length l)%nat -> exists v, iloc_back l k = Ret v.
Proof.
  intros Hk. unfold iloc_back, getitem.
  destruct (nth_error (rev l) (k - 1)) as [x|] eqn:E; [eauto|].
  apply nth_error_None in E. rewrite length_rev in E. lia.
Qed.

Lemma iloc_back_snoc (l : series) (v : fval) : iloc_back (l ++ [v]) 1 = Ret v.
Proof. unfold iloc_back. rewrite rev_app_distr. reflexivity. Qed.

Lemma iloc_back_snoc2 (l : series) (u v : fval) : iloc_back (l ++ [u; v]) 2 = Ret u.
Proof. unfold iloc_back. rewrite rev_app_distr. reflexivity. Qed.

Lemma two_last (l : series) :
  (2 <= List.length l)%nat -> exists h u v, l = h ++ [u; v].
Proof.
  intros Hlen.
  destruct (rev l) as [|v [|u t]] eqn:E.
  - apply (f_equal (@List.length _)) in E. rewrite length_rev in E. cbn in E. lia.
  - apply (f_equal (@List.length _)) in E. rewrite length_rev in E. cbn in E. lia.
  - exists (rev t), u, v. rewrite <- (rev_involutive l), E. cbn.
    rewrite <- app_assoc. reflexivity.
Qed.

(** ** The crossover classification *)

Lemma fleb_spec (a b : fval) : fleb a b = true <-> fle a b.
Proof.
  destruct a as [x|], b as [y|]; cbn; try (split; [discriminate | tauto]).
  apply Qle_bool_iff.
Qed.

Lemma fltb_spec (a b : fval) : fltb a b = true <-> flt a b.
Proof.
  destruct a as [x|], b as [y|]; cbn; try (split; [discriminate | tauto]).
  rewrite andb_true_iff, negb_true_iff, Qle_bool_iff.
  split.
  - intros [Hle Hne]. apply Qle_lteq in Hle as [Hlt | Heq]; [exact Hlt|].
    apply Qeq_bool_iff in Heq. congruence.
  - intros Hlt. split; [apply Qlt_le_weak; exact Hlt|].
    destruct (Qeq_bool x y) eqn:E; [|reflexivity].
    apply Qeq_bool_iff in E. rewrite E in Hlt. exfalso. eapply Qlt_irrefl; eauto.
Qed.

Lemma flt_asym (a b : fval) : flt a b -> flt b a -> False.
Proof.
  destruct a as [x|], b as [y|]; cbn; try tauto. intros H1 H2. lra.
Qed.

Lemma macd_crossover_last_two (h : series) (prev curr : fval) :
  macd_crossover (h ++ [prev; curr]) =
  Ret (if fleb prev fzero && fltb fzero curr then bullish
       else if fleb fzero prev && fltb curr fzero then bearish
       else neutral).
Proof.
  unfold macd_crossover.
  rewrite length_app. cbn [List.length].
  replace (2 <=? List.length h + 2)%nat with true
    by (symmetry; apply Nat.leb_le; lia).
  rewrite iloc_back_snoc2.
  change (h ++ [prev; curr]) with (h ++ [prev] ++ [curr]).
  rewrite app_assoc, iloc_back_snoc. cbn [bind].
  destruct (_ && _); [reflexivity|]. destruct (_ && _); reflexivity.
Qed.

(** ** The snapshot and the Series it is read from *)

(** Runs the first computation of a chain of binds: its value goes on,
    its exception ends a goal about a returned value. *)
Ltac step_bind :=
  match goal with
  | |- context [bind ?c _] =>
      match c with
      | bind _ _ => fail 1
      | _ => destruct c eqn:?; cbn [bind]; [|discriminate]
      end
  end.

Section SnapshotFacts.

Variable float_of_str : string -> option Q.
Variable int_of_str : string -> option Z.

Lemma close_series_length (df : DataFrame) (close : series) :
  close_series float_of_str df = Ret close -> List.length close = List.length (df_rows df).
Proof.
  unfold close_series.
  destruct (getitem (df_columns df) 0); [|discriminate]. cbn [bind].
  destruct (resolve_close_col _) as [cc|]; [|discriminate]. cbn [bind].
  intros H. apply mapM_length in H. rewrite H. unfold column. apply length_map.
Qed.

(** What a returned snapshot holds. *)
Lemma compute_indicators_inv (df : DataFrame) (snap : Snapshot) :
  compute_indicators float_of_str int_of_str df = Ret (Some snap) ->
  exists close,
    close_series float_of_str df = Ret close
    /\ (10 <= List.length (df_rows df))%nat
    /\ iloc_back close 1 = Ret (snap_latest_close snap)
    /\ iloc_back (rsi_series close) 1 = Ret (snap_rsi snap)
    /\ iloc_back (macd_hist_series close) 1 = Ret (snap_macd_hist snap)
    /\ macd_crossover (macd_hist_series close) = Ret (snap_macd_crossover snap)
    /\ pct_dist (snap_latest_close snap) (ewm_span 21 close) = Ret (snap_dist_21 snap)
    /\ above (snap_latest_close snap) (ewm_span 21 close) = Ret (snap_above_21 snap).
Proof.
  unfold compute_indicators, close_series, last_or_none.
  destruct (Nat.ltb_spec (List.length (df_rows df)) 10); [discriminate|].
  destruct (getitem (df_columns df) 0); [|discriminate]. cbn [bind].
  destruct (resolve_close_col _) as [cc|]; [|discriminate]. cbn [bind].
  destruct (astype_float _ _) as [close|]; [|discriminate]. cbn [bind].
  repeat step_bind.
  intros [= <-]. cbn. exists close. repeat split; auto.
Qed.

(** With ten rows or more and a close column that coerces, a snapshot
    is returned. *)
Lemma compute_indicators_returns (df : DataFrame) (close : series) :
  (10 <= List.length (df_rows df))%nat ->
  close_series float_of_str df = Ret close ->
  exists snap, compute_indicators float_of_str int_of_str df = Ret (Some snap).
Proof.
  intros Hlen Hclose. pose proof (close_series_length df close Hclose) as Hcl.
  revert Hclose. unfold compute_indicators, close_series, last_or_none.
  destruct (Nat.ltb_spec (List.length (df_rows df)) 10); [lia|].
  destruct (getitem (df_columns df) 0); [|discriminate]. cbn [bind].
  destruct (resolve_close_col _) as [cc|]; [|discriminate]. cbn [bind].
  intros ->. cbn [bind].
  destruct (two_last (macd_hist_series close)) as (h & u & v & Hh).
  { rewrite macd_hist_series_length. lia. }
  pose proof (macd_crossover_last_two h u v) as Hc. rewrite <- Hh in Hc.
  cbv zeta. rewrite Hc. cbn [bind].
  destruct (iloc_back_some close 1) as (lc & ->); [lia|]. cbn [bind].
  unfold above, pct_dist.
  destruct (iloc_back_some (ewm_span 21 close) 1) as (e21 & ->);
    [unfold ewm_span; rewrite ewm_length; lia|].
  destruct (iloc_back_some (ewm_span 44 close) 1) as (e44 & ->);
    [unfold ewm_span; rewrite ewm_length; lia|].
  destruct (iloc_back_some (ewm_span 200 close) 1) as (e200 & ->);
    [unfold ewm_span; rewrite ewm_length; lia|].
  destruct (iloc_back_some (rsi_series close) 1) as (r & ->);
    [rewrite rsi_series_length; lia|].
  destruct (iloc_back_some (macd_series close) 1) as (m & ->);
    [rewrite macd_series_length; lia|].
  destruct (iloc_back_some (signal_series close) 1) as (sg & ->);
    [unfold signal_series, ewm_span; rewrite ewm_length, macd_series_length; lia|].
  destruct (iloc_back_some (macd_hist_series close) 1) as (hl & ->);
    [rewrite macd_hist_series_length; lia|].
  cbn [bind].
  destruct e21 as [q21|]; cbn [bind]; [destruct (Qeq_bool q21 0)|];
    (destruct e44 as [q44|]; cbn [bind]; [destruct (Qeq_bool q44 0)|]);
    (destruct e200 as [q200|]; cbn [bind]; [destruct (Qeq_bool q200 0)|]);
    cbn [bind]; eauto.
Qed.

(** Ten rows or more never give the absent result. *)
Lemma compute_indicators_not_none (df : DataFrame) :
  (10 <= List.length (df_rows df))%nat ->
  compute_indicators float_of_str int_of_str df <> Ret None.
Proof.
  intros Hlen. unfold compute_indicators, last_or_none.
  destruct (Nat.ltb_spec (List.length (df_rows df)) 10); [lia|].
  repeat step_bind.
  discriminate.
Qed.

End SnapshotFacts.

(** C2, as the code has it.  The engine answers with the absent result
    exactly on frames of fewer than ten rows (five rows among them, whatever
    they hold): there it returns [None] without raising, and with ten rows
    or more its result is never that absent one.  The rows counted are the
    rows of the frame, with or without a usable close. *)
Theorem absent_iff_under_ten_rows :
  forall (float_of_str : string -> option Q) (int_of_str : string -> option Z)
         (df : DataFrame),
    compute_indicators_from_csv float_of_str int_of_str (Parsed df) = Ret None
    <-> (List.length (df_rows df) < 10)%nat.
Proof.
  intros fos ios df. cbn [compute_indicators_from_csv]. split.
  - intros Hnone. destruct (Nat.lt_ge_cases (List.length (df_rows df)) 10) as [|Hge];
      [assumption|].
    exfalso. exact (compute_indicators_not_none fos ios df Hge Hnone).
  - intros Hlt. unfold compute_indicators.
    destruct (Nat.ltb_spec (List.length (df_rows df)) 10); [reflexivity | lia].
Qed.

Example five_rows_give_none :
  compute_indicators_from_csv float_of_decimal int_of_decimal (Parsed five_row_frame)
  = Ret None.
Proof. reflexivity. Qed.

(** C2, as claimed, fails: a frame of ten rows of which four only have
    a usable close is not held insufficient; the engine returns a snapshot,
    whose latest close is that of the last row. *)
Lemma sparse_frame_gives_snapshot :
  List.length (df_rows sparse_close_frame) = 10%nat
  /\ usable_rows float_of_decimal sparse_close_frame = 4%nat
  /\ exists snap,
      compute_indicators_from_csv float_of_decimal int_of_decimal
        (Parsed sparse_close_frame) = Ret (Some snap)
      /\ snap_latest_close snap = Some 103%Q.
Proof.
  split; [reflexivity|]. split; [reflexivity|].
  eexists. split; [vm_compute; reflexivity | reflexivity].
Qed.

(** C3. With at least two histogram values, the classification is
    bullish exactly when the value before the last is at most zero and the
    last is above zero, bearish exactly when the value before the last is at
    least zero and the last is below zero, and neutral in every other case
    (two zeros among them); with fewer than two values it is neutral.  The
    snapshot carries this classification of the histogram of its closes. *)
Theorem crossover_from_last_two :
  (forall hist : series,
      (2 <= List.length hist)%nat ->
      exists h prev curr,
        hist = h ++ [prev; curr]
        /\ (macd_crossover hist = Ret bullish <-> fle prev fzero /\ flt fzero curr)
        /\ (macd_crossover hist = Ret bearish <-> fle fzero prev /\ flt curr fzero)
        /\ (macd_crossover hist = Ret neutral <->
            ~ (fle prev fzero /\ flt fzero curr) /\ ~ (fle fzero prev /\ flt curr fzero)))
  /\ (forall hist : series,
         (List.length hist < 2)%nat -> macd_crossover hist = Ret neutral)
  /\ (forall h : series, macd_crossover (h ++ [Some 0%Q; Some 0%Q]) = Ret neutral)
  /\ (forall float_of_str int_of_str df snap,
         compute_indicators float_of_str int_of_str df = Ret (Some snap) ->
         exists close,
           close_series float_of_str df = Ret close
           /\ (2 <= List.length (macd_hist_series close))%nat
           /\ macd_crossover (macd_hist_series close)
              = Ret (snap_macd_crossover snap)).
Proof.
  split; [|split; [|split]].
  - intros hist Hlen. destruct (two_last hist Hlen) as (h & prev & curr & ->).
    exists h, prev, curr. split; [reflexivity|].
    rewrite macd_crossover_last_two.
    pose proof (fleb_spec prev fzero) as Hb1. pose proof (fltb_spec fzero curr) as Hb2.
    pose proof (fleb_spec fzero prev) as Hs1. pose proof (fltb_spec curr fzero) as Hs2.
    pose proof (flt_asym fzero curr) as Hasym.
    destruct (fleb prev fzero), (fltb fzero curr), (fleb fzero prev), (fltb curr fzero);
      cbn; repeat split; try discriminate; try tauto;
      intros; exfalso; intuition discriminate.
  - intros hist Hlen. unfold macd_crossover.
    destruct (Nat.leb_spec 2 (List.length hist)); [lia | reflexivity].
  - intros h. rewrite macd_crossover_last_two. reflexivity.
  - intros fos ios df snap Hret.
    destruct (compute_indicators_inv fos ios df snap Hret)
      as (close & Hclose & Hlen & _ & _ & _ & Hcross & _).
    exists close. repeat split; auto.
    rewrite macd_hist_series_length, (close_series_length fos df close Hclose). lia.
Qed.

Lemma crossover_from_last_two_witness :
  exists h prev curr,
    [Some (-1)%Q; Some 2%Q] = h ++ [prev; curr]
    /\ (macd_crossover [Some (-1)%Q; Some 2%Q] = Ret bullish
        <-> fle prev fzero /\ flt fzero curr)
    /\ (macd_crossover [Some (-1)%Q; Some 2%Q] = Ret bearish
        <-> fle fzero prev /\ flt curr fzero)
    /\ (macd_crossover [Some (-1)%Q; Some 2%Q] = Ret neutral <->
        ~ (fle prev fzero /\ flt fzero curr) /\ ~ (fle fzero prev /\ flt curr fzero)).
Proof.
  apply (proj1 crossover_from_last_two [Some (-1)%Q; Some 2%Q]).
  cbn. lia.
Defined.

(** ** The range of the RSI *)

Lemma weighted_mean_nonneg (a b w c : Q) :
  (0 < a)%Q -> (0 < b)%Q -> (0 <= w)%Q -> (0 <= c)%Q ->
  (0 <= (a * w + b * c) / (a + b))%Q.
Proof.
  intros Ha Hb Hw Hc.
  apply Qle_shift_div_l; [lra|].
  assert (0 <= a * w)%Q by (apply Qmult_le_0_compat; lra).
  assert (0 <= b * c)%Q by (apply Qmult_le_0_compat; lra).
  lra.
Qed.

Lemma ewm_from_nonneg (alpha : Q) (l : series) :
  (0 < alpha)%Q -> (alpha < 1)%Q ->
  forall weighted old_wt,
    (0 < old_wt)%Q -> nonneg weighted -> Forall nonneg l ->
    Forall nonneg (ewm_from alpha weighted old_wt l).
Proof.
  intros Ha0 Ha1. induction l as [|cur l IH]; intros weighted old_wt Hwt Hw Hl;
    cbn; [constructor|].
  inversion Hl as [|? ? Hcur Hl']; subst.
  assert (Hwt' : (0 < old_wt * (1 - alpha))%Q).
  { apply Qmult_lt_0_compat; lra. }
  destruct weighted as [w|]; [destruct cur as [c|]|].
  - assert (Hm : nonneg (Some ((old_wt * (1 - alpha) * w + alpha * c)
                               / (old_wt * (1 - alpha) + alpha))%Q)).
    { cbn. apply weighted_mean_nonneg; assumption. }
    constructor; [exact Hm|]. apply IH; [lra | exact Hm | exact Hl'].
  - constructor; [exact Hw|]. apply IH; assumption.
  - constructor; [exact Hcur|]. apply IH; [lra | exact Hcur | exact Hl'].
Qed.

Lemma ewm_nonneg (alpha : Q) (l : series) :
  (0 < alpha)%Q -> (alpha < 1)%Q -> Forall nonneg l -> Forall nonneg (ewm alpha l).
Proof.
  intros Ha0 Ha1 Hl. destruct l as [|x l]; cbn; [constructor|].
  inversion Hl; subst. constructor; [assumption|].
  apply ewm_from_nonneg; auto. lra.
Qed.

Lemma clip_lower0_nonneg (l : series) : Forall nonneg (clip_lower0 l).
Proof.
  unfold clip_lower0. apply Forall_map. apply Forall_forall. intros [x|] _; cbn; [|exact I].
  destruct (Qle_bool 0 x) eqn:E; [apply Qle_bool_iff; exact E | lra].
Qed.

Lemma neg_clip_upper0_nonneg (l : series) : Forall nonneg (neg (clip_upper0 l)).
Proof.
  unfold neg, clip_upper0. rewrite map_map. apply Forall_map. apply Forall_forall.
  intros [x|] _; cbn; [|exact I].
  destruct (Qle_bool x 0) eqn:E; [apply Qle_bool_iff in E; lra | lra].
Qed.

(** [100 - 100 / (1 + g / l)] for a gain [g >= 0] and a loss [l > 0]. *)
Lemma rsi_value_range (g l : Q) :
  (0 <= g)%Q -> (0 < l)%Q -> (0 <= 100 - 100 / (1 + g / l) <= 100)%Q.
Proof.
  intros Hg Hl.
  assert (Hrs : (0 <= g / l)%Q) by (apply Qle_shift_div_l; lra).
  assert (Hlo : (0 <= 100 / (1 + g / l))%Q) by (apply Qle_shift_div_l; lra).
  assert (Hhi : (100 / (1 + g / l) <= 100)%Q) by (apply Qle_shift_div_r; lra).
  lra.
Qed.

(** The same bounds when each of the four operations is rounded, for
    any rounding that is monotone and keeps 0, 1 and 100 (as rounding to the
    nearest binary64 does). *)
Lemma rsi_value_range_rounded (rnd : Q -> Q) (g l : Q) :
  (forall x y, (x <= y)%Q -> (rnd x <= rnd y)%Q) ->
  (rnd 0 == 0)%Q -> (rnd 1 == 1)%Q -> (rnd 100 == 100)%Q ->
  (0 <= g)%Q -> (0 < l)%Q ->
  (0 <= rnd (100 - rnd (100 / rnd (1 + rnd (g / l)))) <= 100)%Q.
Proof.
  intros Hmono H0 H1 H100 Hg Hl.
  assert (Hrs : (0 <= rnd (g / l))%Q).
  { assert (Hq : (0 <= g / l)%Q) by (apply Qle_shift_div_l; lra).
    pose proof (Hmono _ _ Hq). lra. }
  assert (Ht : (1 <= rnd (1 + rnd (g / l)))%Q).
  { assert (Hq : (1 <= 1 + rnd (g / l))%Q) by lra.
    pose proof (Hmono _ _ Hq). lra. }
  set (t := rnd (1 + rnd (g / l))%Q) in *.
  assert (Hu0 : (0 <= rnd (100 / t))%Q).
  { assert (Hq : (0 <= 100 / t)%Q) by (apply Qle_shift_div_l; lra).
    pose proof (Hmono _ _ Hq). lra. }
  assert (Hu1 : (rnd (100 / t) <= 100)%Q).
  { assert (Hq : (100 / t <= 100)%Q) by (apply Qle_shift_div_r; lra).
    pose proof (Hmono _ _ Hq). lra. }
  set (u := rnd (100 / t)%Q) in *.
  assert (Hlo : (0 <= 100 - u)%Q) by lra.
  assert (Hhi : (100 - u <= 100)%Q) by lra.
  pose proof (Hmono _ _ Hlo). pose proof (Hmono _ _ Hhi). lra.
Qed.

Lemma rsi_formula_range (gains losses : series) :
  Forall nonneg gains -> Forall nonneg losses ->
  Forall in_0_100
    (map (fun x => fsub (Some 100%Q) (fdiv (Some 100%Q) (fadd (Some 1%Q) x)))
         (zip_with fdiv gains (replace_zero_na losses))).
Proof.
  intros Hg. revert losses. induction Hg as [|g gains Hg0 Hg IH]; intros losses Hl;
    [constructor|].
  destruct losses as [|l losses]; [constructor|].
  inversion Hl as [|? ? Hl0 Hl']; subst. cbn. constructor; [|apply IH; exact Hl'].
  destruct g as [g|], l as [l|]; cbn; try exact I.
  destruct (Qeq_bool l 0) eqn:E; cbn; [exact I|].
  apply rsi_value_range; [exact Hg0|].
  cbn in Hl0. apply Qle_lteq in Hl0 as [Hlt | Heq]; [exact Hlt|].
  symmetry in Heq. apply Qeq_bool_iff in Heq. congruence.
Qed.

Lemma rsi_series_range (close : series) : Forall in_0_100 (rsi_series close).
Proof.
  unfold rsi_series, avg_gain_series, avg_loss_series, gain_series, loss_series.
  apply rsi_formula_range; apply ewm_nonneg; try lra.
  - apply clip_lower0_nonneg.
  - apply neg_clip_upper0_nonneg.
Qed.

(** C4. Whenever the snapshot carries an RSI value, that value lies in
    the closed interval from 0 to 100; so does every defined value of the
    RSI Series of any closes, and so does the formula on a gain that is not
    negative and a loss above zero when each of its operations is rounded
    monotonically. *)
Theorem rsi_between_0_and_100 :
  forall (float_of_str : string -> option Q) (int_of_str : string -> option Z)
         (df : DataFrame) (snap : Snapshot) (r : Q),
    compute_indicators float_of_str int_of_str df = Ret (Some snap) ->
    snap_rsi snap = Some r ->
    (0 <= r <= 100)%Q
    /\ (forall close : series, Forall in_0_100 (rsi_series close))
    /\ (forall (rnd : Q -> Q) (avg_gain avg_loss : Q),
          (forall x y, (x <= y)%Q -> (rnd x <= rnd y)%Q) ->
          (rnd 0 == 0)%Q -> (rnd 1 == 1)%Q -> (rnd 100 == 100)%Q ->
          (0 <= avg_gain)%Q -> (0 < avg_loss)%Q ->
          (0 <= rnd (100 - rnd (100 / rnd (1 + rnd (avg_gain / avg_loss))))
           <= 100)%Q).
Proof.
  intros fos ios df snap r Hret Hrsi.
  split; [|split; [apply rsi_series_range | apply rsi_value_range_rounded]].
  destruct (compute_indicators_inv fos ios df snap Hret)
    as (close & _ & _ & _ & Hr & _).
  rewrite Hrsi in Hr. apply iloc_back_in in Hr.
  pose proof (rsi_series_range close) as Hall.
  rewrite Forall_forall in Hall. exact (Hall _ Hr).
Qed.

Lemma rsi_between_0_and_100_witness :
  exists snap r,
    compute_indicators float_of_decimal int_of_decimal sample_frame = Ret (Some snap)
    /\ snap_rsi snap = Some r
    /\ (0 <= r <= 100)%Q.
Proof.
  destruct (compute_indicators float_of_decimal int_of_decimal sample_frame)
    as [[snap|]|e] eqn:E; [|vm_compute in E; discriminate..].
  destruct (snap_rsi snap) as [r|] eqn:R.
  - exists snap, r. split; [reflexivity|]. split; [exact R|].
    exact (proj1 (rsi_between_0_and_100 _ _ _ _ _ E R)).
  - vm_compute in E. injection E as <-. discriminate.
Defined.

(** ** A constant Series *)

Lemma ewm_from_const (alpha c : Q) (l : series) :
  (0 < alpha)%Q -> (alpha < 1)%Q -> all_eq c l ->
  forall w, (w == c)%Q -> all_eq c (ewm_from alpha (Some w) 1 l).
Proof.
  intros Ha0 Ha1 Hl. induction Hl as [|v l (q & -> & Hq) Hl IH]; intros w Hw; cbn;
    [constructor|].
  assert (Hm : ((1 * (1 - alpha) * w + alpha * q) / (1 * (1 - alpha) + alpha) == c)%Q).
  { rewrite Hw, Hq. field. lra. }
  constructor; [eexists; split; [reflexivity | exact Hm]|].
  apply IH. exact Hm.
Qed.

Lemma ewm_const (alpha c : Q) (l : series) :
  (0 < alpha)%Q -> (alpha < 1)%Q -> all_eq c l -> all_eq c (ewm alpha l).
Proof.
  intros Ha0 Ha1 Hl. destruct Hl as [|v l (q & -> & Hq) Hl]; cbn; [constructor|].
  constructor; [eexists; split; [reflexivity | exact Hq]|].
  apply ewm_from_const; assumption.
Qed.

Lemma ewm_span_const (span : Z) (c : Q) (l : series) :
  1 < span -> all_eq c l -> all_eq c (ewm_span span l).
Proof.
  intros Hs. unfold ewm_span. apply ewm_const.
  - reflexivity.
  - unfold Qlt. cbn. rewrite Z2Pos.id by lia. lia.
Qed.

Lemma zip_sub_const (a b : Q) (la lb : series) :
  all_eq a la -> all_eq b lb -> all_eq (a - b) (zip_with fsub la lb).
Proof.
  intros Ha. revert lb. induction Ha as [|v la (x & -> & Hx) Ha IH]; intros lb Hb;
    [constructor|].
  destruct Hb as [|u lb (y & -> & Hy) Hb]; [constructor|].
  cbn. constructor; [|apply IH; exact Hb].
  eexists. split; [reflexivity|]. rewrite Hx, Hy. reflexivity.
Qed.

Lemma all_eq_proper (a b : Q) (l : series) :
  (a == b)%Q -> all_eq a l -> all_eq b l.
Proof.
  intros Hab Hl. eapply Forall_impl; [|exact Hl].
  intros v (q & -> & Hq). eexists. split; [reflexivity|]. rewrite Hq. exact Hab.
Qed.

Lemma macd_hist_const (c : Q) (close : series) :
  all_eq c close -> all_eq 0 (macd_hist_series close).
Proof.
  intros Hc.
  assert (Hmacd : all_eq 0 (macd_series close)).
  { apply (all_eq_proper (c - c)); [ring|].
    apply zip_sub_const; apply ewm_span_const; auto; lia. }
  apply (all_eq_proper (0 - 0)); [ring|].
  apply zip_sub_const; [exact Hmacd|].
  apply ewm_span_const; [lia | exact Hmacd].
Qed.

Lemma all_eq_last (c : Q) (l : series) (v : fval) :
  all_eq c l -> iloc_back l 1 = Ret v -> exists q, v = Some q /\ (q == c)%Q.
Proof.
  intros Hl Hv. apply iloc_back_in in Hv. unfold all_eq in Hl.
  rewrite Forall_forall in Hl. exact (Hl _ Hv).
Qed.

Lemma diff_from_const (c : Q) (l : series) :
  all_eq c l -> forall w, (w == c)%Q -> Forall none_or_zero (diff_from (Some w) l).
Proof.
  intros Hl. induction Hl as [|v l (q & -> & Hq) Hl IH]; intros w Hw; cbn;
    constructor; [|apply IH; exact Hq].
  cbn. rewrite Hq, Hw. ring.
Qed.

Lemma diff_const (c : Q) (l : series) :
  all_eq c l -> Forall none_or_zero (diff l).
Proof.
  intros Hl. destruct Hl as [|v l (q & -> & Hq) Hl]; cbn; constructor; [exact I|].
  eapply diff_from_const; eauto.
Qed.

Lemma ewm_from_none_or_zero (alpha : Q) (l : series) :
  Forall none_or_zero l ->
  forall weighted old_wt,
    none_or_zero weighted -> Forall none_or_zero (ewm_from alpha weighted old_wt l).
Proof.
  intros Hl. induction Hl as [|cur l Hcur Hl IH]; intros weighted old_wt Hw; cbn;
    [constructor|].
  destruct weighted as [w|]; [destruct cur as [c|]|].
  - assert (Hm : none_or_zero (Some ((old_wt * (1 - alpha) * w + alpha * c)
                                     / (old_wt * (1 - alpha) + alpha))%Q)).
    { cbn in *. rewrite Hw, Hcur. unfold Qdiv. ring. }
    constructor; [exact Hm | apply IH; exact Hm].
  - constructor; [exact Hw | apply IH; exact Hw].
  - constructor; [exact Hcur | apply IH; exact Hcur].
Qed.

Lemma ewm_none_or_zero (alpha : Q) (l : series) :
  Forall none_or_zero l -> Forall none_or_zero (ewm alpha l).
Proof.
  intros Hl. destruct Hl as [|x l Hx Hl]; cbn; constructor; [exact Hx|].
  apply ewm_from_none_or_zero; assumption.
Qed.

Lemma rsi_formula_of_zero_losses (gains losses : series) :
  Forall none_or_zero losses ->
  Forall (fun v => v = None)
    (map (fun x => fsub (Some 100%Q) (fdiv (Some 100%Q) (fadd (Some 1%Q) x)))
         (zip_with fdiv gains (replace_zero_na losses))).
Proof.
  intros Hl. revert gains. induction Hl as [|l losses Hl0 Hl IH]; intros gains.
  - destruct gains; constructor.
  - destruct gains as [|g gains]; [constructor|]. cbn.
    constructor; [|apply IH].
    destruct l as [l|]; cbn in *.
    + apply Qeq_bool_iff in Hl0. rewrite Hl0. destruct g; reflexivity.
    + destruct g; reflexivity.
Qed.

Lemma rsi_series_const (c : Q) (close : series) :
  all_eq c close -> Forall (fun v => v = None) (rsi_series close).
Proof.
  intros Hc. unfold rsi_series, avg_loss_series, loss_series.
  apply rsi_formula_of_zero_losses.
  apply ewm_none_or_zero.
  unfold neg, clip_upper0. rewrite map_map. apply Forall_map.
  eapply Forall_impl; [|exact (diff_const c close Hc)].
  intros [x|] Hx; cbn in *; [|exact I].
  destruct (Qle_bool x 0); [rewrite Hx|]; reflexivity.
Qed.

Lemma fltb_zero_right (v : Q) : (v == 0)%Q -> fltb (Some v) fzero = false.
Proof.
  intros Hv. destruct (fltb (Some v) fzero) eqn:E; [|reflexivity].
  apply fltb_spec in E. cbn in E. lra.
Qed.

Lemma fltb_zero_left (v : Q) : (v == 0)%Q -> fltb fzero (Some v) = false.
Proof.
  intros Hv. destruct (fltb fzero (Some v)) eqn:E; [|reflexivity].
  apply fltb_spec in E. cbn in E. lra.
Qed.

Lemma macd_crossover_of_zeros (hist : series) :
  (2 <= List.length hist)%nat -> all_eq 0 hist -> macd_crossover hist = Ret neutral.
Proof.
  intros Hlen Hz. destruct (two_last hist Hlen) as (h & u & v & ->).
  rewrite macd_crossover_last_two.
  unfold all_eq in Hz. rewrite Forall_forall in Hz.
  destruct (Hz v) as (qv & -> & Hqv).
  { apply in_or_app. right. right. left. reflexivity. }
  rewrite (fltb_zero_left qv Hqv), (fltb_zero_right qv Hqv), !andb_false_r.
  reflexivity.
Qed.

Lemma diff_from_all_eq (c : Q) (l : series) :
  all_eq c l -> forall w, (w == c)%Q -> all_eq 0 (diff_from (Some w) l).
Proof.
  intros Hl. induction Hl as [|v l (q & -> & Hq) Hl IH]; intros w Hw; cbn;
    constructor; [|apply IH; exact Hq].
  eexists. split; [reflexivity|]. rewrite Hq, Hw. ring.
Qed.

Lemma clip_lower0_zero (l : series) : all_eq 0 l -> all_eq 0 (clip_lower0 l).
Proof.
  intros Hl. unfold clip_lower0. apply Forall_map.
  eapply Forall_impl; [|exact Hl]. intros v (q & -> & Hq). cbn.
  eexists. split; [reflexivity|]. destruct (Qle_bool 0 q); [exact Hq | reflexivity].
Qed.

Lemma neg_clip_upper0_zero (l : series) : all_eq 0 l -> all_eq 0 (neg (clip_upper0 l)).
Proof.
  intros Hl. unfold neg, clip_upper0. rewrite map_map. apply Forall_map.
  eapply Forall_impl; [|exact Hl]. intros v (q & -> & Hq). cbn.
  eexists. split; [reflexivity|]. destruct (Qle_bool q 0); [rewrite Hq|]; reflexivity.
Qed.

Lemma iloc_back_cons (x : fval) (l : series) :
  l <> [] -> iloc_back (x :: l) 1 = iloc_back l 1.
Proof.
  intros Hl. unfold iloc_back, getitem. cbn [rev Nat.sub].
  destruct (rev l) as [|y t] eqn:E; [|reflexivity].
  apply (f_equal (@rev _)) in E. rewrite rev_involutive in E. contradiction.
Qed.

(** After the first row, whose difference is missing, the Wilder
    average of a Series of zeros is zero. *)
Lemma ewm_after_gap_zero (alpha : Q) (l : series) (v : fval) :
  (0 < alpha)%Q -> (alpha < 1)%Q -> all_eq 0 l -> l <> [] ->
  iloc_back (ewm alpha (None :: l)) 1 = Ret v ->
  exists q, v = Some q /\ (q == 0)%Q.
Proof.
  intros Ha0 Ha1 Hl Hne. cbn [ewm ewm_from].
  destruct Hl as [|x l (q & -> & Hq) Hl]; [contradiction|]. cbn [ewm_from].
  rewrite iloc_back_cons by discriminate.
  apply all_eq_last. constructor; [eexists; split; [reflexivity | exact Hq]|].
  apply ewm_from_const; assumption.
Qed.

(** C5. On ten rows or more whose close is constant at 50, the engine
    returns a snapshot: the average gain and the average loss at the last
    row are zero and the RSI is absent (nothing is divided by the zero), the
    EMA of span 21 at the last row equals 50, the MACD histogram is 0 and
    the crossover is neutral. *)
Theorem constant_close_snapshot :
  forall (float_of_str : string -> option Q) (int_of_str : string -> option Z)
         (df : DataFrame) (close : series),
    (10 <= List.length (df_rows df))%nat ->
    close_series float_of_str df = Ret close ->
    all_eq 50 close ->
    exists snap avg_gain avg_loss ema21 hist,
      compute_indicators float_of_str int_of_str df = Ret (Some snap)
      /\ iloc_back (avg_gain_series close) 1 = Ret (Some avg_gain)
      /\ (avg_gain == 0)%Q
      /\ iloc_back (avg_loss_series close) 1 = Ret (Some avg_loss)
      /\ (avg_loss == 0)%Q
      /\ snap_rsi snap = None
      /\ iloc_back (ewm_span 21 close) 1 = Ret (Some ema21) /\ (ema21 == 50)%Q
      /\ snap_macd_hist snap = Some hist /\ (hist == 0)%Q
      /\ snap_macd_crossover snap = neutral.
Proof.
  intros fos ios df close Hlen Hclose Hconst.
  pose proof (close_series_length fos df close Hclose) as Hcl.
  destruct (compute_indicators_returns fos ios df close Hlen Hclose) as (snap & Hret).
  destruct (compute_indicators_inv fos ios df snap Hret)
    as (close' & Hclose' & _ & _ & Hrsi & Hhist & Hcross & _).
  rewrite Hclose in Hclose'. injection Hclose' as <-.
  destruct (iloc_back_some (ewm_span 21 close) 1) as (e & He);
    [unfold ewm_span; rewrite ewm_length; lia|].
  destruct (all_eq_last 50 _ e (ewm_span_const 21 50 close ltac:(lia) Hconst) He)
    as (ema21 & -> & Hema).
  destruct (all_eq_last 0 _ _ (macd_hist_const 50 close Hconst) Hhist)
    as (hist & Hh & Hh0).
  (* the differences: a gap, then zeros *)
  destruct close as [|c0 [|c1 close]]; [cbn in Hcl; lia | cbn in Hcl; lia |].
  assert (Hd : exists d, diff (c0 :: c1 :: close) = None :: d /\ all_eq 0 d /\ d <> []).
  { inversion Hconst as [|? ? (q0 & -> & Hq0) Hrest]; subst.
    exists (diff_from (Some q0) (c1 :: close)). split; [reflexivity|].
    split; [eapply diff_from_all_eq; eauto | discriminate]. }
  destruct Hd as (d & Hd & Hd0 & Hdne).
  destruct (iloc_back_some (avg_gain_series (c0 :: c1 :: close)) 1) as (ag & Hag).
  { unfold avg_gain_series, gain_series, clip_lower0.
    rewrite ewm_length, length_map, diff_length. cbn. lia. }
  destruct (iloc_back_some (avg_loss_series (c0 :: c1 :: close)) 1) as (al & Hal).
  { unfold avg_loss_series, loss_series, neg, clip_upper0.
    rewrite ewm_length, !length_map, diff_length. cbn. lia. }
  assert (Hag0 : exists q, ag = Some q /\ (q == 0)%Q).
  { revert Hag. unfold avg_gain_series, gain_series. rewrite Hd.
    change (clip_lower0 (None :: d)) with (None :: clip_lower0 d).
    apply ewm_after_gap_zero; try lra; [apply clip_lower0_zero; exact Hd0|].
    destruct d; [contradiction | discriminate]. }
  assert (Hal0 : exists q, al = Some q /\ (q == 0)%Q).
  { revert Hal. unfold avg_loss_series, loss_series. rewrite Hd.
    change (neg (clip_upper0 (None :: d))) with (None :: neg (clip_upper0 d)).
    apply ewm_after_gap_zero; try lra; [apply neg_clip_upper0_zero; exact Hd0|].
    destruct d; [contradiction | discriminate]. }
  destruct Hag0 as (avg_gain & -> & Hg0). destruct Hal0 as (avg_loss & -> & Hl0).
  exists snap, avg_gain, avg_loss, ema21, hist. repeat split; auto.
  - apply iloc_back_in in Hrsi.
    pose proof (rsi_series_const 50 _ Hconst) as Hall.
    rewrite Forall_forall in Hall. exact (Hall _ Hrsi).
  - rewrite macd_crossover_of_zeros in Hcross.
    + injection Hcross as <-. reflexivity.
    + rewrite macd_hist_series_length. cbn. lia.
    + exact (macd_hist_const 50 _ Hconst).
Qed.

Lemma constant_close_snapshot_witness :
  exists snap avg_gain avg_loss ema21 hist,
    compute_indicators float_of_decimal int_of_decimal constant_frame = Ret (Some snap)
    /\ iloc_back (avg_gain_series (repeat (Some 50%Q) 20)) 1 = Ret (Some avg_gain)
    /\ (avg_gain == 0)%Q
    /\ iloc_back (avg_loss_series (repeat (Some 50%Q) 20)) 1 = Ret (Some avg_loss)
    /\ (avg_loss == 0)%Q
    /\ snap_rsi snap = None
    /\ iloc_back (ewm_span 21 (repeat (Some 50%Q) 20)) 1 = Ret (Some ema21)
    /\ (ema21 == 50)%Q
    /\ snap_macd_hist snap = Some hist /\ (hist == 0)%Q
    /\ snap_macd_crossover snap = neutral.
Proof.
  apply (constant_close_snapshot float_of_decimal int_of_decimal constant_frame
           (repeat (Some 50%Q) 20)).
  - cbn. lia.
  - reflexivity.
  - unfold all_eq. cbn. repeat constructor; eexists; split; reflexivity.
Defined.

(** ** Which column is the close *)

(** The first element of [names] that is among [columns] comes after
    names that are not. *)
Lemma find_first_present (columns names : list string) (c : string) :
  find (has_column columns) names = Some c ->
  exists pre post,
    names = pre ++ c :: post
    /\ has_column columns c = true
    /\ forall c', In c' pre -> has_column columns c' = false.
Proof.
  induction names as [|n names IH]; cbn; [discriminate|].
  destruct (has_column columns n) eqn:E.
  - intros [= <-]. exists [], names. repeat split; auto. intros c' [].
  - intros Hfind. destruct (IH Hfind) as (pre & post & -> & Hc & Hpre).
    exists (n :: pre), post. repeat split; auto.
    intros c' [<- | Hin]; auto.
Qed.

(** The close of the latest row by position: the third field decides
    when it is present, not empty and a number; the second field is read in
    every other case. *)
Lemma latest_close_positional (float_of_str : string -> option Q) (l : row) (c : Q) :
  latest_close float_of_str l = Ret (Some c) ->
  (forall x q, nth_error l 2 = Some x -> x <> EmptyString ->
               float_of_str x = Some q -> c = q)
  /\ (nth_error l 2 = None
      \/ nth_error l 2 = Some EmptyString
      \/ (exists x, nth_error l 2 = Some x /\ float_of_str x = None) ->
      exists y, nth_error l 1 = Some y /\ float_of_str y = Some c).
Proof.
  unfold latest_close, close_field, getitem, float_str.
  destruct (nth_error l 2) as [x|] eqn:E2.
  - assert (Hlen : (2 <? List.length l)%nat = true).
    { apply Nat.ltb_lt. apply nth_error_Some. congruence. }
    rewrite Hlen. cbn [andb].
    destruct (String.eqb_spec x EmptyString) as [-> | Hne]; cbn [negb bind].
    + intros Hc. split.
      * intros x' q [= <-] Hx. contradiction.
      * intros _. destruct (nth_error l 1) as [y|]; cbn [bind catch_all] in Hc;
          [|discriminate].
        destruct (float_of_str y) as [q|] eqn:Ey; cbn [bind catch_all] in Hc;
          [|discriminate].
        injection Hc as <-. eauto.
    + destruct (float_of_str x) as [q|] eqn:Ex; cbn [bind catch_all].
      * intros [= <-]. split.
        -- intros x' q' [= <-] _ Hq. congruence.
        -- intros [H | [H | (x' & [= <-] & Hx')]]; congruence.
      * intros Hc. split.
        -- intros x' q' [= <-] _ Hq. congruence.
        -- intros _. destruct (nth_error l 1) as [y|]; cbn [bind catch_all] in Hc;
             [|discriminate].
           destruct (float_of_str y) as [q|] eqn:Ey; cbn [bind catch_all] in Hc;
             [|discriminate].
           injection Hc as <-. eauto.
  - rewrite andb_false_r. intros Hc. split.
    + intros x q Hx. discriminate.
    + intros _. destruct (nth_error l 1) as [y|]; cbn [bind catch_all] in Hc;
        [|discriminate].
      destruct (float_of_str y) as [q|] eqn:Ey; cbn [bind catch_all] in Hc;
        [|discriminate].
      injection Hc as <-. eauto.
Qed.

(** C9, as the code has it.  The engine takes the close from the first
    column present among Close, close, Adj Close, AdjClose, Adj_Close in
    that order, and from the first column after the date when none is
    present.  The matcher resolves no name: the close of the latest row is
    its third field when that is present, not empty and a number, and its
    second field otherwise. *)
Theorem close_column_resolution :
  (forall (columns : list string) (c : string),
      resolve_close_col columns = Ret c ->
      (exists pre post,
          close_candidates = pre ++ c :: post
          /\ has_column columns c = true
          /\ forall c', In c' pre -> has_column columns c' = false)
      \/ ((forall c', In c' close_candidates -> has_column columns c' = false)
          /\ nth_error columns 0 = Some c))
  /\ (forall float_of_str int_of_str df snap,
         compute_indicators float_of_str int_of_str df = Ret (Some snap) ->
         exists close_col close,
           resolve_close_col (tl (df_columns df)) = Ret close_col
           /\ astype_float float_of_str
                (column (tl (df_columns df)) (df_rows df) close_col) = Ret close
           /\ iloc_back close 1 = Ret (snap_latest_close snap))
  /\ (forall float_of_str rows duration s,
         read_latest_from_csv float_of_str (Some rows) duration = Ret (Some s) ->
         exists l,
           last_row (data_rows_of rows) = Some l
           /\ (forall x q,
                  nth_error l 2 = Some x -> x <> EmptyString ->
                  float_of_str x = Some q -> cs_close s = q)
           /\ (nth_error l 2 = None
               \/ nth_error l 2 = Some EmptyString
               \/ (exists x, nth_error l 2 = Some x /\ float_of_str x = None) ->
               exists y, nth_error l 1 = Some y
                         /\ float_of_str y = Some (cs_close s))).
Proof.
  split; [|split].
  - intros columns c. unfold resolve_close_col.
    destruct (find (has_column columns) close_candidates) as [c0|] eqn:E.
    + intros [= <-]. left. apply find_first_present. exact E.
    + intros Hget. right. split.
      * intros c' Hin. exact (find_none _ _ E c' Hin).
      * unfold getitem in Hget. destruct (nth_error columns 0); congruence.
  - intros fos ios df snap Hret.
    destruct (compute_indicators_inv fos ios df snap Hret)
      as (close & Hclose & _ & Hlast & _).
    unfold close_series in Hclose.
    destruct (getitem (df_columns df) 0); [|discriminate]. cbn [bind] in Hclose.
    destruct (resolve_close_col (tl (df_columns df))) as [cc|]; [|discriminate].
    cbn [bind] in Hclose. exists cc, close. auto.
  - intros fos rows duration s Hret.
    destruct (read_latest_some_inv fos rows duration s Hret)
      as (l & target & Hlast & Htarget).
    destruct (matched_row_selected rows duration l target Hlast Htarget)
      as (pre & m & post & om & Hscan & _).
    rewrite (read_latest_unfold fos rows duration l m target _ Hlast Htarget Hscan)
      in Hret.
    exists l. split; [exact Hlast|].
    destruct (latest_close fos l) as [[c|]|e] eqn:Hc; try discriminate.
    injection Hret as <-. cbn [cs_close].
    exact (latest_close_positional fos l c Hc).
Qed.

Lemma close_column_resolution_witness :
  (exists pre post,
      close_candidates = pre ++ "Adj Close"%string :: post
      /\ has_column ["Open"; "Adj Close"; "AdjClose"]%string "Adj Close" = true
      /\ forall c', In c' pre ->
                    has_column ["Open"; "Adj Close"; "AdjClose"]%string c' = false)
  \/ ((forall c', In c' close_candidates ->
                  has_column ["Open"; "Adj Close"; "AdjClose"]%string c' = false)
      /\ nth_error ["Open"; "Adj Close"; "AdjClose"]%string 0 = Some "Adj Close"%string).
Proof.
  apply (proj1 close_column_resolution ["Open"; "Adj Close"; "AdjClose"]%string).
  reflexivity.
Defined.

(** C9, as claimed, fails for the matcher: under the header
    [Date,Close,Volume] the policy names the column Close, whose field in
    the latest row is 110, and the matcher reports the third field, 7000. *)
Lemma matcher_reads_third_field :
  resolve_close_col (tl ["Date"; "Close"; "Volume"]%string) = Ret "Close"%string
  /\ close_by_name float_of_decimal ["Date"; "Close"; "Volume"]%string
       ["2024-01-08"; "110"; "7000"]%string = Some 110%Q
  /\ exists s,
      read_latest_from_csv float_of_decimal (Some volume_rows) "1d" = Ret (Some s)
      /\ cs_close s = 7000%Q
      /\ ~ (cs_close s == 110)%Q.
Proof.
  split; [reflexivity|]. split; [reflexivity|].
  eexists. split; [vm_compute; reflexivity|]. split; [reflexivity|].
  cbn. intros H. vm_compute in H. discriminate.
Qed.

(** ** Malformed rows *)

(** C1, on the code.  A latest row that passes the data-row test with a
    first field that is no date makes [read_latest_from_csv] raise
    [ValueError], and a close cell that is no number makes
    [compute_indicators_from_csv] raise [ValueError]; the same malformed
    date on a row that is not the latest is skipped. *)
Theorem malformed_rows_raise :
  read_latest_from_csv float_of_decimal (Some bad_date_rows) "1d" = Raise ValueError
  /\ compute_indicators_from_csv float_of_decimal int_of_decimal
       (Parsed bad_close_frame) = Raise ValueError
  /\ (exists s,
         read_latest_from_csv float_of_decimal
           (Some [ ["2024/01/01"; "100"]; ["2024-01-08"; "110"] ]%string) "1d"
         = Ret (Some s)).
Proof.
  split; [reflexivity|]. split; [reflexivity|].
  eexists. vm_compute. reflexivity.
Qed.

(** * Further properties of the horizon matcher *)

Lemma target_of_raise (l : row) (duration : string) (e : exn) :
  l <> [] ->
  (target_of l duration = Raise e <->
   (e = ValueError /\ row_ordinal l = None)
   \/ (e = OverflowError
       /\ exists o, row_ordinal l = Some o /\ o - duration_days duration < 1)).
Proof.
  destruct l as [|f l]; [congruence|]. intros _.
  unfold target_of, row_ordinal. cbn [getitem nth_error bind].
  destruct (strptime f) as [d|e'] eqn:E; cbn [bind].
  - unfold minus_days.
    destruct (Z.leb_spec 1 (toordinal d - duration_days duration)) as [Hle|Hlt].
    + split; [discriminate|].
      intros [[_ H] | [_ (o & [= <-] & Ho)]]; [discriminate | lia].
    + split.
      * intros [= <-]. right. split; [reflexivity|]. exists (toordinal d). auto.
      * intros [[_ H] | [-> _]]; [discriminate | reflexivity].
  - apply strptime_raises_value_error in E. subst e'. split.
    + intros [= <-]. left. auto.
    + intros [[-> _] | [_ (o & H & _)]]; [reflexivity | discriminate].
Qed.

Lemma last_row_nonempty (rows : list row) (l : row) :
  last_row (data_rows_of rows) = Some l -> l <> [].
Proof.
  intros Hlast. destruct (last_row_in _ _ Hlast) as (pre & Hpre).
  pose proof (data_rows_nonempty rows) as Hall. rewrite Hpre in Hall.
  apply Forall_app in Hall as [_ Hl]. inversion Hl; assumption.
Qed.

(** X1. Once the file has been opened, decoded and split into rows of
    ASCII text (that step can raise on its own), what follows in
    [read_latest_from_csv] raises in two cases only, both on the latest data
    row: [ValueError] when its first field is no calendar date in the form
    YYYY-MM-DD, [OverflowError] when the horizon reaches before 0001-01-01.
    No other row and no close field makes it raise. *)
Theorem read_latest_raises_iff :
  forall (float_of_str : string -> option Q) (rows : list row)
         (duration : string) (e : exn),
    ascii_rows rows ->
    (read_latest_from_csv float_of_str (Some rows) duration = Raise e
     <-> exists l,
         last_row (data_rows_of rows) = Some l
         /\ ((e = ValueError /\ row_ordinal l = None)
             \/ (e = OverflowError
                 /\ exists o, row_ordinal l = Some o
                              /\ o - duration_days duration < 1))).
Proof.
  intros fos rows duration e _. split.
  - intros Hraise.
    destruct (last_row (data_rows_of rows)) as [l|] eqn:Hlast;
      [|unfold read_latest_from_csv in Hraise; rewrite Hlast in Hraise; discriminate].
    exists l. split; [reflexivity|].
    apply (target_of_raise l duration e (last_row_nonempty rows l Hlast)).
    destruct (target_of l duration) as [target|e'] eqn:Ht.
    + destruct (matched_row_selected rows duration l target Hlast Ht)
        as (pre & m & post & om & Hscan & _).
      rewrite (read_latest_unfold fos rows duration l m target _ Hlast Ht Hscan)
        in Hraise.
      destruct (latest_close_returns fos l) as (oc & Hoc). rewrite Hoc in Hraise.
      destruct oc; discriminate.
    + unfold read_latest_from_csv in Hraise. rewrite Hlast, Ht in Hraise.
      cbn in Hraise. congruence.
  - intros (l & Hlast & Hcase).
    apply (target_of_raise l duration e (last_row_nonempty rows l Hlast)) in Hcase.
    unfold read_latest_from_csv. rewrite Hlast, Hcase. reflexivity.
Qed.

Lemma read_latest_raises_iff_witness :
  read_latest_from_csv float_of_decimal (Some bad_date_rows) "1d" = Raise ValueError.
Proof.
  apply (read_latest_raises_iff float_of_decimal bad_date_rows "1d" ValueError).
  - unfold ascii_rows, bad_date_rows. repeat constructor.
  - exists ["2024/01/08"; "110"]%string. split; [reflexivity|].
    left. split; reflexivity.
Defined.

Lemma latest_close_none_iff (float_of_str : string -> option Q) (l : row) :
  latest_close float_of_str l = Ret None
  <-> raises (close_field float_of_str l)
      /\ (nth_error l 1 = None
          \/ exists y, nth_error l 1 = Some y /\ float_of_str y = None).
Proof.
  unfold latest_close, raises, getitem, float_str.
  destruct (close_field float_of_str l) as [c|e]; cbn [bind catch_all].
  - split; [discriminate | intros [(e & He) _]; discriminate].
  - destruct (nth_error l 1) as [y|] eqn:E1; cbn [bind catch_all].
    + destruct (float_of_str y) as [q|] eqn:Ey; cbn [bind catch_all].
      * split; [discriminate|]. intros [_ [H | (y' & Hy & H)]]; congruence.
      * split; [|reflexivity]. intros _. split; [eauto|]. right. eauto.
    + split; [|reflexivity]. intros _. split; [eauto|]. left. reflexivity.
Qed.

(** X2. [read_latest_from_csv] answers [None] exactly in three cases:
    the file is missing, it has no data row, or the latest data row gives a
    target date while neither its close field nor its second field is a
    number. *)
Theorem read_latest_none_iff :
  forall (float_of_str : string -> option Q) (file : option (list row))
         (duration : string),
    read_latest_from_csv float_of_str file duration = Ret None
    <-> file = None
        \/ exists rows,
            file = Some rows
            /\ (data_rows_of rows = []
                \/ exists l target,
                    last_row (data_rows_of rows) = Some l
                    /\ target_of l duration = Ret target
                    /\ raises (close_field float_of_str l)
                    /\ (nth_error l 1 = None
                        \/ exists y, nth_error l 1 = Some y
                                     /\ float_of_str y = None)).
Proof.
  intros fos file duration. destruct file as [rows|]; [|split; auto].
  split.
  - intros Hnone. right. exists rows. split; [reflexivity|].
    destruct (last_row (data_rows_of rows)) as [l|] eqn:Hlast.
    + right. exists l.
      destruct (target_of l duration) as [target|e] eqn:Ht.
      * exists target. split; [reflexivity|]. split; [reflexivity|].
        apply latest_close_none_iff.
        destruct (matched_row_selected rows duration l target Hlast Ht)
          as (pre & m & post & om & Hscan & _).
        rewrite (read_latest_unfold fos rows duration l m target _ Hlast Ht Hscan)
          in Hnone.
        destruct (latest_close fos l) as [[c|]|e]; try discriminate. reflexivity.
      * unfold read_latest_from_csv in Hnone. rewrite Hlast, Ht in Hnone.
        discriminate.
    + left. destruct (data_rows_of rows); [reflexivity | discriminate].
  - intros [H | (rows' & [= <-] & [Hempty | (l & target & Hlast & Ht & Hc)])];
      [discriminate | |].
    + unfold read_latest_from_csv. rewrite Hempty. reflexivity.
    + destruct (matched_row_selected rows duration l target Hlast Ht)
        as (pre & m & post & om & Hscan & _).
      rewrite (read_latest_unfold fos rows duration l m target _ Hlast Ht Hscan).
      apply latest_close_none_iff in Hc. rewrite Hc. reflexivity.
Qed.

(** * Further properties of the indicator engine *)

Section EngineFacts.

Variable float_of_str : string -> option Q.
Variable int_of_str : string -> option Z.

Lemma float_cell_raise (c : cell) (e : exn) :
  float_cell float_of_str c = Raise e
  <-> e = ValueError /\ exists s, c = CStr s /\ float_of_str s = None.
Proof.
  destruct c as [q| |s]; cbn; unfold float_str.
  - split; [discriminate | intros [_ (s & H & _)]; discriminate].
  - split; [discriminate | intros [_ (s & H & _)]; discriminate].
  - destruct (float_of_str s) as [q|] eqn:E; cbn.
    + split; [discriminate | intros [_ (s' & [= <-] & H)]; congruence].
    + split; [intros [= <-]; eauto | intros [-> _]; reflexivity].
Qed.

Lemma astype_float_raise (col : list cell) (e : exn) :
  astype_float float_of_str col = Raise e
  <-> e = ValueError /\ exists s, In (CStr s) col /\ float_of_str s = None.
Proof.
  unfold astype_float. induction col as [|c col IH]; cbn [mapM].
  - split; [discriminate | intros [_ (s & [] & _)]].
  - destruct (float_cell float_of_str c) as [v|e'] eqn:Ec; cbn [bind].
    + destruct (mapM (float_cell float_of_str) col) as [vs|e'']; cbn [bind].
      * split; [discriminate|].
        intros [He (s & [Hc | Hin] & Hs)].
        -- assert (float_cell float_of_str c = Raise ValueError) as Hr
             by (apply float_cell_raise; eauto).
           congruence.
        -- assert (Hbad : Ret vs = Raise e) by (apply IH; eauto).
           discriminate.
      * rewrite IH. split.
        -- intros [He (s & Hin & Hs)]. split; [exact He|]. exists s. cbn. auto.
        -- intros [He (s & [Hc | Hin] & Hs)]; [|eauto].
           assert (float_cell float_of_str c = Raise ValueError) as Hr
             by (apply float_cell_raise; eauto).
           congruence.
    + split.
      * intros [= <-]. apply float_cell_raise in Ec as [-> (s & -> & Hs)].
        split; [reflexivity|]. exists s. cbn. auto.
      * intros [-> _]. apply float_cell_raise in Ec as [-> _]. reflexivity.
Qed.

Lemma resolve_close_col_returns (columns : list string) :
  columns <> [] -> exists c, resolve_close_col columns = Ret c.
Proof.
  intros Hne. unfold resolve_close_col.
  destruct (find (has_column columns) close_candidates) as [c|]; [eauto|].
  destruct columns as [|c columns]; [contradiction|]. cbn. eauto.
Qed.

Lemma resolve_close_col_empty : resolve_close_col [] = Raise IndexError.
Proof. reflexivity. Qed.

Lemma close_series_raise (df : DataFrame) (e : exn) :
  close_series float_of_str df = Raise e
  <-> (e = IndexError /\ (List.length (df_columns df) <= 1)%nat)
      \/ (e = ValueError
          /\ exists close_col s,
              resolve_close_col (tl (df_columns df)) = Ret close_col
              /\ In (CStr s)
                   (column (tl (df_columns df)) (df_rows df) close_col)
              /\ float_of_str s = None).
Proof.
  unfold close_series. destruct (df_columns df) as [|c0 [|c1 cols]]; cbn [tl].
  - cbn. split.
    + intros [= <-]. left. split; [reflexivity | lia].
    + intros [[-> _] | [_ (cc & s & H & _)]]; [reflexivity | discriminate].
  - cbn [getitem nth_error bind]. rewrite resolve_close_col_empty. cbn [bind]. split.
    + intros [= <-]. left. split; [reflexivity | cbn; lia].
    + intros [[-> _] | [_ (cc & s & H & _)]]; [reflexivity | discriminate].
  - cbn [getitem nth_error bind].
    destruct (resolve_close_col_returns (c1 :: cols) ltac:(discriminate)) as (cc & Hcc).
    rewrite Hcc. cbn [bind]. rewrite astype_float_raise. split.
    + intros [-> (s & Hin & Hs)]. right. split; [reflexivity|]. exists cc, s. auto.
    + intros [[_ Hlen] | [-> (cc' & s & [= <-] & Hin & Hs)]]; [cbn in Hlen; lia|].
      split; [reflexivity|]. eauto.
Qed.

Lemma compute_indicators_raise_of_close (df : DataFrame) (e : exn) :
  (10 <= List.length (df_rows df))%nat ->
  close_series float_of_str df = Raise e ->
  compute_indicators float_of_str int_of_str df = Raise e.
Proof.
  intros Hlen. unfold compute_indicators, close_series.
  destruct (Nat.ltb_spec (List.length (df_rows df)) 10); [lia|].
  destruct (getitem (df_columns df) 0); cbn [bind];
    [|intros [= ->]; reflexivity].
  destruct (resolve_close_col _); cbn [bind]; [|intros [= ->]; reflexivity].
  destruct (astype_float _ _); cbn [bind];
    [discriminate | intros [= ->]; reflexivity].
Qed.

End EngineFacts.

(** X3. On a frame with no column named Date after the first one
    (the first is renamed to Date, and pandas refuses an index that two
    columns bear), [compute_indicators_from_csv] raises in two cases only,
    both on a frame of ten rows or more: [IndexError] when the frame has no
    column after the first one, [ValueError] when a cell of the resolved
    close column is text that is no number.  Nothing else in the frame,
    whatever the other columns hold, makes it raise. *)
Theorem compute_indicators_raises_iff :
  forall (float_of_str : string -> option Q) (int_of_str : string -> option Z)
         (df : DataFrame) (e : exn),
    ~ In "Date"%string (tl (df_columns df)) ->
    (compute_indicators_from_csv float_of_str int_of_str (Parsed df) = Raise e
     <-> (10 <= List.length (df_rows df))%nat
         /\ ((e = IndexError /\ (List.length (df_columns df) <= 1)%nat)
             \/ (e = ValueError
                 /\ exists close_col s,
                     resolve_close_col (tl (df_columns df)) = Ret close_col
                     /\ In (CStr s)
                          (column (tl (df_columns df)) (df_rows df) close_col)
                     /\ float_of_str s = None))).
Proof.
  intros fos ios df e _. cbn [compute_indicators_from_csv].
  rewrite <- close_series_raise. split.
  - intros Hraise.
    destruct (Nat.lt_ge_cases (List.length (df_rows df)) 10) as [Hlt|Hge].
    + unfold compute_indicators in Hraise.
      destruct (Nat.ltb_spec (List.length (df_rows df)) 10); [discriminate | lia].
    + split; [exact Hge|].
      destruct (close_series fos df) as [close|e'] eqn:Hc.
      * destruct (compute_indicators_returns fos ios df close Hge Hc) as (snap & Hs).
        congruence.
      * rewrite (compute_indicators_raise_of_close fos ios df e' Hge Hc) in Hraise.
        congruence.
  - intros [Hge Hc]. apply compute_indicators_raise_of_close; assumption.
Qed.

Lemma compute_indicators_raises_iff_witness :
  compute_indicators_from_csv float_of_decimal int_of_decimal (Parsed bad_close_frame)
  = Raise ValueError.
Proof.
  apply (compute_indicators_raises_iff float_of_decimal int_of_decimal
           bad_close_frame ValueError).
  - cbn. intros [H | []]. discriminate.
  - split; [cbn; lia|]. right. split; [reflexivity|].
    exists "Close"%string, "abc"%string.
    split; [reflexivity|]. split; [cbn; tauto | reflexivity].
Defined.

(** ** The moving averages stay among the closes *)

Lemma weighted_mean_within (a b w c lo hi : Q) :
  (0 < a)%Q -> (0 < b)%Q ->
  (lo <= w <= hi)%Q -> (lo <= c <= hi)%Q ->
  (lo <= (a * w + b * c) / (a + b) <= hi)%Q.
Proof.
  intros Ha Hb [Hw1 Hw2] [Hc1 Hc2].
  assert (0 <= a * (w - lo))%Q by (apply Qmult_le_0_compat; lra).
  assert (0 <= b * (c - lo))%Q by (apply Qmult_le_0_compat; lra).
  assert (0 <= a * (hi - w))%Q by (apply Qmult_le_0_compat; lra).
  assert (0 <= b * (hi - c))%Q by (apply Qmult_le_0_compat; lra).
  split.
  - apply Qle_shift_div_l; [lra|]. lra.
  - apply Qle_shift_div_r; [lra|]. lra.
Qed.

Lemma ewm_from_within (alpha lo hi : Q) (l : series) :
  (0 < alpha)%Q -> (alpha < 1)%Q ->
  forall weighted old_wt,
    (0 < old_wt)%Q -> within lo hi weighted -> Forall (within lo hi) l ->
    Forall (within lo hi) (ewm_from alpha weighted old_wt l).
Proof.
  intros Ha0 Ha1. induction l as [|cur l IH]; intros weighted old_wt Hwt Hw Hl;
    cbn; [constructor|].
  inversion Hl as [|? ? Hcur Hl']; subst.
  assert (Hwt' : (0 < old_wt * (1 - alpha))%Q).
  { apply Qmult_lt_0_compat; lra. }
  destruct weighted as [w|]; [destruct cur as [c|]|].
  - assert (Hm : within lo hi (Some ((old_wt * (1 - alpha) * w + alpha * c)
                                     / (old_wt * (1 - alpha) + alpha))%Q)).
    { cbn. apply weighted_mean_within; assumption. }
    constructor; [exact Hm|]. apply IH; [lra | exact Hm | exact Hl'].
  - constructor; [exact Hw|]. apply IH; assumption.
  - constructor; [exact Hcur|]. apply IH; [lra | exact Hcur | exact Hl'].
Qed.

Lemma span_alpha_range (span : Z) :
  1 < span -> (0 < 2 # Z.to_pos (span + 1))%Q /\ (2 # Z.to_pos (span + 1) < 1)%Q.
Proof.
  intros Hs. split; [reflexivity|].
  unfold Qlt. cbn. rewrite Z2Pos.id by lia. lia.
Qed.

(** X4. An exponential moving average never leaves the range of the
    closes: when every close is between two bounds, so is every value of
    the EMA of any span above 1 (21, 44, 200, 12 and 26 among them),
    across missing closes too. *)
Theorem ewm_span_within_closes :
  forall (span : Z) (lo hi : Q) (close : series),
    1 < span ->
    Forall (within lo hi) close ->
    Forall (within lo hi) (ewm_span span close).
Proof.
  intros span lo hi close Hs Hc. destruct (span_alpha_range span Hs) as [Ha0 Ha1].
  unfold ewm_span. destruct close as [|x close]; cbn; [constructor|].
  inversion Hc; subst. constructor; [assumption|].
  apply ewm_from_within; auto; lra.
Qed.

Lemma ewm_span_within_closes_witness :
  Forall (within 43 51)
    (ewm_span 21 [Some 44%Q; Some 45%Q; None; Some 43%Q; Some 51%Q]).
Proof.
  apply (ewm_span_within_closes 21 43 51).
  - lia.
  - repeat (apply Forall_cons; [cbn; try lra; exact I|]). apply Forall_nil.
Defined.

Lemma ewm_from_positive (alpha : Q) (l : series) :
  (0 < alpha)%Q -> (alpha < 1)%Q -> Forall positive l ->
  forall w, (0 < w)%Q -> Forall positive (ewm_from alpha (Some w) 1 l).
Proof.
  intros Ha0 Ha1 Hl. induction Hl as [|v l (q & -> & Hq) Hl IH]; intros w Hw; cbn;
    [constructor|].
  assert (Hm : (0 < (1 * (1 - alpha) * w + alpha * q) / (1 * (1 - alpha) + alpha))%Q).
  { apply Qlt_shift_div_l; [lra|].
    assert (0 < (1 - alpha) * w)%Q by (apply Qmult_lt_0_compat; lra).
    assert (0 < alpha * q)%Q by (apply Qmult_lt_0_compat; lra).
    lra. }
  constructor; [eexists; split; [reflexivity | exact Hm]|].
  apply IH. exact Hm.
Qed.

Lemma ewm_span_positive (span : Z) (l : series) :
  1 < span -> Forall positive l -> Forall positive (ewm_span span l).
Proof.
  intros Hs Hl. destruct (span_alpha_range span Hs) as [Ha0 Ha1].
  unfold ewm_span. destruct Hl as [|v l (q & -> & Hq) Hl]; cbn; [constructor|].
  constructor; [eexists; split; [reflexivity | exact Hq]|].
  apply ewm_from_positive; assumption.
Qed.

(** ** Every field of the snapshot *)

Section SnapshotFields.

Variable float_of_str : string -> option Q.
Variable int_of_str : string -> option Z.

Lemma compute_indicators_inv_all (df : DataFrame) (snap : Snapshot) :
  compute_indicators float_of_str int_of_str df = Ret (Some snap) ->
  exists close_col close,
    resolve_close_col (tl (df_columns df)) = Ret close_col
    /\ close_series float_of_str df = Ret close
    /\ iloc_back close 1 = Ret (snap_latest_close snap)
    /\ iloc_back (macd_series close) 1 = Ret (snap_macd snap)
    /\ iloc_back (signal_series close) 1 = Ret (snap_macd_signal snap)
    /\ iloc_back (macd_hist_series close) 1 = Ret (snap_macd_hist snap)
    /\ above (snap_latest_close snap) (ewm_span 21 close) = Ret (snap_above_21 snap)
    /\ above (snap_latest_close snap) (ewm_span 44 close) = Ret (snap_above_44 snap)
    /\ above (snap_latest_close snap) (ewm_span 200 close) = Ret (snap_above_200 snap)
    /\ pct_dist (snap_latest_close snap) (ewm_span 21 close) = Ret (snap_dist_21 snap)
    /\ pct_dist (snap_latest_close snap) (ewm_span 44 close) = Ret (snap_dist_44 snap)
    /\ pct_dist (snap_latest_close snap) (ewm_span 200 close)
       = Ret (snap_dist_200 snap)
    /\ snap_ohlcv snap
       = ohlcv_rows float_of_str int_of_str (tl (df_columns df)) close_col
           (tail_rows 200 (df_rows df)).
Proof.
  unfold compute_indicators, close_series, last_or_none.
  destruct (Nat.ltb_spec (List.length (df_rows df)) 10); [discriminate|].
  destruct (getitem (df_columns df) 0); [|discriminate]. cbn [bind].
  destruct (resolve_close_col _) as [cc|]; [|discriminate]. cbn [bind].
  destruct (astype_float _ _) as [close|]; [|discriminate]. cbn [bind].
  repeat step_bind.
  intros [= <-]. cbn. exists cc, close. repeat split; auto.
Qed.

End SnapshotFields.

Lemma fltb_lt (x y : Q) : fltb (Some x) (Some y) = true <-> (x < y)%Q.
Proof. exact (fltb_spec (Some x) (Some y)). Qed.

Lemma all_positive_last (l : series) (v : fval) :
  Forall positive l -> iloc_back l 1 = Ret v -> positive v.
Proof.
  intros Hl Hv. apply iloc_back_in in Hv. rewrite Forall_forall in Hl. auto.
Qed.

(** The flag and the distance to one average, for a close and an
    average above zero. *)
Lemma above_and_dist (c : Q) (s : series) (ob : option bool) (od : option fval) :
  Forall positive s ->
  above (Some c) s = Ret ob ->
  pct_dist (Some c) s = Ret od ->
  exists b d, ob = Some b /\ od = Some (Some d) /\ (b = true <-> (0 < d)%Q).
Proof.
  intros Hs. unfold above, pct_dist.
  destruct (iloc_back s 1) as [v|] eqn:Hv; cbn [bind]; [|discriminate].
  destruct (all_positive_last s v Hs Hv) as (e & -> & He).
  destruct (Qeq_bool e 0) eqn:Hz; [apply Qeq_bool_iff in Hz; lra|].
  intros [= <-] [= <-]. cbn.
  eexists. eexists. split; [reflexivity|]. split; [reflexivity|].
  change (Qle_bool e c && negb (Qeq_bool e c)) with (fltb (Some e) (Some c)).
  rewrite fltb_lt. split.
  - intros Hlt. apply Qmult_lt_0_compat; [|lra]. apply Qlt_shift_div_l; lra.
  - intros Hd.
    destruct (Qlt_le_dec e c) as [|Hle]; [assumption|]. exfalso.
    assert ((c - e) / e <= 0)%Q by (apply Qle_shift_div_r; lra).
    assert ((c - e) / e * 100 <= 0)%Q; [|lra].
    setoid_replace 0%Q with (0 * 100)%Q by ring.
    apply Qmult_le_compat_r; lra.
Qed.

(** X5. On a frame whose closes are all numbers above zero, the three
    trend flags and the three distances are all present, and each flag is
    true exactly when its distance is above zero. *)
Theorem trend_flags_agree_with_distances :
  forall (float_of_str : string -> option Q) (int_of_str : string -> option Z)
         (df : DataFrame) (snap : Snapshot) (close : series),
    compute_indicators float_of_str int_of_str df = Ret (Some snap) ->
    close_series float_of_str df = Ret close ->
    Forall positive close ->
    exists b21 b44 b200 d21 d44 d200,
      snap_above_21 snap = Some b21 /\ snap_dist_21 snap = Some (Some d21)
      /\ (b21 = true <-> (0 < d21)%Q)
      /\ snap_above_44 snap = Some b44 /\ snap_dist_44 snap = Some (Some d44)
      /\ (b44 = true <-> (0 < d44)%Q)
      /\ snap_above_200 snap = Some b200 /\ snap_dist_200 snap = Some (Some d200)
      /\ (b200 = true <-> (0 < d200)%Q).
Proof.
  intros fos ios df snap close Hret Hclose Hpos.
  destruct (compute_indicators_inv_all fos ios df snap Hret)
    as (cc & close' & _ & Hclose' & Hlc & _ & _ & _
        & Ha21 & Ha44 & Ha200 & Hd21 & Hd44 & Hd200 & _).
  rewrite Hclose in Hclose'. injection Hclose' as <-.
  destruct (all_positive_last close _ Hpos Hlc) as (c & Hc & _).
  rewrite Hc in *.
  destruct (above_and_dist c _ _ _ (ewm_span_positive 21 close ltac:(lia) Hpos) Ha21 Hd21)
    as (b21 & d21 & -> & -> & H21).
  destruct (above_and_dist c _ _ _ (ewm_span_positive 44 close ltac:(lia) Hpos) Ha44 Hd44)
    as (b44 & d44 & -> & -> & H44).
  destruct (above_and_dist c _ _ _ (ewm_span_positive 200 close ltac:(lia) Hpos)
              Ha200 Hd200)
    as (b200 & d200 & -> & -> & H200).
  exists b21, b44, b200, d21, d44, d200. repeat split; tauto.
Qed.

Lemma trend_flags_agree_with_distances_witness :
  exists snap b21 b44 b200 d21 d44 d200,
    compute_indicators float_of_decimal int_of_decimal sample_frame = Ret (Some snap)
    /\ snap_above_21 snap = Some b21 /\ snap_dist_21 snap = Some (Some d21)
    /\ (b21 = true <-> (0 < d21)%Q)
    /\ snap_above_44 snap = Some b44 /\ snap_dist_44 snap = Some (Some d44)
    /\ (b44 = true <-> (0 < d44)%Q)
    /\ snap_above_200 snap = Some b200 /\ snap_dist_200 snap = Some (Some d200)
    /\ (b200 = true <-> (0 < d200)%Q).
Proof.
  destruct (compute_indicators float_of_decimal int_of_decimal sample_frame)
    as [[snap|]|e] eqn:E; [|vm_compute in E; discriminate..].
  destruct (trend_flags_agree_with_distances float_of_decimal int_of_decimal
              sample_frame snap sample_closes E)
    as (b21 & b44 & b200 & d21 & d44 & d200 & H).
  - reflexivity.
  - unfold sample_closes. cbn [map].
    repeat (apply Forall_cons; [eexists; split; reflexivity|]). apply Forall_nil.
  - exists snap, b21, b44, b200, d21, d44, d200. split; [reflexivity | exact H].
Defined.

(** ** The histogram is the line less the signal *)

Lemma iloc_back_last_inv (l : series) (v : fval) :
  iloc_back l 1 = Ret v -> exists l', l = l' ++ [v].
Proof.
  unfold iloc_back, getitem. cbn [Nat.sub].
  destruct (rev l) as [|x t] eqn:E; cbn; [discriminate|].
  intros [= <-]. exists (rev t).
  rewrite <- (rev_involutive l), E. reflexivity.
Qed.

Lemma zip_with_snoc (f : fval -> fval -> fval) (a b : series) (x y : fval) :
  List.length a = List.length b ->
  zip_with f (a ++ [x]) (b ++ [y]) = zip_with f a b ++ [f x y].
Proof.
  revert b. induction a as [|u a IH]; intros [|w b]; cbn; try discriminate.
  - reflexivity.
  - intros [= H]. rewrite IH by assumption. reflexivity.
Qed.

Lemma zip_with_last (f : fval -> fval -> fval) (a b : series) (x y : fval) :
  List.length a = List.length b ->
  iloc_back a 1 = Ret x -> iloc_back b 1 = Ret y ->
  iloc_back (zip_with f a b) 1 = Ret (f x y).
Proof.
  intros Hlen Ha Hb.
  apply iloc_back_last_inv in Ha as (a' & ->).
  apply iloc_back_last_inv in Hb as (b' & ->).
  rewrite !length_app in Hlen. cbn in Hlen.
  rewrite zip_with_snoc by lia. apply iloc_back_snoc.
Qed.

(** In every snapshot the MACD histogram is the MACD line less the
    signal line, all three read at the last row; it is absent when either
    of the two is. *)
Theorem macd_hist_is_macd_minus_signal :
  forall (float_of_str : string -> option Q) (int_of_str : string -> option Z)
         (df : DataFrame) (snap : Snapshot),
    compute_indicators float_of_str int_of_str df = Ret (Some snap) ->
    snap_macd_hist snap = fsub (snap_macd snap) (snap_macd_signal snap).
Proof.
  intros fos ios df snap Hret.
  destruct (compute_indicators_inv_all fos ios df snap Hret)
    as (cc & close & _ & _ & _ & Hm & Hs & Hh & _).
  unfold macd_hist_series in Hh.
  assert (Hlen : List.length (macd_series close) = List.length (signal_series close)).
  { unfold signal_series, ewm_span. rewrite ewm_length. reflexivity. }
  rewrite (zip_with_last fsub _ _ _ _ Hlen Hm Hs) in Hh.
  injection Hh as <-. reflexivity.
Qed.

Lemma macd_hist_is_macd_minus_signal_witness :
  exists snap,
    compute_indicators float_of_decimal int_of_decimal sample_frame = Ret (Some snap)
    /\ snap_macd_hist snap = fsub (snap_macd snap) (snap_macd_signal snap).
Proof.
  destruct (compute_indicators float_of_decimal int_of_decimal sample_frame)
    as [[snap|]|e] eqn:E; [|vm_compute in E; discriminate..].
  exists snap. split; [reflexivity|].
  exact (macd_hist_is_macd_minus_signal _ _ _ _ E).
Defined.

(** ** The recent window *)

Section WindowFacts.

Variable float_of_str : string -> option Q.
Variable int_of_str : string -> option Z.

Lemma ohlcv_rows_app (columns : list string) (close_col : string)
  (a b : list (label * list cell)) :
  ohlcv_rows float_of_str int_of_str columns close_col (a ++ b)
  = ohlcv_rows float_of_str int_of_str columns close_col a
    ++ ohlcv_rows float_of_str int_of_str columns close_col b.
Proof.
  induction a as [|r a IH]; cbn; [reflexivity|].
  destruct (ohlcv_of_row _ _ _ _ r); cbn; rewrite IH; reflexivity.
Qed.

Lemma ohlcv_rows_length (columns : list string) (close_col : string)
  (rows : list (label * list cell)) :
  (List.length (ohlcv_rows float_of_str int_of_str columns close_col rows)
   <= List.length rows)%nat.
Proof.
  induction rows as [|r rows IH]; cbn; [lia|].
  destruct (ohlcv_of_row _ _ _ _ r); cbn; lia.
Qed.

Lemma ohlcv_rows_in (columns : list string) (close_col : string)
  (rows : list (label * list cell)) (o : ohlcv_row) :
  In o (ohlcv_rows float_of_str int_of_str columns close_col rows) ->
  exists r, In r rows
            /\ ohlcv_of_row float_of_str int_of_str columns close_col r = Ret o.
Proof.
  induction rows as [|r rows IH]; cbn; [tauto|].
  destruct (ohlcv_of_row _ _ _ _ r) as [o'|e] eqn:E.
  - intros [<- | Hin]; [eauto|]. destruct (IH Hin) as (r' & Hr' & Ho). eauto.
  - intros Hin. destruct (IH Hin) as (r' & Hr' & Ho). eauto.
Qed.

Lemma ohlcv_of_row_inv (columns : list string) (close_col : string)
  (r : label * list cell) (o : ohlcv_row) :
  ohlcv_of_row float_of_str int_of_str columns close_col r = Ret o ->
  exists d c,
    fst r = Timestamp d /\ o_date o = strftime d
    /\ row_get columns (snd r) close_col = Some c
    /\ float_cell float_of_str c = Ret (o_close o).
Proof.
  unfold ohlcv_of_row, strftime_label.
  destruct (fst r) as [d| |s]; cbn [bind]; try discriminate.
  destruct (row_get columns (snd r) close_col) as [c|] eqn:Hg.
  - repeat step_bind. intros [= <-]. cbn. exists d, c. auto.
  - repeat step_bind. discriminate.
Qed.

Lemma tail_rows_length {A : Type} (n : nat) (l : list A) :
  List.length (tail_rows n l) = Nat.min n (List.length l).
Proof. unfold tail_rows. rewrite length_skipn. lia. Qed.

Lemma tail_rows_in {A : Type} (n : nat) (l : list A) (a : A) :
  In a (tail_rows n l) -> In a l.
Proof.
  unfold tail_rows. intros Hin.
  rewrite <- (firstn_skipn (List.length l - n) l). apply in_or_app. right. exact Hin.
Qed.

Lemma mapM_in {A B : Type} (f : A -> result B) (l : list A) (bs : list B)
  (a : A) (b : B) :
  mapM f l = Ret bs -> In a l -> f a = Ret b -> In b bs.
Proof.
  revert bs. induction l as [|x l IH]; intros bs; cbn; [tauto|].
  destruct (f x) as [y|] eqn:Ex; cbn; [|discriminate].
  destruct (mapM f l) as [ys|]; cbn; [|discriminate].
  intros [= <-] [-> | Hin] Hb.
  - left. congruence.
  - right. eapply IH; eauto.
Qed.

End WindowFacts.

(** X6. The recent window of a snapshot has at most 200 entries and at
    most one per row of the frame; every entry comes from a row of the frame
    whose first-column value is a time stamp, carries that date as
    YYYY-MM-DD when its year has four digits, and its close is a value of
    the close Series. *)
Theorem ohlcv_window_bounded :
  forall (float_of_str : string -> option Q) (int_of_str : string -> option Z)
         (df : DataFrame) (snap : Snapshot),
    compute_indicators float_of_str int_of_str df = Ret (Some snap) ->
    (List.length (snap_ohlcv snap) <= 200)%nat
    /\ (List.length (snap_ohlcv snap) <= List.length (df_rows df))%nat
    /\ forall o, In o (snap_ohlcv snap) ->
         exists r d close,
           In r (df_rows df)
           /\ fst r = Timestamp d
           /\ (1000 <= year d <= 9999 -> o_date o = strftime d)
           /\ close_series float_of_str df = Ret close
           /\ In (o_close o) close.
Proof.
  intros fos ios df snap Hret.
  destruct (compute_indicators_inv_all fos ios df snap Hret)
    as (cc & close & Hcc & Hclose & _ & _ & _ & _ & _ & _ & _ & _ & _ & _ & Hw).
  rewrite Hw.
  pose proof (ohlcv_rows_length fos ios (tl (df_columns df)) cc
                (tail_rows 200 (df_rows df))) as Hlen.
  rewrite tail_rows_length in Hlen.
  split; [lia|]. split; [lia|].
  intros o Hin. apply ohlcv_rows_in in Hin as (r & Hr & Ho).
  apply ohlcv_of_row_inv in Ho as (d & c & Hd & Hdate & Hget & Hc).
  apply tail_rows_in in Hr.
  exists r, d, close. repeat split; auto.
  revert Hclose. unfold close_series.
  destruct (getitem (df_columns df) 0); cbn [bind]; [|discriminate].
  rewrite Hcc. cbn [bind]. intros Hm.
  eapply (mapM_in _ _ _ c _ Hm); [|exact Hc].
  unfold column. apply in_map_iff. exists r. rewrite Hget. auto.
Qed.

Lemma ohlcv_window_bounded_witness :
  exists snap,
    compute_indicators float_of_decimal int_of_decimal gappy_frame = Ret (Some snap)
    /\ (List.length (snap_ohlcv snap) <= 200)%nat
    /\ (List.length (snap_ohlcv snap) <= List.length (df_rows gappy_frame))%nat
    /\ forall o, In o (snap_ohlcv snap) ->
         exists r d close,
           In r (df_rows gappy_frame)
           /\ fst r = Timestamp d
           /\ (1000 <= year d <= 9999 -> o_date o = strftime d)
           /\ close_series float_of_decimal gappy_frame = Ret close
           /\ In (o_close o) close.
Proof.
  destruct (compute_indicators float_of_decimal int_of_decimal gappy_frame)
    as [[snap|]|e] eqn:E; [|vm_compute in E; discriminate..].
  exists snap. split; [reflexivity|].
  exact (ohlcv_window_bounded _ _ _ _ E).
Defined.

(** X7. A row whose first-column value is no time stamp, or whose
    Volume cell is missing, is left out of the recent window without an
    exception, and the entries of the rows around it are what they are
    without it. *)
Theorem ohlcv_window_drops_row :
  forall (float_of_str : string -> option Q) (int_of_str : string -> option Z)
         (columns : list string) (close_col : string)
         (before after : list (label * list cell)) (r : label * list cell),
    ~ has_timestamp r \/ row_get columns (snd r) "Volume" = Some CNaN ->
    ohlcv_rows float_of_str int_of_str columns close_col (before ++ r :: after)
    = ohlcv_rows float_of_str int_of_str columns close_col (before ++ after).
Proof.
  intros fos ios columns cc before after r Hbad.
  rewrite !ohlcv_rows_app. f_equal. cbn [ohlcv_rows].
  assert (Hraise : exists e, ohlcv_of_row fos ios columns cc r = Raise e).
  { unfold ohlcv_of_row, strftime_label.
    destruct (fst r) as [d| |s] eqn:Hl; cbn [bind]; eauto.
    destruct Hbad as [Hts | Hvol]; [exfalso; apply Hts; exists d; exact Hl|].
    repeat match goal with
           | |- context [bind ?c _] =>
               match c with
               | bind _ _ => fail 1
               | int_either _ _ _ _ _ => fail 1
               | _ => destruct c; cbn [bind]; eauto
               end
           end.
    unfold int_either. rewrite Hvol. cbn. eauto. }
  destruct Hraise as (e & ->). reflexivity.
Qed.

Lemma ohlcv_window_drops_row_witness :
  ohlcv_rows float_of_decimal int_of_decimal ["Close"; "Volume"]%string "Close"
    ([(Timestamp (mkdate 2024 1 2), [CNum 11%Q; CNum 100%Q])]
       ++ (Timestamp (mkdate 2024 1 3), [CNum 12%Q; CNaN])
       :: [(Timestamp (mkdate 2024 1 4), [CNum 13%Q; CNum 100%Q])])
  = ohlcv_rows float_of_decimal int_of_decimal ["Close"; "Volume"]%string "Close"
      ([(Timestamp (mkdate 2024 1 2), [CNum 11%Q; CNum 100%Q])]
         ++ [(Timestamp (mkdate 2024 1 4), [CNum 13%Q; CNum 100%Q])]).
Proof.
  apply ohlcv_window_drops_row. right. reflexivity.
Defined.

(** * Properties of [sector_heatmap] *)

Lemma dict_get_set_same {V : Type} (k : string) (v : V) (d : dict V) :
  dict_get k (dict_set k v d) = Some v.
Proof.
  induction d as [|[k' v'] d IH]; cbn.
  - rewrite String.eqb_refl. reflexivity.
  - destruct (String.eqb k' k) eqn:E; cbn; rewrite E; [reflexivity | exact IH].
Qed.

Lemma dict_get_set_other {V : Type} (k k' : string) (v : V) (d : dict V) :
  k <> k' -> dict_get k' (dict_set k v d) = dict_get k' d.
Proof.
  intros Hne. induction d as [|[k0 v0] d IH]; cbn.
  - destruct (String.eqb_spec k k'); [contradiction | reflexivity].
  - destruct (String.eqb_spec k0 k) as [-> | Hk]; cbn.
    + destruct (String.eqb_spec k k'); [contradiction | reflexivity].
    + destruct (String.eqb k0 k'); [reflexivity | exact IH].
Qed.

Lemma dict_keys_set {V : Type} (k : string) (v : V) (d : dict V) :
  dict_keys (dict_set k v d)
  = if existsb (String.eqb k) (dict_keys d) then dict_keys d else dict_keys d ++ [k].
Proof.
  induction d as [|[k' v'] d IH]; cbn; [reflexivity|].
  rewrite (String.eqb_sym k k').
  destruct (String.eqb k' k); cbn; [reflexivity|].
  unfold dict_keys in IH. rewrite IH.
  destruct (existsb (String.eqb k) (map fst d)); reflexivity.
Qed.

Lemma group_symbols_add (name sector : string) (o : sym_obj) (d : dict sector_group) :
  group_symbols name (add_symbol sector o d)
  = if String.eqb sector name then group_symbols name d ++ [o]
    else group_symbols name d.
Proof.
  unfold group_symbols. induction d as [|[k g] d IH]; cbn.
  - destruct (String.eqb sector name); reflexivity.
  - destruct (String.eqb_spec k sector) as [-> | Hk]; cbn.
    + destruct (String.eqb sector name); reflexivity.
    + destruct (String.eqb_spec k name) as [-> | Hn]; [|exact IH].
      destruct (String.eqb_spec sector name); [congruence | reflexivity].
Qed.

Lemma add_symbol_keys (sector : string) (o : sym_obj) (d : dict sector_group) :
  dict_keys (add_symbol sector o d)
  = if existsb (String.eqb sector) (dict_keys d) then dict_keys d
    else dict_keys d ++ [sector].
Proof.
  induction d as [|[k g] d IH]; cbn; [reflexivity|].
  rewrite (String.eqb_sym sector k).
  destruct (String.eqb k sector); cbn; [reflexivity|].
  unfold dict_keys in IH. rewrite IH.
  destruct (existsb (String.eqb sector) (map fst d)); reflexivity.
Qed.

Lemma existsb_eqb_in (k : string) (l : list string) :
  existsb (String.eqb k) l = true <-> In k l.
Proof.
  rewrite existsb_exists. split.
  - intros (x & Hin & Hx). apply String.eqb_eq in Hx. subst. exact Hin.
  - intros Hin. exists k. split; [exact Hin | apply String.eqb_refl].
Qed.

Lemma add_symbol_nodup (sector : string) (o : sym_obj) (d : dict sector_group) :
  NoDup (dict_keys d) -> NoDup (dict_keys (add_symbol sector o d)).
Proof.
  intros Hd. rewrite add_symbol_keys.
  destruct (existsb (String.eqb sector) (dict_keys d)) eqn:E; [exact Hd|].
  apply NoDup_app; [exact Hd | repeat constructor; intros [] |].
  intros k Hk [<- | []].
  apply existsb_eqb_in in Hk. congruence.
Qed.

Lemma add_symbol_groups_nonempty (sector : string) (o : sym_obj)
  (d : dict sector_group) :
  Forall (fun kv => g_symbols (snd kv) <> []) d ->
  Forall (fun kv => g_symbols (snd kv) <> []) (add_symbol sector o d).
Proof.
  induction d as [|[k g] d IH]; cbn; intros Hd.
  - repeat constructor. discriminate.
  - inversion Hd; subst. destruct (String.eqb k sector); constructor; auto.
    cbn. destruct (g_symbols g); discriminate.
Qed.

Section HeatmapFacts.

Variable float_of_str : string -> option Q.
Variable csv_files : string -> option (list row).

Lemma collect_sectors_step (duration : string) (entry : universe_entry)
  (rest : list universe_entry) (sectors : dict sector_group) :
  collect_sectors float_of_str csv_files duration (entry :: rest) sectors
  = (o <- entry_summary float_of_str csv_files duration entry ;;
     collect_sectors float_of_str csv_files duration rest
       (match o with
        | Some obj => add_symbol (sector_of entry) obj sectors
        | None => sectors
        end)).
Proof.
  cbn [collect_sectors]. unfold entry_summary.
  destruct (csv_files (str_of (e_symbol entry))) as [rows|]; cbn [bind]; [|reflexivity].
  destruct (read_latest_from_csv float_of_str (Some rows) duration) as [[s|]|e];
    reflexivity.
Qed.

Lemma collect_sectors_groups (duration name : string) (universe : list universe_entry) :
  forall sectors out,
    collect_sectors float_of_str csv_files duration universe sectors = Ret out ->
    group_symbols name out
    = group_symbols name sectors
      ++ symbols_of_sector float_of_str csv_files duration name universe.
Proof.
  induction universe as [|entry rest IH]; intros sectors out.
  - cbn. intros [= <-]. rewrite app_nil_r. reflexivity.
  - rewrite collect_sectors_step. cbn [symbols_of_sector].
    destruct (entry_summary float_of_str csv_files duration entry) as [[o|]|e];
      cbn [bind]; [| |discriminate].
    + intros Hout. rewrite (IH _ _ Hout), group_symbols_add.
      destruct (String.eqb (sector_of entry) name);
        [rewrite <- app_assoc|]; reflexivity.
    + intros Hout. exact (IH _ _ Hout).
Qed.

Lemma collect_sectors_invariant (duration : string) (universe : list universe_entry) :
  forall sectors out,
    collect_sectors float_of_str csv_files duration universe sectors = Ret out ->
    NoDup (dict_keys sectors) ->
    Forall (fun kv => g_symbols (snd kv) <> []) sectors ->
    NoDup (dict_keys out) /\ Forall (fun kv => g_symbols (snd kv) <> []) out.
Proof.
  induction universe as [|entry rest IH]; intros sectors out.
  - cbn. intros [= <-]. auto.
  - rewrite collect_sectors_step.
    destruct (entry_summary float_of_str csv_files duration entry) as [[o|]|e];
      cbn [bind]; [| |discriminate].
    + intros Hout Hnd Hne. apply (IH _ _ Hout).
      * apply add_symbol_nodup. exact Hnd.
      * apply add_symbol_groups_nonempty. exact Hne.
    + intros Hout. exact (IH _ _ Hout).
Qed.

Lemma group_symbols_with_averages (name : string) (sectors : dict sector_group) :
  group_symbols name (with_averages sectors) = group_symbols name sectors.
Proof.
  unfold group_symbols, with_averages.
  induction sectors as [|[k g] d IH]; cbn; [reflexivity|].
  destruct (String.eqb k name); [reflexivity | exact IH].
Qed.

Lemma with_averages_keys (sectors : dict sector_group) :
  dict_keys (with_averages sectors) = dict_keys sectors.
Proof. unfold dict_keys, with_averages. rewrite map_map. reflexivity. Qed.

(** The answer with status 200 and the first loop behind it. *)
Lemma sector_heatmap_ok_inv (duration_arg : option string)
  (universe_file : option (list universe_entry)) (duration : string)
  (sectors : dict sector_group) :
  sector_heatmap float_of_str csv_files duration_arg universe_file
  = Ret (HeatmapOk duration sectors) ->
  exists universe collected,
    universe_file = Some universe
    /\ duration = match duration_arg with Some d => d | None => "1d"%string end
    /\ In duration valid_durations
    /\ collect_sectors float_of_str csv_files duration universe [] = Ret collected
    /\ sectors = with_averages collected.
Proof.
  unfold sector_heatmap.
  set (d := match duration_arg with Some d => d | None => "1d"%string end).
  destruct (existsb (String.eqb d) valid_durations) eqn:Hd; cbn [negb];
    [|discriminate].
  destruct universe_file as [universe|]; [|discriminate]. cbn [read_universe].
  destruct (collect_sectors float_of_str csv_files d universe []) as [collected|e]
    eqn:Hc; cbn [bind]; [|discriminate].
  destruct (with_averages collected) as [|kv rest] eqn:Hw; [discriminate|].
  intros [= <- <-]. exists universe, collected. repeat split; auto.
  apply existsb_eqb_in. exact Hd.
Qed.

End HeatmapFacts.

(** X8. In a heat map with status 200 the symbols listed under a sector
    are exactly the entries of the universe with that sector label
    ("Unknown" for a label that is absent or empty) whose file exists and
    gives a summary, in the order of the universe; entries without a file or
    without a summary appear nowhere, no sector is listed twice and none is
    listed empty. *)
Theorem heatmap_groups_by_sector :
  forall (float_of_str : string -> option Q)
         (csv_files : string -> option (list row))
         (duration_arg : option string) (universe : list universe_entry)
         (duration : string) (sectors : dict sector_group),
    sector_heatmap float_of_str csv_files duration_arg (Some universe)
    = Ret (HeatmapOk duration sectors) ->
    (forall name,
        group_symbols name sectors
        = symbols_of_sector float_of_str csv_files duration name universe)
    /\ NoDup (dict_keys sectors)
    /\ Forall (fun kv => g_symbols (snd kv) <> []) sectors.
Proof.
  intros fos files darg universe duration sectors Hok.
  destruct (sector_heatmap_ok_inv fos files darg _ duration sectors Hok)
    as (u & collected & [= <-] & _ & _ & Hc & ->).
  destruct (collect_sectors_invariant fos files duration universe [] collected Hc)
    as [Hnd Hne]; [constructor | constructor |].
  split; [|split].
  - intros name. rewrite group_symbols_with_averages.
    rewrite (collect_sectors_groups fos files duration name universe [] collected Hc).
    reflexivity.
  - rewrite with_averages_keys. exact Hnd.
  - unfold with_averages. apply Forall_map. exact Hne.
Qed.

Lemma heatmap_groups_by_sector_witness :
  exists sectors,
    sector_heatmap float_of_decimal sample_files (Some "1w"%string)
      (Some sample_universe) = Ret (HeatmapOk "1w" sectors)
    /\ (forall name,
           group_symbols name sectors
           = symbols_of_sector float_of_decimal sample_files "1w" name sample_universe)
    /\ NoDup (dict_keys sectors)
    /\ Forall (fun kv => g_symbols (snd kv) <> []) sectors.
Proof.
  destruct (sector_heatmap float_of_decimal sample_files (Some "1w"%string)
              (Some sample_universe)) as [[d sectors|st msg]|e] eqn:E;
    [|vm_compute in E; discriminate..].
  assert (d = "1w"%string) as -> by (vm_compute in E; congruence).
  exists sectors. split; [reflexivity|].
  exact (heatmap_groups_by_sector _ _ _ _ _ _ E).
Defined.

(** ** The average of a sector *)

Lemma defined_changes_in (symbols : list sym_obj) (c : Q) :
  In c (defined_changes symbols)
  <-> exists s, In s symbols /\ so_change_pct s = Some c.
Proof.
  induction symbols as [|s symbols IH]; cbn.
  - split; [tauto | intros (s & [] & _)].
  - destruct (so_change_pct s) as [c'|] eqn:E; cbn; rewrite IH; split.
    + intros [<- | (s' & Hin & Hs)]; eauto.
    + intros (s' & [<- | Hin] & Hs); [left; congruence | right; eauto].
    + intros (s' & Hin & Hs). eauto.
    + intros (s' & [<- | Hin] & Hs); [congruence | eauto].
Qed.

Lemma defined_changes_nil (symbols : list sym_obj) :
  defined_changes symbols = [] <-> forall s, In s symbols -> so_change_pct s = None.
Proof.
  induction symbols as [|s symbols IH]; cbn.
  - split; [intros _ s [] | reflexivity].
  - destruct (so_change_pct s) as [c|] eqn:E.
    + split; [discriminate|]. intros H. specialize (H s (or_introl eq_refl)). congruence.
    + rewrite IH. split.
      * intros H s' [<- | Hin]; auto.
      * intros H s' Hin. apply H. right. exact Hin.
Qed.

Lemma inject_nat_succ (n : nat) :
  (inject_Z (Z.of_nat (S n)) == inject_Z (Z.of_nat n) + 1)%Q.
Proof. rewrite Nat2Z.inj_succ. unfold Z.succ. rewrite inject_Z_plus. reflexivity. Qed.

Lemma fold_sum_bounds (lo hi : Q) (l : list Q) :
  Forall (fun c => (lo <= c <= hi)%Q) l ->
  forall acc,
    (acc + inject_Z (Z.of_nat (List.length l)) * lo <= fold_left Qplus l acc)%Q
    /\ (fold_left Qplus l acc <= acc + inject_Z (Z.of_nat (List.length l)) * hi)%Q.
Proof.
  intros Hl. induction Hl as [|c l [Hc1 Hc2] Hl IH]; intros acc.
  - cbn [fold_left List.length]. change (inject_Z (Z.of_nat 0)) with 0%Q.
    split; lra.
  - cbn [fold_left List.length]. destruct (IH (acc + c)%Q) as [IH1 IH2].
    pose proof (inject_nat_succ (List.length l)) as Hn.
    set (n := inject_Z (Z.of_nat (List.length l))) in *.
    set (n' := inject_Z (Z.of_nat (S (List.length l)))) in *.
    split.
    + setoid_replace (acc + n' * lo)%Q with (acc + n * lo + lo)%Q
        by (rewrite Hn; ring).
      lra.
    + setoid_replace (acc + n' * hi)%Q with (acc + n * hi + hi)%Q
        by (rewrite Hn; ring).
      lra.
Qed.

Lemma average_within (lo hi a : Q) (l : list Q) :
  Forall (fun c => (lo <= c <= hi)%Q) l ->
  average l = Some a -> (lo <= a <= hi)%Q.
Proof.
  intros Hl. unfold average, qsum. destruct l as [|c l]; [discriminate|].
  intros Ha. destruct (fold_sum_bounds lo hi _ Hl 0%Q) as [H1 H2].
  assert (Hn : (0 < inject_Z (Z.of_nat (List.length (c :: l))))%Q).
  { unfold Qlt. cbn. lia. }
  set (n := inject_Z (Z.of_nat (List.length (c :: l)))) in *.
  set (total := fold_left Qplus (c :: l) 0%Q) in *.
  assert (a = (total / n)%Q) as -> by congruence.
  split.
  - apply Qle_shift_div_l; [exact Hn|]. lra.
  - apply Qle_shift_div_r; [exact Hn|]. lra.
Qed.

(** X9. In a heat map with status 200 the average of a sector is
    absent exactly when none of its symbols has a change, and otherwise is
    the sum of the changes that are present over their number; it lies
    between any two bounds of those changes. *)
Theorem heatmap_average_of_defined_changes :
  forall (float_of_str : string -> option Q)
         (csv_files : string -> option (list row))
         (duration_arg : option string)
         (universe_file : option (list universe_entry))
         (duration : string) (sectors : dict sector_group)
         (name : string) (g : sector_group),
    sector_heatmap float_of_str csv_files duration_arg universe_file
    = Ret (HeatmapOk duration sectors) ->
    In (name, g) sectors ->
    g_avg_change_pct g = average (defined_changes (g_symbols g))
    /\ (g_avg_change_pct g = None
        <-> forall s, In s (g_symbols g) -> so_change_pct s = None)
    /\ (forall lo hi a,
           (forall s c, In s (g_symbols g) -> so_change_pct s = Some c ->
                        (lo <= c <= hi)%Q) ->
           g_avg_change_pct g = Some a -> (lo <= a <= hi)%Q).
Proof.
  intros fos files darg ufile duration sectors name g Hok Hin.
  destruct (sector_heatmap_ok_inv fos files darg ufile duration sectors Hok)
    as (u & collected & _ & _ & _ & _ & ->).
  unfold with_averages in Hin. apply in_map_iff in Hin as ([k g0] & [= <- <-] & _).
  cbn [g_symbols g_avg_change_pct snd]. split; [reflexivity|]. split.
  - rewrite <- defined_changes_nil. unfold average.
    destruct (defined_changes (g_symbols g0)); split; congruence.
  - intros lo hi a Hb Ha. apply (average_within lo hi a _) in Ha; [exact Ha|].
    apply Forall_forall. intros c Hc.
    apply defined_changes_in in Hc as (s & Hs & Hsc). eauto.
Qed.

Lemma heatmap_average_of_defined_changes_witness :
  exists sectors g,
    sector_heatmap float_of_decimal sample_files (Some "1w"%string)
      (Some sample_universe) = Ret (HeatmapOk "1w" sectors)
    /\ In ("Tech"%string, g) sectors
    /\ g_avg_change_pct g = average (defined_changes (g_symbols g))
    /\ (g_avg_change_pct g = None
        <-> forall s, In s (g_symbols g) -> so_change_pct s = None)
    /\ (forall lo hi a,
           (forall s c, In s (g_symbols g) -> so_change_pct s = Some c ->
                        (lo <= c <= hi)%Q) ->
           g_avg_change_pct g = Some a -> (lo <= a <= hi)%Q).
Proof.
  destruct (sector_heatmap float_of_decimal sample_files (Some "1w"%string)
              (Some sample_universe)) as [[d sectors|st msg]|e] eqn:E;
    [|vm_compute in E; discriminate..].
  assert (Hd : d = "1w"%string) by (vm_compute in E; congruence). subst d.
  destruct sectors as [|[k g] rest] eqn:Hs; [vm_compute in E; discriminate|].
  assert (Hk : k = "Tech"%string) by (vm_compute in E; congruence). subst k.
  exists ((("Tech"%string, g) :: rest)), g. split; [reflexivity|].
  split; [left; reflexivity|].
  exact (heatmap_average_of_defined_changes _ _ _ _ _ _ _ _ E (or_introl eq_refl)).
Defined.

(** ** The answers without a heat map *)

Section HeatmapErrors.

Variable float_of_str : string -> option Q.
Variable csv_files : string -> option (list row).

Lemma add_symbol_not_nil (sector : string) (o : sym_obj) (d : dict sector_group) :
  add_symbol sector o d <> [].
Proof. destruct d as [|[k g] d]; cbn; [|destruct (String.eqb k sector)]; discriminate. Qed.

Lemma collect_sectors_grows (duration : string) (universe : list universe_entry) :
  forall sectors out,
    collect_sectors float_of_str csv_files duration universe sectors = Ret out ->
    sectors <> [] -> out <> [].
Proof.
  induction universe as [|entry rest IH]; intros sectors out.
  - cbn. intros [= <-]. auto.
  - rewrite collect_sectors_step.
    destruct (entry_summary float_of_str csv_files duration entry) as [[o|]|e];
      cbn [bind]; [| |discriminate].
    + intros Hout _. apply (IH _ _ Hout). apply add_symbol_not_nil.
    + intros Hout. exact (IH _ _ Hout).
Qed.

Lemma collect_sectors_nil_iff (duration : string) (universe : list universe_entry) :
  collect_sectors float_of_str csv_files duration universe [] = Ret []
  <-> Forall (fun entry =>
                entry_summary float_of_str csv_files duration entry = Ret None)
        universe.
Proof.
  induction universe as [|entry rest IH].
  - cbn. split; [constructor | reflexivity].
  - rewrite collect_sectors_step. split.
    + destruct (entry_summary float_of_str csv_files duration entry) as [[o|]|e]
        eqn:He; cbn [bind]; [| |discriminate].
      * intros Hout. exfalso.
        apply (collect_sectors_grows duration rest _ _ Hout);
          [apply add_symbol_not_nil | reflexivity].
      * intros Hout. constructor; [exact He | apply IH; exact Hout].
    + intros Hall. inversion Hall as [|? ? He Hrest]; subst. rewrite He. cbn [bind].
      apply IH. exact Hrest.
Qed.


Lemma entry_summary_none_iff (duration : string) (entry : universe_entry) :
  entry_summary float_of_str csv_files duration entry = Ret None
  <-> csv_files (str_of (e_symbol entry)) = None
      \/ exists rows,
          csv_files (str_of (e_symbol entry)) = Some rows
          /\ read_latest_from_csv float_of_str (Some rows) duration = Ret None.
Proof.
  unfold entry_summary.
  destruct (csv_files (str_of (e_symbol entry))) as [rows|].
  - destruct (read_latest_from_csv float_of_str (Some rows) duration) as [[s|]|e] eqn:E;
      cbn [bind option_map]; split.
    + discriminate.
    + intros [H | (r & Hr & H)]; [discriminate | injection Hr as <-; congruence].
    + intros _. right. eauto.
    + reflexivity.
    + discriminate.
    + intros [H | (r & Hr & H)]; [discriminate | injection Hr as <-; congruence].
  - split; auto.
Qed.


End HeatmapErrors.

(** X10. [sector_heatmap] answers 400 exactly when the duration (the
    default "1d" without the parameter) is none of the six tokens, whatever
    the files hold; 500 exactly when the duration is valid and the universe
    file is missing; and 404 exactly when both are fine and no entry of the
    universe has a file that gives a summary. *)
Theorem heatmap_error_answers :
  forall (float_of_str : string -> option Q)
         (csv_files : string -> option (list row))
         (duration_arg : option string)
         (universe_file : option (list universe_entry)),
    (sector_heatmap float_of_str csv_files duration_arg universe_file
     = Ret (HeatmapError 400 "Invalid duration")
     <-> ~ In (match duration_arg with Some d => d | None => "1d"%string end)
              valid_durations)
    /\ (sector_heatmap float_of_str csv_files duration_arg universe_file
        = Ret (HeatmapError 500 "Universe file not found")
        <-> In (match duration_arg with Some d => d | None => "1d"%string end)
               valid_durations
            /\ universe_file = None)
    /\ (sector_heatmap float_of_str csv_files duration_arg universe_file
        = Ret (HeatmapError 404 "No data available. Run ingest first.")
        <-> In (match duration_arg with Some d => d | None => "1d"%string end)
               valid_durations
            /\ exists universe,
                universe_file = Some universe
                /\ Forall
                     (fun entry =>
                        csv_files (str_of (e_symbol entry)) = None
                        \/ exists rows,
                            csv_files (str_of (e_symbol entry)) = Some rows
                            /\ read_latest_from_csv float_of_str (Some rows)
                                 (match duration_arg with
                                  | Some d => d
                                  | None => "1d"%string
                                  end) = Ret None)
                     universe).
Proof.
  intros fos files darg ufile. unfold sector_heatmap.
  set (d := match darg with Some d => d | None => "1d"%string end).
  pose proof (existsb_eqb_in d valid_durations) as Hin.
  destruct (existsb (String.eqb d) valid_durations) eqn:Hd; cbn [negb].
  - assert (Hv : In d valid_durations) by (apply Hin; reflexivity).
    destruct ufile as [universe|]; cbn [read_universe].
    + destruct (collect_sectors fos files d universe []) as [collected|e] eqn:Hc;
        cbn [bind].
      * destruct (with_averages collected) as [|kv rest] eqn:Hw.
        -- assert (collected = []) as -> by (destruct collected; [reflexivity | discriminate]).
           apply collect_sectors_nil_iff in Hc.
           split; [|split].
           ++ split; [discriminate | tauto].
           ++ split; [discriminate | intros [_ H]; discriminate].
           ++ split; [|reflexivity]. intros _. split; [exact Hv|].
              exists universe. split; [reflexivity|].
              eapply Forall_impl; [|exact Hc]. intros entry He.
              apply entry_summary_none_iff. exact He.
        -- split; [|split].
           ++ split; [discriminate | tauto].
           ++ split; [discriminate | intros [_ H]; discriminate].
           ++ split; [discriminate|]. intros [_ (u & [= <-] & Hall)]. exfalso.
              assert (Hnil : collect_sectors fos files d universe [] = Ret []).
              { apply collect_sectors_nil_iff.
                eapply Forall_impl; [|exact Hall]. intros entry He.
                apply entry_summary_none_iff. exact He. }
              rewrite Hnil in Hc. injection Hc as <-. discriminate.
      * split; [|split].
        -- split; [discriminate | tauto].
        -- split; [discriminate | intros [_ H]; discriminate].
        -- split; [discriminate|]. intros [_ (u & [= <-] & Hall)]. exfalso.
           assert (Hnil : collect_sectors fos files d universe [] = Ret []).
           { apply collect_sectors_nil_iff.
             eapply Forall_impl; [|exact Hall]. intros entry He.
             apply entry_summary_none_iff. exact He. }
           congruence.
    + split; [|split].
      * split; [discriminate | tauto].
      * split; [auto | reflexivity].
      * split; [discriminate | intros [_ (u & H & _)]; discriminate].
  - assert (Hv : ~ In d valid_durations) by (intros H; apply Hin in H; discriminate).
    split; [|split].
    + split; [auto | reflexivity].
    + split; [discriminate | tauto].
    + split; [discriminate | tauto].
Qed.


(** * Properties of [analysis] *)

Section AnalysisFacts.

Variable float_of_str : string -> option Q.
Variable int_of_str : string -> option Z.
Variable csv_frames : string -> source.

Lemma collect_indicators_lookup (symbols : list string) :
  forall results out,
    collect_indicators float_of_str int_of_str csv_frames symbols results = Ret out ->
    forall sym,
      (In sym symbols ->
       exists o,
         compute_indicators_from_csv float_of_str int_of_str (csv_frames sym) = Ret o
         /\ dict_get sym out = match o with
                               | Some snap => Some snap
                               | None => dict_get sym results
                               end)
      /\ (~ In sym symbols -> dict_get sym out = dict_get sym results).
Proof.
  induction symbols as [|s rest IH]; intros results out.
  - cbn. intros [= <-] sym. split; [intros [] | reflexivity].
  - cbn [collect_indicators].
    destruct (compute_indicators_from_csv float_of_str int_of_str (csv_frames s))
      as [info|e] eqn:Hs; cbn [bind]; [|discriminate].
    intros Hout sym.
    set (results' := match info with
                     | Some snap => dict_set s snap results
                     | None => results
                     end).
    assert (Hout' : collect_indicators float_of_str int_of_str csv_frames rest results'
                    = Ret out) by (destruct info; exact Hout).
    destruct (IH _ _ Hout' sym) as [IHin IHout].
    assert (Hother : s <> sym -> dict_get sym results' = dict_get sym results).
    { intros Hne. unfold results'. destruct info; [|reflexivity].
      apply dict_get_set_other. exact Hne. }
    destruct (in_dec string_dec sym rest) as [Hrest | Hrest].
    + split; [|intros Hn; exfalso; apply Hn; right; exact Hrest].
      intros _. destruct (IHin Hrest) as (o & Ho & Hget). exists o.
      split; [exact Ho|]. rewrite Hget. destruct o as [snap|]; [reflexivity|].
      destruct (string_dec s sym) as [-> | Hne]; [|apply Hother; exact Hne].
      assert (info = None) as -> by congruence. reflexivity.
    + split.
      * intros [-> | Hin]; [|contradiction]. exists info. split; [exact Hs|].
        rewrite (IHout Hrest). unfold results'.
        destruct info; [apply dict_get_set_same | reflexivity].
      * intros Hn. rewrite (IHout Hrest). apply Hother.
        intros ->. apply Hn. left. reflexivity.
Qed.

Lemma collect_indicators_raise_iff (e : exn) (symbols : list string) :
  forall results,
    collect_indicators float_of_str int_of_str csv_frames symbols results = Raise e
    <-> exists before sym after,
        symbols = before ++ sym :: after
        /\ Forall (fun x => exists o,
                       compute_indicators_from_csv float_of_str int_of_str
                         (csv_frames x) = Ret o) before
        /\ compute_indicators_from_csv float_of_str int_of_str (csv_frames sym)
           = Raise e.
Proof.
  induction symbols as [|s rest IH]; intros results.
  - cbn. split; [discriminate|]. intros (b & x & a & H & _). destruct b; discriminate.
  - cbn [collect_indicators].
    destruct (compute_indicators_from_csv float_of_str int_of_str (csv_frames s))
      as [info|e'] eqn:Hs; cbn [bind].
    + assert (Hstep : forall r,
                 (collect_indicators float_of_str int_of_str csv_frames rest r = Raise e)
                 <-> exists before sym after,
                     s :: rest = before ++ sym :: after
                     /\ Forall (fun x => exists o,
                                    compute_indicators_from_csv float_of_str int_of_str
                                      (csv_frames x) = Ret o) before
                     /\ compute_indicators_from_csv float_of_str int_of_str
                          (csv_frames sym) = Raise e).
      { intros r. rewrite IH. split.
        - intros (b & x & a & -> & Hb & Hx). exists (s :: b), x, a.
          split; [reflexivity|]. split; [constructor; eauto | exact Hx].
        - intros (b & x & a & Hu & Hb & Hx). destruct b as [|y b]; cbn in Hu.
          + injection Hu as <- <-. congruence.
          + injection Hu as <- ->. inversion Hb; subst. exists b, x, a. auto. }
      destruct info; apply Hstep.
    + split.
      * intros [= <-]. exists [], s, rest. repeat split; auto.
      * intros (b & x & a & Hu & Hb & Hx). destruct b as [|y b]; cbn in Hu.
        -- injection Hu as <- <-. congruence.
        -- injection Hu as <- ->. inversion Hb as [|? ? (o & Ho) _]; subst. congruence.
Qed.

Lemma collect_indicators_from_empty (symbols : list string) (results : dict Snapshot) :
  collect_indicators float_of_str int_of_str csv_frames symbols [] = Ret results ->
  forall sym snap,
    dict_get sym results = Some snap
    <-> In sym symbols
        /\ compute_indicators_from_csv float_of_str int_of_str (csv_frames sym)
           = Ret (Some snap).
Proof.
  intros Hc sym snap.
  destruct (collect_indicators_lookup symbols [] results Hc sym) as [Hin Hout].
  destruct (in_dec string_dec sym symbols) as [Hs | Hs].
  - destruct (Hin Hs) as (o & Ho & Hget). rewrite Hget, Ho.
    destruct o as [snap'|]; cbn [dict_get]; split.
    + intros [= <-]. auto.
    + intros [_ [= <-]]. reflexivity.
    + discriminate.
    + intros [_ H]. discriminate.
  - rewrite (Hout Hs). cbn [dict_get]. split; [discriminate | tauto].
Qed.

End AnalysisFacts.

(** X12. In an answer of [analysis] the dictionary of symbols holds
    exactly the symbols of the universe (those with a name that is not
    empty) whose file gives a snapshot, each with the snapshot of its own
    file; it is empty without the universe file.  The selected data are
    computed from the file named by the parameter, whether or not that
    symbol is in the universe, and are absent without the parameter. *)
Theorem analysis_answer :
  forall (float_of_str : string -> option Q) (int_of_str : string -> option Z)
         (csv_frames : string -> source)
         (symbol_arg : option string)
         (universe_file : option (list universe_entry))
         (resp : analysis_response),
    analysis float_of_str int_of_str csv_frames symbol_arg universe_file = Ret resp ->
    (forall sym snap,
        dict_get sym (a_symbols resp) = Some snap
        <-> In sym (universe_symbols (read_universe universe_file))
            /\ compute_indicators_from_csv float_of_str int_of_str (csv_frames sym)
               = Ret (Some snap))
    /\ (universe_file = None -> a_symbols resp = [])
    /\ a_selected_symbol resp = symbol_arg
    /\ (truthy symbol_arg = true ->
        compute_indicators_from_csv float_of_str int_of_str
          (csv_frames (str_of symbol_arg)) = Ret (a_selected_data resp))
    /\ (truthy symbol_arg = false -> a_selected_data resp = None).
Proof.
  intros fos ios frames symbol ufile resp. unfold analysis.
  destruct (collect_indicators fos ios frames
              (universe_symbols (read_universe ufile)) []) as [results|e] eqn:Hc;
    cbn [bind]; [|discriminate].
  assert (Hempty : ufile = None -> results = []).
  { intros ->. cbn in Hc. congruence. }
  pose proof (collect_indicators_from_empty fos ios frames _ _ Hc) as Hlookup.
  destruct (truthy symbol) eqn:Ht.
  - destruct (compute_indicators_from_csv fos ios (frames (str_of symbol)))
      as [sel|e] eqn:Hsel; cbn [bind]; [|discriminate].
    intros [= <-]. cbn [a_symbols a_selected_symbol a_selected_data].
    split; [exact Hlookup|]. split; [exact Hempty|]. split; [reflexivity|].
    split; [reflexivity | discriminate].
  - cbn [bind]. intros [= <-]. cbn [a_symbols a_selected_symbol a_selected_data].
    split; [exact Hlookup|]. split; [exact Hempty|]. split; [reflexivity|].
    split; [discriminate | reflexivity].
Qed.

Lemma analysis_answer_witness :
  exists resp,
    analysis float_of_decimal int_of_decimal sample_frames (Some "ZZZ"%string)
      (Some sample_universe) = Ret resp
    /\ (forall sym snap,
           dict_get sym (a_symbols resp) = Some snap
           <-> In sym (universe_symbols (read_universe (Some sample_universe)))
               /\ compute_indicators_from_csv float_of_decimal int_of_decimal
                    (sample_frames sym) = Ret (Some snap))
    /\ (Some sample_universe = None -> a_symbols resp = [])
    /\ a_selected_symbol resp = Some "ZZZ"%string
    /\ (truthy (Some "ZZZ"%string) = true ->
        compute_indicators_from_csv float_of_decimal int_of_decimal
          (sample_frames (str_of (Some "ZZZ"%string))) = Ret (a_selected_data resp))
    /\ (truthy (Some "ZZZ"%string) = false -> a_selected_data resp = None).
Proof.
  destruct (analysis float_of_decimal int_of_decimal sample_frames (Some "ZZZ"%string)
              (Some sample_universe)) as [resp|e] eqn:E;
    [|vm_compute in E; discriminate].
  exists resp. split; [reflexivity|].
  exact (analysis_answer _ _ _ _ _ _ E).
Defined.

(** X13. [analysis] raises exactly when [compute_indicators_from_csv]
    raises on the file of a symbol of the universe, with the exception of
    the first such symbol, or, when none does, on the file named by the
    parameter. *)
Theorem analysis_raises_iff :
  forall (float_of_str : string -> option Q) (int_of_str : string -> option Z)
         (csv_frames : string -> source)
         (symbol_arg : option string)
         (universe_file : option (list universe_entry)) (e : exn),
    analysis float_of_str int_of_str csv_frames symbol_arg universe_file = Raise e
    <-> (exists before sym after,
            universe_symbols (read_universe universe_file) = before ++ sym :: after
            /\ Forall (fun x => exists o,
                           compute_indicators_from_csv float_of_str int_of_str
                             (csv_frames x) = Ret o) before
            /\ compute_indicators_from_csv float_of_str int_of_str (csv_frames sym)
               = Raise e)
        \/ (Forall (fun x => exists o,
                        compute_indicators_from_csv float_of_str int_of_str
                          (csv_frames x) = Ret o)
              (universe_symbols (read_universe universe_file))
            /\ truthy symbol_arg = true
            /\ compute_indicators_from_csv float_of_str int_of_str
                 (csv_frames (str_of symbol_arg)) = Raise e).
Proof.
  intros fos ios frames symbol ufile e. unfold analysis.
  set (symbols := universe_symbols (read_universe ufile)).
  pose proof (collect_indicators_raise_iff fos ios frames) as Hraise.
  destruct (collect_indicators fos ios frames symbols []) as [results|e'] eqn:Hc;
    cbn [bind].
  - assert (Hall : Forall (fun x => exists o,
                               compute_indicators_from_csv fos ios (frames x) = Ret o)
                     symbols).
    { apply Forall_forall. intros x Hx.
      destruct (proj1 (collect_indicators_lookup fos ios frames _ _ _ Hc x) Hx)
        as (o & Ho & _). eauto. }
    assert (Hno : ~ exists before sym after,
                   symbols = before ++ sym :: after
                   /\ Forall (fun x => exists o,
                                  compute_indicators_from_csv fos ios (frames x) = Ret o)
                        before
                   /\ compute_indicators_from_csv fos ios (frames sym) = Raise e).
    { intros H. apply (Hraise e symbols []) in H. congruence. }
    destruct (truthy symbol) eqn:Ht.
    + destruct (compute_indicators_from_csv fos ios (frames (str_of symbol)))
        as [sel|e''] eqn:Hsel; cbn [bind]; split.
      * discriminate.
      * intros [H | (_ & _ & H)]; [contradiction | discriminate].
      * intros [= <-]. right. auto.
      * intros [H | (_ & _ & H)]; [contradiction | congruence].
    + cbn [bind]. split; [discriminate|].
      intros [H | (_ & H & _)]; [contradiction | discriminate].
  - split.
    + intros [= <-]. left. apply (Hraise e' symbols []). exact Hc.
    + intros [H | (Hall & _)].
      * apply (Hraise e symbols []) in H. congruence.
      * exfalso. apply (Hraise e' symbols []) in Hc as (b & x & a & Hs & _ & Hx).
        rewrite Forall_forall in Hall. destruct (Hall x) as (o & Ho); [|congruence].
        rewrite Hs. apply in_or_app. right. left. reflexivity.
Qed.

(** * Properties of the cache *)

Lemma Qltb_lt (a b : Q) : Cache.Qltb a b = true <-> (a < b)%Q.
Proof.
  unfold Cache.Qltb. rewrite negb_true_iff. split.
  - intros H. apply Qnot_le_lt. intros Hle. apply Qle_bool_iff in Hle. congruence.
  - intros H. destruct (Qle_bool b a) eqn:E; [|reflexivity].
    apply Qle_bool_iff in E. lra.
Qed.

Lemma Qltb_ge (a b : Q) : Cache.Qltb a b = false <-> (b <= a)%Q.
Proof.
  unfold Cache.Qltb. rewrite negb_false_iff. apply Qle_bool_iff.
Qed.

Lemma dict_get_not_in {V : Type} (k : string) (d : dict V) :
  ~ In k (dict_keys d) -> dict_get k d = None.
Proof.
  induction d as [|[k' v] d IH]; cbn; [reflexivity|]. intros Hn.
  destruct (String.eqb_spec k' k) as [-> | Hk]; [exfalso; auto | apply IH; auto].
Qed.

Lemma dict_get_in {V : Type} (k : string) (v : V) (d : dict V) :
  dict_get k d = Some v -> In k (dict_keys d).
Proof.
  induction d as [|[k' v'] d IH]; cbn; [discriminate|].
  destruct (String.eqb_spec k' k) as [-> | Hk]; [auto | intros H; right; auto].
Qed.

Lemma dict_set_nodup {V : Type} (k : string) (v : V) (d : dict V) :
  NoDup (dict_keys d) -> NoDup (dict_keys (dict_set k v d)).
Proof.
  intros Hd. rewrite dict_keys_set.
  destruct (existsb (String.eqb k) (dict_keys d)) eqn:E; [exact Hd|].
  apply NoDup_app; [exact Hd | repeat constructor; intros [] |].
  intros k' Hk' [<- | []]. apply existsb_eqb_in in Hk'. congruence.
Qed.

Lemma dict_get_filter {V : Type} (f : string * V -> bool) (k : string) (d : dict V) :
  NoDup (dict_keys d) ->
  dict_get k (filter f d)
  = match dict_get k d with
    | Some v => if f (k, v) then Some v else None
    | None => None
    end.
Proof.
  induction d as [|[k' v] d IH]; cbn; [reflexivity|]. intros Hnd.
  inversion Hnd as [|? ? Hk' Hd]; subst.
  destruct (String.eqb_spec k' k) as [-> | Hne].
  - destruct (f (k, v)) eqn:Ef; cbn; [rewrite String.eqb_refl; reflexivity|].
    apply dict_get_not_in. intros Hin. apply Hk'.
    unfold dict_keys in *. apply in_map_iff in Hin as (kv & <- & Hkv).
    apply filter_In in Hkv as [Hkv _]. apply in_map. exact Hkv.
  - destruct (f (k', v)); cbn; [|apply IH; exact Hd].
    destruct (String.eqb_spec k' k); [contradiction | apply IH; exact Hd].
Qed.

(** X14. A result stored by a call is served to every later call under
    the same key made less than [ttl_seconds] after it, without calling the
    function again and without touching the cache. *)
Theorem cache_serves_within_ttl :
  forall (A : Type) (ttl_seconds : Q) (cache_key : string) (t0 now : Q)
         (r : A) (func : result A) (cache : Cache.store A),
    dict_get cache_key cache = None
    \/ (exists r0 ts, dict_get cache_key cache = Some (r0, ts)
                      /\ (ttl_seconds <= t0 - ts)%Q) ->
    (now - t0 < ttl_seconds)%Q ->
    Cache.wrapper A ttl_seconds cache_key t0 (Ret r) cache
    = (Ret r, dict_set cache_key (r, t0) cache)
    /\ Cache.wrapper A ttl_seconds cache_key now func
         (dict_set cache_key (r, t0) cache)
       = (Ret r, dict_set cache_key (r, t0) cache).
Proof.
  intros A ttl key t0 now r func cache Hmiss Hfresh. split.
  - unfold Cache.wrapper.
    destruct Hmiss as [-> | (r0 & ts & -> & Hstale)]; [reflexivity|].
    apply Qltb_ge in Hstale. rewrite Hstale. reflexivity.
  - unfold Cache.wrapper. rewrite dict_get_set_same.
    apply Qltb_lt in Hfresh. rewrite Hfresh. reflexivity.
Qed.

Lemma cache_serves_within_ttl_witness :
  Cache.wrapper Z 60 "f:(1,):{}" 1000 (Ret 7) []
  = (Ret 7, dict_set "f:(1,):{}"%string (7, 1000%Q) [])
  /\ Cache.wrapper Z 60 "f:(1,):{}" 1059 (Ret 8)
       (dict_set "f:(1,):{}"%string (7, 1000%Q) [])
     = (Ret 7, dict_set "f:(1,):{}"%string (7, 1000%Q) []).
Proof.
  apply (cache_serves_within_ttl Z 60 "f:(1,):{}" 1000 1059 7 (Ret 8) []).
  - left. reflexivity.
  - reflexivity.
Defined.

(** X15. Reading an entry does not renew it: a call served from the
    cache leaves the entry and its time stamp as they are, so a call made
    [ttl_seconds] or more after the entry was stored calls the function
    again, however recent the last read, and stores the new result in the
    place of the old one. *)
Theorem cache_read_does_not_renew :
  forall (A : Type) (ttl_seconds : Q) (cache_key : string) (ts now1 now2 : Q)
         (r r2 : A) (func1 : result A) (cache : Cache.store A),
    dict_get cache_key cache = Some (r, ts) ->
    (now1 - ts < ttl_seconds)%Q ->
    (ttl_seconds <= now2 - ts)%Q ->
    Cache.wrapper A ttl_seconds cache_key now1 func1 cache = (Ret r, cache)
    /\ Cache.wrapper A ttl_seconds cache_key now2 (Ret r2) cache
       = (Ret r2, dict_set cache_key (r2, now2) cache)
    /\ dict_keys (dict_set cache_key (r2, now2) cache) = dict_keys cache.
Proof.
  intros A ttl key ts now1 now2 r r2 func1 cache Hget Hfresh Hstale.
  unfold Cache.wrapper. rewrite Hget.
  apply Qltb_lt in Hfresh. apply Qltb_ge in Hstale. rewrite Hfresh, Hstale.
  repeat split. rewrite dict_keys_set.
  assert (Hin : existsb (String.eqb key) (dict_keys cache) = true).
  { apply existsb_eqb_in. eapply dict_get_in. exact Hget. }
  rewrite Hin. reflexivity.
Qed.

Lemma cache_read_does_not_renew_witness :
  Cache.wrapper Z 60 "k" 1059 (Ret 8) [("k"%string, (7, 1000%Q))]
  = (Ret 7, [("k"%string, (7, 1000%Q))])
  /\ Cache.wrapper Z 60 "k" 1060 (Ret 9) [("k"%string, (7, 1000%Q))]
     = (Ret 9, dict_set "k"%string (9, 1060%Q) [("k"%string, (7, 1000%Q))])
  /\ dict_keys (dict_set "k"%string (9, 1060%Q) [("k"%string, (7, 1000%Q))])
     = dict_keys [("k"%string, (7, 1000%Q))].
Proof.
  apply (cache_read_does_not_renew Z 60 "k" 1000 1059 1060 7 9 (Ret 8)).
  - reflexivity.
  - reflexivity.
  - unfold Qle. cbn. lia.
Defined.

(** X16. A call touches the entry of its own key only: every other key
    keeps its entry, no key is ever removed, and a call whose function
    raises leaves the whole cache as it was. *)
Theorem cache_call_frame :
  forall (A : Type) (ttl_seconds : Q) (cache_key : string) (now : Q)
         (func : result A) (cache : Cache.store A),
    (forall other,
        other <> cache_key ->
        dict_get other (snd (Cache.wrapper A ttl_seconds cache_key now func cache))
        = dict_get other cache)
    /\ (forall k, In k (dict_keys cache) ->
                  In k (dict_keys
                          (snd (Cache.wrapper A ttl_seconds cache_key now func cache))))
    /\ (forall e,
           fst (Cache.wrapper A ttl_seconds cache_key now func cache) = Raise e ->
           func = Raise e
           /\ snd (Cache.wrapper A ttl_seconds cache_key now func cache) = cache).
Proof.
  intros A ttl key now func cache.
  assert (Hcases :
            Cache.wrapper A ttl key now func cache
            = match func with
              | Ret r => (Ret r, dict_set key (r, now) cache)
              | Raise e => (Raise e, cache)
              end
            \/ exists r, Cache.wrapper A ttl key now func cache = (Ret r, cache)).
  { unfold Cache.wrapper. destruct (dict_get key cache) as [[r ts]|]; [|left; reflexivity].
    destruct (Cache.Qltb (now - ts) ttl); [right; eauto | left; reflexivity]. }
  destruct Hcases as [-> | (r & ->)].
  - destruct func as [r|e]; cbn [fst snd].
    + split; [|split].
      * intros other Hne. apply dict_get_set_other. congruence.
      * intros k Hk. rewrite dict_keys_set.
        destruct (existsb (String.eqb key) (dict_keys cache)); [exact Hk|].
        apply in_or_app. left. exact Hk.
      * discriminate.
    + split; [reflexivity|]. split; [auto|]. intros e' [= <-]. auto.
  - cbn [fst snd]. split; [reflexivity|]. split; [auto | discriminate].
Qed.

Lemma clean_cache_lookup (A : Type) (max_age_seconds now : Q)
  (cache : Cache.store A) (k : string) (r : A) (ts : Q) :
  NoDup (dict_keys cache) ->
  (dict_get k (Cache.clean_cache A max_age_seconds now cache) = Some (r, ts)
   <-> dict_get k cache = Some (r, ts) /\ (now - ts <= max_age_seconds)%Q).
Proof.
  intros Hnd. unfold Cache.clean_cache. rewrite dict_get_filter by exact Hnd.
  destruct (dict_get k cache) as [[r' ts']|]; cbn [snd].
  - destruct (Cache.Qltb max_age_seconds (now - ts')) eqn:E; cbn [negb]; split.
    + discriminate.
    + intros [[= <- <-] Hage]. apply Qltb_lt in E. lra.
    + intros [= <- <-]. split; [reflexivity|]. apply Qltb_ge. exact E.
    + intros [H _]. exact H.
  - split; [discriminate | intros [H _]; discriminate].
Qed.

(** X17. [clean_cache] removes exactly the entries stored more than
    [max_age_seconds] ago: an entry is in the cleaned cache if and only if
    it was in the cache and its age is at most [max_age_seconds]; the keys
    stay distinct. *)
Theorem clean_cache_removes_older :
  forall (A : Type) (max_age_seconds now : Q) (cache : Cache.store A),
    NoDup (dict_keys cache) ->
    (forall k r ts,
        dict_get k (Cache.clean_cache A max_age_seconds now cache) = Some (r, ts)
        <-> dict_get k cache = Some (r, ts) /\ (now - ts <= max_age_seconds)%Q)
    /\ NoDup (dict_keys (Cache.clean_cache A max_age_seconds now cache)).
Proof.
  intros A max_age now cache Hnd. split.
  - intros k r ts. apply clean_cache_lookup. exact Hnd.
  - unfold Cache.clean_cache, dict_keys.
    apply NoDup_map_inv with (f := fun x => x). rewrite map_id.
    clear -Hnd. induction cache as [|[k v] d IH]; cbn; [constructor|].
    inversion Hnd as [|? ? Hk Hd]; subst.
    destruct (negb _); cbn; [|apply IH; exact Hd].
    constructor; [|apply IH; exact Hd].
    intros Hin. apply Hk. apply in_map_iff in Hin as (kv & <- & Hkv).
    apply filter_In in Hkv as [Hkv _]. apply in_map. exact Hkv.
Qed.

Lemma clean_cache_removes_older_witness :
  (forall k r ts,
      dict_get k (Cache.clean_cache Z 300 1400
                    [("a"%string, (1, 1000%Q)); ("b"%string, (2, 1200%Q))])
      = Some (r, ts)
      <-> dict_get k [("a"%string, (1, 1000%Q)); ("b"%string, (2, 1200%Q))]
          = Some (r, ts)
          /\ (1400 - ts <= 300)%Q)
  /\ NoDup (dict_keys (Cache.clean_cache Z 300 1400
                         [("a"%string, (1, 1000%Q)); ("b"%string, (2, 1200%Q))])).
Proof.
  apply (clean_cache_removes_older Z 300 1400).
  repeat constructor; cbn; intuition discriminate.
Defined.

(** X18. An entry older than [ttl_seconds] and not older than
    [max_age_seconds] outlives [clean_cache] and is yet never served: the
    next call under its key calls the function. *)
Theorem stale_entry_kept_not_served :
  forall (A : Type) (ttl_seconds max_age_seconds now : Q) (cache_key : string)
         (r r' : A) (ts : Q) (cache : Cache.store A),
    NoDup (dict_keys cache) ->
    dict_get cache_key cache = Some (r, ts) ->
    (ttl_seconds <= now - ts)%Q ->
    (now - ts <= max_age_seconds)%Q ->
    dict_get cache_key (Cache.clean_cache A max_age_seconds now cache) = Some (r, ts)
    /\ fst (Cache.wrapper A ttl_seconds cache_key now (Ret r')
              (Cache.clean_cache A max_age_seconds now cache)) = Ret r'.
Proof.
  intros A ttl max_age now key r r' ts cache Hnd Hget Hstale Hage.
  assert (Hkept : dict_get key (Cache.clean_cache A max_age now cache) = Some (r, ts)).
  { apply (clean_cache_lookup A max_age now cache key r ts Hnd). auto. }
  split; [exact Hkept|].
  unfold Cache.wrapper. rewrite Hkept.
  apply Qltb_ge in Hstale. rewrite Hstale. reflexivity.
Qed.

Lemma stale_entry_kept_not_served_witness :
  dict_get "a" (Cache.clean_cache Z 300 1200 [("a"%string, (1, 1000%Q))])
  = Some (1, 1000%Q)
  /\ fst (Cache.wrapper Z 60 "a" 1200 (Ret 5)
            (Cache.clean_cache Z 300 1200 [("a"%string, (1, 1000%Q))])) = Ret 5.
Proof.
  apply (stale_entry_kept_not_served Z 60 300 1200 "a" 1 5 1000).
  - repeat constructor. intros [].
  - reflexivity.
  - unfold Qle. cbn. lia.
  - unfold Qle. cbn. lia.
Defined.

(** * Properties of the ingest script *)

Lemma firstn_prefix {A : Type} (n : nat) (l : list A) :
  exists rest, l = firstn n l ++ rest.
Proof. exists (skipn n l). symmetry. apply firstn_skipn. Qed.

(** X19. The limit of the ingest script keeps a prefix of the symbols:
    all of them without a limit and with the limit 0, the first [n] with a
    limit [n] above zero, and with a limit below zero all but the last
    [-n], which is not refused. *)
Theorem ingest_limit_keeps_prefix :
  forall (symbols : list string) (limit : option Z),
    (exists rest, symbols = Ingest.apply_limit limit symbols ++ rest)
    /\ (limit = None \/ limit = Some 0 -> Ingest.apply_limit limit symbols = symbols)
    /\ (forall n, limit = Some n -> 0 < n ->
          List.length (Ingest.apply_limit limit symbols)
          = Nat.min (Z.to_nat n) (List.length symbols))
    /\ (forall n, limit = Some n -> n < 0 ->
          List.length (Ingest.apply_limit limit symbols)
          = (List.length symbols - Z.to_nat (- n))%nat).
Proof.
  intros symbols limit. split; [|split; [|split]].
  - unfold Ingest.apply_limit, Ingest.slice_to.
    destruct limit as [n|]; [|exists []; symmetry; apply app_nil_r].
    destruct (n =? 0); [exists []; symmetry; apply app_nil_r|].
    destruct (0 <=? n); apply firstn_prefix.
  - intros [-> | ->]; reflexivity.
  - intros n -> Hn. unfold Ingest.apply_limit, Ingest.slice_to.
    destruct (Z.eqb_spec n 0); [lia|].
    destruct (Z.leb_spec 0 n); [|lia]. apply length_firstn.
  - intros n -> Hn. unfold Ingest.apply_limit, Ingest.slice_to.
    destruct (Z.eqb_spec n 0); [lia|].
    destruct (Z.leb_spec 0 n); [lia|]. rewrite length_firstn. lia.
Qed.

Lemma download_loop_returns (total : nat) (download_ok : nat -> string -> bool)
  (symbols : list string) :
  forall i, snd (Ingest.download_loop total download_ok (Ret tt) i symbols) = Ret tt.
Proof.
  induction symbols as [|s rest IH]; intros i; cbn [Ingest.download_loop].
  - reflexivity.
  - destruct (download_ok i s); [cbn [snd]|]; apply IH.
Qed.

Lemma download_loop_in (total : nat) (download_ok : nat -> string -> bool)
  (symbols : list string) :
  forall i p,
    In p (fst (Ingest.download_loop total download_ok (Ret tt) i symbols))
    <-> exists j sym,
        nth_error symbols j = Some sym
        /\ download_ok (i + j)%nat sym = true
        /\ p = update_for total (i + j) sym.
Proof.
  induction symbols as [|s rest IH]; intros i p; cbn [Ingest.download_loop].
  - split; [intros [] | intros (j & sym & H & _); destruct j; discriminate].
  - assert (Hrest : In p (fst (Ingest.download_loop total download_ok (Ret tt)
                                 (S i) rest))
                    <-> exists j sym,
                        nth_error (s :: rest) (S j) = Some sym
                        /\ download_ok (i + S j)%nat sym = true
                        /\ p = update_for total (i + S j) sym).
    { rewrite IH. split; intros (j & sym & Hn & Hok & Hp); exists j, sym;
        replace (i + S j)%nat with (S i + j)%nat in * by lia; auto. }
    destruct (download_ok i s) eqn:Hs.
    + cbn [fst In]. rewrite Hrest. split.
      * intros [<- | (j & sym & H)].
        -- exists 0%nat, s. rewrite Nat.add_0_r. auto.
        -- exists (S j), sym. exact H.
      * intros (j & sym & Hn & Hok & Hp). destruct j as [|j].
        -- left. cbn in Hn. injection Hn as <-. rewrite Nat.add_0_r in Hp. auto.
        -- right. exists j, sym. auto.
    + rewrite Hrest. split.
      * intros (j & sym & H). exists (S j), sym. exact H.
      * intros (j & sym & Hn & Hok & Hp). destruct j as [|j].
        -- cbn in Hn. injection Hn as <-. rewrite Nat.add_0_r in Hok. congruence.
        -- exists j, sym. auto.
Qed.

Lemma download_loop_sorted (total : nat) (download_ok : nat -> string -> bool)
  (symbols : list string) :
  forall i,
    StronglySorted (fun p q => (Ingest.p_done p < Ingest.p_done q)%nat)
      (fst (Ingest.download_loop total download_ok (Ret tt) i symbols)).
Proof.
  induction symbols as [|s rest IH]; intros i; cbn [Ingest.download_loop].
  - constructor.
  - destruct (download_ok i s); [|apply IH]. cbn [fst].
    constructor; [apply IH|]. apply Forall_forall. intros q Hq.
    apply download_loop_in in Hq as (j & sym & _ & _ & ->). cbn. lia.
Qed.

(** The loop under a [time.sleep] that raises: it goes on over the
    symbols whose download raises and stops after the update of the first
    one whose download returns. *)
Lemma download_loop_failed_sleep (total : nat) (download_ok : nat -> string -> bool)
  (e : exn) (symbols : list string) :
  forall i,
    ((forall j sym, nth_error symbols j = Some sym ->
                    download_ok (i + j)%nat sym = false)
     /\ Ingest.download_loop total download_ok (Raise e) i symbols = ([], Ret tt))
    \/ (exists j sym,
           nth_error symbols j = Some sym
           /\ download_ok (i + j)%nat sym = true
           /\ (forall k s, (k < j)%nat -> nth_error symbols k = Some s ->
                           download_ok (i + k)%nat s = false)
           /\ Ingest.download_loop total download_ok (Raise e) i symbols
              = ([update_for total (i + j) sym], Raise e)).
Proof.
  induction symbols as [|s rest IH]; intros i; cbn [Ingest.download_loop].
  - left. split; [|reflexivity]. intros j sym H. destruct j; discriminate.
  - destruct (download_ok i s) eqn:Hs.
    + right. exists 0%nat, s. rewrite Nat.add_0_r.
      repeat split; auto. intros k s' Hk. lia.
    + destruct (IH (S i)) as [[Hall Heq] | (j & sym & Hn & Hok & Hbefore & Heq)].
      * left. split; [|exact Heq]. intros j sym Hn. destruct j as [|j].
        -- cbn in Hn. injection Hn as <-. rewrite Nat.add_0_r. exact Hs.
        -- replace (i + S j)%nat with (S i + j)%nat by lia. apply Hall. exact Hn.
      * right. exists (S j), sym.
        replace (i + S j)%nat with (S i + j)%nat by lia.
        repeat split; auto. intros k s' Hk Hn'. destruct k as [|k].
        -- cbn in Hn'. injection Hn' as <-. rewrite Nat.add_0_r. exact Hs.
        -- replace (i + S k)%nat with (S i + k)%nat by lia.
           apply (Hbefore k s'); [lia | exact Hn'].
Qed.

(** X20. With a pause that [time.sleep] accepts, whatever download or
    save fails, the ingest run ends with exit code 0 and reports, in this
    order: a first object "running" with [done] 0; one update for each
    symbol whose download returned, and none for a symbol whose download
    raised, carrying the symbol and its position as [done], so that [done]
    grows strictly; and a last object "finished" with [done] equal to the
    total, the number of symbols after the limit. *)
Theorem ingest_progress_trace :
  forall (limit : option Z) (download_ok : nat -> string -> bool)
         (symbols : list string),
    exists updates,
      Ingest.run_downloads limit download_ok (Ret tt) symbols
      = (Ingest.mkProgress (List.length (Ingest.apply_limit limit symbols)) 0 None
           "running"
           :: updates
           ++ [Ingest.mkProgress (List.length (Ingest.apply_limit limit symbols))
                 (List.length (Ingest.apply_limit limit symbols)) None "finished"],
         Ret 0)
      /\ (forall p,
             In p updates
             <-> exists i sym,
                 nth_error (Ingest.apply_limit limit symbols) i = Some sym
                 /\ download_ok i sym = true
                 /\ p = update_for (List.length (Ingest.apply_limit limit symbols))
                          i sym)
      /\ StronglySorted (fun p q => (Ingest.p_done p < Ingest.p_done q)%nat) updates
      /\ Forall (fun p => (1 <= Ingest.p_done p
                           <= List.length (Ingest.apply_limit limit symbols))%nat)
           updates.
Proof.
  intros limit ok symbols.
  set (kept := Ingest.apply_limit limit symbols).
  exists (fst (Ingest.download_loop (List.length kept) ok (Ret tt) 0 kept)).
  split; [|split; [|split]].
  - unfold Ingest.run_downloads. fold kept. cbv zeta.
    rewrite download_loop_returns. reflexivity.
  - intros p. rewrite download_loop_in. cbn [Nat.add]. reflexivity.
  - apply download_loop_sorted.
  - apply Forall_forall. intros p Hp.
    apply download_loop_in in Hp as (j & sym & Hn & _ & ->). cbn.
    assert (j < List.length kept)%nat by (apply nth_error_Some; congruence). lia.
Qed.

(** X21. With a pause that [time.sleep] refuses (one below zero), the
    ingest run raises that exception right after the update of the first
    symbol whose download returns: no later symbol is downloaded and
    "finished" is never reported.  Only when every download raises does the
    run still end with exit code 0. *)
Theorem ingest_stops_at_failed_sleep :
  forall (limit : option Z) (download_ok : nat -> string -> bool) (e : exn)
         (symbols : list string),
    ((forall i sym,
         nth_error (Ingest.apply_limit limit symbols) i = Some sym ->
         download_ok i sym = false)
     /\ Ingest.run_downloads limit download_ok (Raise e) symbols
        = ([Ingest.mkProgress (List.length (Ingest.apply_limit limit symbols)) 0
              None "running";
            Ingest.mkProgress (List.length (Ingest.apply_limit limit symbols))
              (List.length (Ingest.apply_limit limit symbols)) None "finished"],
           Ret 0))
    \/ (exists i sym,
           nth_error (Ingest.apply_limit limit symbols) i = Some sym
           /\ download_ok i sym = true
           /\ (forall k s, (k < i)%nat ->
                  nth_error (Ingest.apply_limit limit symbols) k = Some s ->
                  download_ok k s = false)
           /\ Ingest.run_downloads limit download_ok (Raise e) symbols
              = ([Ingest.mkProgress (List.length (Ingest.apply_limit limit symbols))
                    0 None "running";
                  update_for (List.length (Ingest.apply_limit limit symbols)) i sym],
                 Raise e)).
Proof.
  intros limit ok e symbols.
  set (kept := Ingest.apply_limit limit symbols).
  unfold Ingest.run_downloads. fold kept. cbv zeta.
  destruct (download_loop_failed_sleep (List.length kept) ok e kept 0)
    as [[Hall Heq] | (j & sym & Hn & Hok & Hbefore & Heq)]; rewrite Heq.
  - left. split; [|reflexivity]. intros i sym Hn. apply (Hall i sym Hn).
  - right. exists j, sym. cbn [Nat.add] in *. repeat split; auto.
Qed.

(** ** The scan for a symbols file *)

Lemma looks_like_universe_true (data : Ingest.json) :
  Ingest.looks_like_universe data = inr true
  <-> exists fields rest,
      data = Ingest.JList (Ingest.JObj fields :: rest)
      /\ In "symbol"%string (map fst fields).
Proof.
  assert (Hkey : forall fields,
             existsb (fun kv : string * Ingest.json => String.eqb (fst kv) "symbol")
               fields = true
             <-> In "symbol"%string (map fst fields)).
  { intros fields. rewrite existsb_exists. split.
    - intros (kv & Hin & Hk). apply String.eqb_eq in Hk. rewrite <- Hk.
      apply in_map. exact Hin.
    - intros Hin. apply in_map_iff in Hin as (kv & Hk & Hin).
      exists kv. split; [exact Hin|]. rewrite Hk. reflexivity. }
  unfold Ingest.looks_like_universe.
  destruct data as [|b|q|s|l|l]; cbn.
  - split; [discriminate | intros (f & r & H & _); discriminate].
  - destruct b; split; try discriminate; intros (f & r & H & _); discriminate.
  - destruct (Qeq_bool q 0); cbn; split; try discriminate;
      intros (f & r & H & _); discriminate.
  - destruct s as [|c s]; cbn; split; try discriminate;
      intros (f & r & H & _); discriminate.
  - destruct l as [|x l]; cbn.
    + split; [discriminate | intros (f & r & H & _); discriminate].
    + destruct x as [|b|q|s|l'|fields]; cbn;
        try (split; [discriminate | intros (f & r & H & _); discriminate]).
      split.
      * intros [= H]. exists fields, l. split; [reflexivity|]. apply Hkey. exact H.
      * intros (f & r & [= <- <-] & Hin). apply Hkey in Hin. rewrite Hin. reflexivity.
  - destruct l; cbn; split; try discriminate; intros (f & r & H & _); discriminate.
Qed.

Lemma looks_like_universe_raises (data : Ingest.json) (e : Ingest.scan_error) :
  Ingest.looks_like_universe data = inl e
  <-> (e = Ingest.KeyError /\ exists field fields, data = Ingest.JObj (field :: fields))
      \/ (e = Ingest.NotSubscriptable
          /\ (data = Ingest.JBool true
              \/ exists q, data = Ingest.JNum q /\ ~ (q == 0)%Q)).
Proof.
  unfold Ingest.looks_like_universe.
  destruct data as [|b|q|s|l|l]; cbn.
  - split; [discriminate|].
    intros [[_ (f & fs & H)] | [_ [H | (q & H & _)]]]; discriminate.
  - destruct b; cbn; split.
    + intros [= <-]. right. auto.
    + intros [[_ (f & fs & H)] | [-> _]]; [discriminate | reflexivity].
    + discriminate.
    + intros [[_ (f & fs & H)] | [_ [H | (q & H & _)]]]; discriminate.
  - destruct (Qeq_bool q 0) eqn:E; cbn; split.
    + discriminate.
    + intros [[_ (f & fs & H)] | [_ [H | (q' & [= <-] & Hq)]]]; try discriminate.
      apply Qeq_bool_iff in E. contradiction.
    + intros [= <-]. right. split; [reflexivity|]. right. exists q.
      split; [reflexivity|]. intros Hq. apply Qeq_bool_iff in Hq. congruence.
    + intros [[_ (f & fs & H)] | [-> _]]; [discriminate | reflexivity].
  - destruct s as [|c s]; cbn; split; try discriminate;
      intros [[_ (f & fs & H)] | [_ [H | (q & H & _)]]]; discriminate.
  - destruct l as [|x l]; cbn; split; try discriminate;
      intros [[_ (f & fs & H)] | [_ [H | (q & H & _)]]]; discriminate.
  - destruct l as [|kv l]; cbn; split.
    + discriminate.
    + intros [[_ (f & fs & H)] | [_ [H | (q & H & _)]]]; discriminate.
    + intros [= <-]. left. eauto.
    + intros [[-> _] | [_ [H | (q & H & _)]]]; [reflexivity | discriminate..].
Qed.

Lemma scan_candidates_skip (before rest : list (string * option Ingest.json)) :
  Forall passed_over before ->
  Ingest.scan_candidates (before ++ rest) = Ingest.scan_candidates rest.
Proof.
  intros Hb. induction Hb as [|[c content] before Hp Hb IH]; [reflexivity|].
  cbn [app Ingest.scan_candidates].
  destruct Hp as [Hn | (data & Hd & Hf)]; cbn in *.
  - rewrite Hn. exact IH.
  - rewrite Hd, Hf. exact IH.
Qed.

(** Either every file is passed over, or a first one is not. *)
Lemma scan_candidates_split (cands : list (string * option Ingest.json)) :
  Ingest.scan_candidates cands = inr None
  \/ exists before c data after,
      cands = before ++ (c, Some data) :: after
      /\ Forall passed_over before
      /\ Ingest.looks_like_universe data <> inr false.
Proof.
  induction cands as [|[c content] rest IH]; [left; reflexivity|].
  assert (Hpass : passed_over (c, content) ->
                  Ingest.scan_candidates ((c, content) :: rest)
                  = Ingest.scan_candidates rest).
  { intros Hp. apply (scan_candidates_skip [(c, content)] rest).
    constructor; [exact Hp | constructor]. }
  assert (Hstep : passed_over (c, content) ->
                  Ingest.scan_candidates ((c, content) :: rest) = inr None
                  \/ exists before c' data after,
                      (c, content) :: rest = before ++ (c', Some data) :: after
                      /\ Forall passed_over before
                      /\ Ingest.looks_like_universe data <> inr false).
  { intros Hp. destruct IH as [Hnone | (b & c' & d & a & -> & Hb & Hd)].
    - left. rewrite (Hpass Hp). exact Hnone.
    - right. exists ((c, content) :: b), c', d, a. repeat split; auto. }
  destruct content as [data|]; [|apply Hstep; left; reflexivity].
  destruct (Ingest.looks_like_universe data) as [e|[|]] eqn:Hl.
  - right. exists [], c, data, rest. repeat split; auto. congruence.
  - right. exists [], c, data, rest. repeat split; auto. congruence.
  - apply Hstep. right. exists data. auto.
Qed.

Lemma scan_candidates_at (c : string) (data : Ingest.json)
  (after : list (string * option Ingest.json)) :
  Ingest.looks_like_universe data <> inr false ->
  Ingest.scan_candidates ((c, Some data) :: after)
  = match Ingest.looks_like_universe data with
    | inl e => inl e
    | inr _ => inr (Some c)
    end.
Proof.
  intros Hl. cbn [Ingest.scan_candidates].
  destruct (Ingest.looks_like_universe data) as [e|[|]]; [reflexivity..|congruence].
Qed.

(** X22. The scan of the directory settles on the first file, in the
    order given, whose content is a list that is not empty and starts with
    an object having the key "symbol", every file before it being one that
    does not parse or does not look like the universe. *)
Theorem scan_finds_first_universe :
  forall (cands : list (string * option Ingest.json)) (c : string),
    Ingest.scan_candidates cands = inr (Some c)
    <-> exists before fields others after,
        cands = before
                ++ (c, Some (Ingest.JList (Ingest.JObj fields :: others))) :: after
        /\ Forall passed_over before
        /\ In "symbol"%string (map fst fields).
Proof.
  intros cands c. split.
  - intros Hscan.
    destruct (scan_candidates_split cands) as [Hnone | (b & c' & d & a & -> & Hb & Hd)];
      [congruence|].
    rewrite (scan_candidates_skip b _ Hb), (scan_candidates_at c' d a Hd) in Hscan.
    destruct (Ingest.looks_like_universe d) as [e|[|]] eqn:Hl;
      [discriminate | | congruence].
    injection Hscan as ->.
    apply looks_like_universe_true in Hl as (fields & others & -> & Hin).
    exists b, fields, others, a. auto.
  - intros (b & fields & others & a & -> & Hb & Hin).
    assert (Hl : Ingest.looks_like_universe
                   (Ingest.JList (Ingest.JObj fields :: others)) = inr true)
      by (apply looks_like_universe_true; eauto).
    rewrite (scan_candidates_skip b _ Hb), scan_candidates_at by congruence.
    rewrite Hl. reflexivity.
Qed.

(** X23. The scan of the directory is stopped by an exception, and not
    by a file that fails to parse: it raises [KeyError] on the first file
    not passed over when that file holds an object with a key, and a type
    error when it holds [true] or a number other than zero. *)
Theorem scan_raises_on_object_or_number :
  forall (cands : list (string * option Ingest.json)) (e : Ingest.scan_error),
    Ingest.scan_candidates cands = inl e
    <-> exists before c data after,
        cands = before ++ (c, Some data) :: after
        /\ Forall passed_over before
        /\ ((e = Ingest.KeyError
             /\ exists field fields, data = Ingest.JObj (field :: fields))
            \/ (e = Ingest.NotSubscriptable
                /\ (data = Ingest.JBool true
                    \/ exists q, data = Ingest.JNum q /\ ~ (q == 0)%Q))).
Proof.
  intros cands e. split.
  - intros Hscan.
    destruct (scan_candidates_split cands) as [Hnone | (b & c' & d & a & -> & Hb & Hd)];
      [congruence|].
    rewrite (scan_candidates_skip b _ Hb), (scan_candidates_at c' d a Hd) in Hscan.
    destruct (Ingest.looks_like_universe d) as [e'|[|]] eqn:Hl; try discriminate.
    injection Hscan as ->.
    apply looks_like_universe_raises in Hl. exists b, c', d, a. auto.
  - intros (b & c' & d & a & -> & Hb & Hd).
    apply looks_like_universe_raises in Hd.
    rewrite (scan_candidates_skip b _ Hb), scan_candidates_at by congruence.
    rewrite Hd. reflexivity.
Qed.
